(** * Gallery state and persistence of the anime wallpaper generator

    A shallow embedding of [index.tsx]: the [Wallpaper] entity, the three
    gallery lists, the rotating demo prompts, the selected aspect ratio,
    [localStorage], and the handlers that change them.

    Conventions of the embedding.
    - A JavaScript string is a [string]; each character stands for one
      code unit in the range U+0000..U+00FF.
    - [Date.now()] is an input of the handlers (an integer number of
      milliseconds), as are the answers of the image service and the values
      of [Math.random()].
    - An [async] handler is cut at its [await]: one function for the part
      that runs up to the request, one for the continuation.
    - Calls that leave the program ([ai.models.generateImages],
      [localStorage.setItem]) are appended to a log kept in the state.
    - [localStorage.setItem] throws when the browser refuses the write
      (a full or disabled store); whether it does is an input too, the
      [quota] of the state.  Nothing in [index.tsx] catches that
      exception or the [SyntaxError] of [JSON.parse], so a function that
      can meet one ends in a [Completion]: it returned, or it threw in
      the state reached so far.
    - Of the DOM, the [data-theme] attribute (in the state) and the
      history grid with its placeholder paragraph ([View]) are modelled;
      the other grids, the toast, the modal and the spinner of the
      button are not. *)

From Stdlib Require Import ZArith Lia String Ascii.
From Stdlib Require Import Decimal DecimalString DecimalFacts DecimalPos DecimalN DecimalZ.
From stdpp Require Import base option list strings gmap.

Set Warnings "-register-all".

Local Open Scope string_scope.
Local Open Scope list_scope.

(** ** Data model *)

(** [type AspectRatio = "9:16" | "1:1" | "16:9"] *)
Inductive AspectRatio : Type := R9_16 | R1_1 | R16_9.

(** [source: 'user' | 'demo'] *)
Inductive Source : Type := user | demo.

(** [interface Wallpaper] *)
Record Wallpaper : Type := mkWallpaper {
  id : string;
  prompt : string;
  imageUrl : string;
  aspectRatio : AspectRatio;
  timestamp : Z;
  source : Source
}.

Global Instance AspectRatio_eq_dec : EqDecision AspectRatio.
Proof. solve_decision. Defined.

Global Instance Source_eq_dec : EqDecision Source.
Proof. solve_decision. Defined.

Global Instance Wallpaper_eq_dec : EqDecision Wallpaper.
Proof. solve_decision. Defined.

Definition AspectRatio_to_string (r : AspectRatio) : string :=
  match r with R9_16 => "9:16" | R1_1 => "1:1" | R16_9 => "16:9" end.

Definition Source_to_string (s : Source) : string :=
  match s with user => "user" | demo => "demo" end.

(** [n.toString()] and the [${n}] of a template literal, for an integer
    (JavaScript writes all the digits of an integer below 10^21, which
    covers every [Date.now()] reading). *)
Definition Number_toString (z : Z) : string :=
  NilEmpty.string_of_int (Z.to_int z).

(** ** Outbound calls *)

Inductive Call : Type :=
  | generateImages (prompt : string) (ratio : AspectRatio)
  | setItem (key value : string).

Definition is_setItem (c : Call) : bool :=
  match c with setItem _ _ => true | generateImages _ _ => false end.

Definition is_generateImages (c : Call) : bool :=
  match c with generateImages _ _ => true | setItem _ _ => false end.

(** ** JSON: the values and the two built-ins used by the persistence code *)

Module JSON.

(** The quotation mark, U+0022. *)
Abbreviation dquote := (Ascii false true false false false true false false).

(** The values [JSON.parse] can return.  A number is an integer here:
    the only numbers the program stores are [Date.now()] readings.  An
    object is the list of its properties in creation order. *)
Inductive value : Type :=
  | Null
  | Bool (b : bool)
  | Number (z : Z)
  | Str (s : string)
  | Array (elements : list value)
  | Object (members : list (string * value)).

(** Outcome of [JSON.parse]: a value; the [SyntaxError] it throws on a
    text that is no JSON text; or [Unsupported] for a JSON text whose
    value the embedding cannot represent (a number with a fraction or an
    exponent, the negative zero, an escape above U+00FF, a property name
    that is an array index). *)
Inductive result (A : Type) : Type :=
  | Ok (a : A)
  | SyntaxError
  | Unsupported.
Global Arguments Ok {A} a.
Global Arguments SyntaxError {A}.
Global Arguments Unsupported {A}.

(** The readers of the descent below answer with the value read and the
    rest of the text, or with [None] when they read no value of the
    embedding; [None] does not tell why. *)
Definition bind {A B : Type} (r : option A) (k : A -> option B) : option B :=
  match r with
  | Some a => k a
  | None => None
  end.

Notation "'let!' p ':=' r 'in' k" := (bind r (fun p => k))
  (at level 10, p pattern, r at level 100, k at level 200).

(** *** Serialisation *)

Definition hex_digit (n : nat) : ascii :=
  match n with
  | 0 => "0" | 1 => "1" | 2 => "2" | 3 => "3" | 4 => "4" | 5 => "5"
  | 6 => "6" | 7 => "7" | 8 => "8" | 9 => "9" | 10 => "a" | 11 => "b"
  | 12 => "c" | 13 => "d" | 14 => "e" | _ => "f"
  end%char.

(** One code unit inside a string literal, as [JSON.stringify] writes it. *)
Definition quote_char (c : ascii) : string :=
  let n := nat_of_ascii c in
  if Nat.eqb n 34 then String "\" (String dquote "")
  else if Nat.eqb n 92 then "\\"
  else if Nat.eqb n 8 then "\b"
  else if Nat.eqb n 12 then "\f"
  else if Nat.eqb n 10 then "\n"
  else if Nat.eqb n 13 then "\r"
  else if Nat.eqb n 9 then "\t"
  else if Nat.ltb n 32 then
    String "\" (String "u" (String "0" (String "0"
      (String (hex_digit (n / 16)) (String (hex_digit (n mod 16)) "")))))
  else String c "".

Fixpoint quote_body (s : string) : string :=
  match s with
  | "" => ""
  | String c s' => quote_char c +:+ quote_body s'
  end.

Definition quote (s : string) : string :=
  String dquote (quote_body s +:+ String dquote "").

(** The elements of an array after the opening bracket, given how an
    element is written. *)
Definition stringify_elements (f : value -> string) : list value -> string :=
  fix elems (l : list value) : string :=
    match l with
    | [] => "]"
    | x :: l' =>
        f x +:+ match l' with [] => "]" | _ => String "," (elems l') end
    end.

(** The properties of an object after the opening brace. *)
Definition stringify_members (f : value -> string)
  : list (string * value) -> string :=
  fix membs (m : list (string * value)) : string :=
    match m with
    | [] => "}"
    | kx :: m' =>
        quote kx.1 +:+ String ":" (f kx.2) +:+
        match m' with [] => "}" | _ => String "," (membs m') end
    end.

(** [JSON.stringify(v)], without indentation. *)
Fixpoint stringify (v : value) : string :=
  match v with
  | Null => "null"
  | Bool true => "true"
  | Bool false => "false"
  | Number z => Number_toString z
  | Str s => quote s
  | Array l => String "[" (stringify_elements stringify l)
  | Object m => String "{" (stringify_members stringify m)
  end.

(** *** Parsing *)

(** JSON insignificant white space: tab, line feed, carriage return,
    space. *)
Definition is_ws (c : ascii) : bool :=
  let n := nat_of_ascii c in
  Nat.eqb n 9 || Nat.eqb n 10 || Nat.eqb n 13 || Nat.eqb n 32.

Fixpoint skip_ws (s : string) : string :=
  match s with
  | String c s' => if is_ws c then skip_ws s' else s
  | "" => ""
  end.

Definition hex_value (c : ascii) : option nat :=
  let n := nat_of_ascii c in
  if Nat.leb 48 n && Nat.leb n 57 then Some (n - 48)
  else if Nat.leb 97 n && Nat.leb n 102 then Some (n - 87)
  else if Nat.leb 65 n && Nat.leb n 70 then Some (n - 55)
  else None.

(** The four hexadecimal digits of a [\u] escape. *)
Definition unescape_u (a b c d : ascii) : option ascii :=
  match hex_value a, hex_value b, hex_value c, hex_value d with
  | Some x, Some y, Some z, Some w =>
      if Nat.eqb x 0 && Nat.eqb y 0 then Some (ascii_of_nat (16 * z + w))
      else None
  | _, _, _, _ => None
  end.

Definition unescape (e : ascii) : option ascii :=
  let n := nat_of_ascii e in
  if Nat.eqb n 34 then Some dquote
  else if Nat.eqb n 92 then Some "\"%char
  else if Nat.eqb n 47 then Some "/"%char
  else if Nat.eqb n 98 then Some (ascii_of_nat 8)
  else if Nat.eqb n 102 then Some (ascii_of_nat 12)
  else if Nat.eqb n 110 then Some (ascii_of_nat 10)
  else if Nat.eqb n 114 then Some (ascii_of_nat 13)
  else if Nat.eqb n 116 then Some (ascii_of_nat 9)
  else None.

(** The characters of a string literal after its opening quote, up to
    and including the closing quote. *)
Fixpoint parse_chars (s : string) : option (string * string) :=
  match s with
  | "" => None
  | String c s' =>
      let n := nat_of_ascii c in
      if Nat.eqb n 34 then Some ("", s')
      else if Nat.eqb n 92 then
        match s' with
        | "" => None
        | String e s'' =>
            if Nat.eqb (nat_of_ascii e) 117 then
              match s'' with
              | String h1 (String h2 (String h3 (String h4 s4))) =>
                  let! x := unescape_u h1 h2 h3 h4 in
                  let! p := parse_chars s4 in
                  Some (String x p.1, p.2)
              | _ => None
              end
            else
              match unescape e with
              | Some x => let! p := parse_chars s'' in Some (String x p.1, p.2)
              | None => None
              end
        end
      else if Nat.ltb n 32 then None
      else let! p := parse_chars s' in Some (String c p.1, p.2)
  end.

Definition digit_value (c : ascii) : option nat :=
  let n := nat_of_ascii c in
  if Nat.leb 48 n && Nat.leb n 57 then Some (n - 48) else None.

Definition cons_digit (n : nat) (d : uint) : uint :=
  match n with
  | 0 => D0 d | 1 => D1 d | 2 => D2 d | 3 => D3 d | 4 => D4 d
  | 5 => D5 d | 6 => D6 d | 7 => D7 d | 8 => D8 d | _ => D9 d
  end.

(** The longest prefix of decimal digits, and what follows it. *)
Fixpoint read_digits (s : string) : uint * string :=
  match s with
  | "" => (Nil, "")
  | String c s' =>
      match digit_value c with
      | Some n => let p := read_digits s' in (cons_digit n p.1, p.2)
      | None => (Nil, s)
      end
  end.

(** Does a fraction or an exponent follow the integer part? *)
Definition more_number (s : string) : bool :=
  match s with
  | String c _ =>
      let n := nat_of_ascii c in Nat.eqb n 46 || Nat.eqb n 101 || Nat.eqb n 69
  | "" => false
  end.

(** The digits of an integer: at least one, no leading zero, and no
    fraction or exponent behind them.  A numeral that goes on with [.],
    [e] or [E] is no integer of the embedding, whether what follows is
    well formed ([1.5]) or not ([1.]): the grammar below tells the two
    apart. *)
Definition parse_magnitude (s : string) : option (N * string) :=
  let p := read_digits s in
  match p.1 with
  | Nil => None
  | D0 Nil | D1 _ | D2 _ | D3 _ | D4 _ | D5 _ | D6 _ | D7 _ | D8 _ | D9 _ =>
      if more_number p.2 then None else Some (N.of_uint p.1, p.2)
  | D0 _ => None
  end.

(** An integer with its sign; [-0] is the negative zero, which is no
    integer. *)
Definition parse_number (s : string) : option (Z * string) :=
  match s with
  | String c s' =>
      if Nat.eqb (nat_of_ascii c) 45
      then
        let! p := parse_magnitude s' in
        if N.eqb p.1 0 then None else Some (Z.opp (Z.of_N p.1), p.2)
      else let! p := parse_magnitude s in Some (Z.of_N p.1, p.2)
  | "" => None
  end.

(** Is the property name an array index (["0"], ["1"], ["25"], ...)?
    JavaScript enumerates such properties first, in numeric order. *)
Definition is_array_index (k : string) : bool :=
  let p := read_digits k in
  match p.1, p.2 with
  | Nil, _ => false
  | D0 Nil, "" => true
  | D0 _, _ => false
  | _, "" => true
  | _, _ => false
  end.

(** [CreateDataProperty]: a repeated name keeps its place and takes the
    later value, a new name goes last. *)
Fixpoint set_property (k : string) (v : value) (m : list (string * value))
  : list (string * value) :=
  match m with
  | [] => [(k, v)]
  | (k', v') :: m' =>
      if String.eqb k k' then (k, v) :: m' else (k', v') :: set_property k v m'
  end.

Definition starts_with_digit_or_minus (s : string) : bool :=
  match s with
  | String c _ =>
      Nat.eqb (nat_of_ascii c) 45 || bool_decide (is_Some (digit_value c))
  | "" => false
  end.

Definition starts_with (c : ascii) (s : string) : bool :=
  match s with
  | String c' _ => Ascii.eqb c' c
  | "" => false
  end.

Definition tail (s : string) : string :=
  match s with
  | String _ r => r
  | "" => ""
  end.

(** Recursive descent, for the value of a text.  [fuel] bounds the depth
    of the calls; a value and the list it sits in take two units for one
    bracket of the text, so twice the length of the text is enough.  The
    descent stops with [None] at the first thing it cannot read as a
    value of the embedding (a property name that is an array index, a
    number that is no integer, a code unit that cannot come next), so
    [None] says nothing about the rest of the text: whether a text is a
    JSON text, and so whether [JSON.parse] throws, is decided by the
    grammar below, not here. *)
Fixpoint parse_value (fuel : nat) (s : string) : option (value * string) :=
  match fuel with
  | 0 => None
  | S fuel' =>
      match skip_ws s with
      | String "n" (String "u" (String "l" (String "l" r))) => Some (Null, r)
      | String "t" (String "r" (String "u" (String "e" r))) => Some (Bool true, r)
      | String "f" (String "a" (String "l" (String "s" (String "e" r)))) =>
          Some (Bool false, r)
      | String dquote r => let! p := parse_chars r in Some (Str p.1, p.2)
      | String "[" r =>
          if starts_with "]" (skip_ws r) then Some (Array [], tail (skip_ws r))
          else let! p := parse_elements fuel' r in Some (Array p.1, p.2)
      | String "{" r =>
          if starts_with "}" (skip_ws r) then Some (Object [], tail (skip_ws r))
          else let! p := parse_members fuel' [] r in Some (Object p.1, p.2)
      | r =>
          if starts_with_digit_or_minus r
          then let! p := parse_number r in Some (Number p.1, p.2)
          else None
      end
  end
with parse_elements (fuel : nat) (s : string) : option (list value * string) :=
  match fuel with
  | 0 => None
  | S fuel' =>
      let! p := parse_value fuel' s in
      match skip_ws p.2 with
      | String "," r => let! q := parse_elements fuel' r in Some (p.1 :: q.1, q.2)
      | String "]" r => Some ([p.1], r)
      | _ => None
      end
  end
with parse_members (fuel : nat) (acc : list (string * value)) (s : string)
  : option (list (string * value) * string) :=
  match fuel with
  | 0 => None
  | S fuel' =>
      match skip_ws s with
      | String dquote r =>
          let! k := parse_chars r in
          match skip_ws k.2 with
          | String ":" r' =>
              let! p := parse_value fuel' r' in
              if is_array_index k.1 then None
              else
                let acc' := set_property k.1 p.1 acc in
                match skip_ws p.2 with
                | String "," r'' => parse_members fuel' acc' r''
                | String "}" r'' => Some (acc', r'')
                | _ => None
                end
          | _ => None
          end
      | _ => None
      end
  end.

(** *** The grammar *)

(** Whether a text is a JSON text is decided apart from its value, by the
    automaton of the grammar: one transition per code unit, and a stack of
    the arrays and objects that are open. *)
Inductive frame : Type := InArray | InObject.

(** Where the automaton stands: before a value, inside a string or a
    number, after a value. *)
Inductive mode : Type :=
  | Value
  | ValueOrClose
  | KeyOrClose
  | Key
  | Colon
  | After
  | InString (key : bool)
  | Escape (key : bool)
  | Hex (more : nat) (key : bool)
  | Minus
  | Zero
  | Int
  | Dot
  | Frac
  | Exp
  | ExpSign
  | ExpDigits
  | Literal (rest : string).

Definition is_digit (c : ascii) : bool := bool_decide (is_Some (digit_value c)).

Definition is_e (c : ascii) : bool :=
  let n := nat_of_ascii c in Nat.eqb n 101 || Nat.eqb n 69.

(** After a value: white space, a comma, or the bracket that closes the
    innermost open array or object. *)
Definition after_value (stack : list frame) (c : ascii)
  : option (mode * list frame) :=
  if is_ws c then Some (After, stack)
  else
    match stack with
    | InArray :: stack' =>
        if Ascii.eqb c "," then Some (Value, stack)
        else if Ascii.eqb c "]" then Some (After, stack')
        else None
    | InObject :: stack' =>
        if Ascii.eqb c "," then Some (Key, stack)
        else if Ascii.eqb c "}" then Some (After, stack')
        else None
    | [] => None
    end.

(** The first code unit of a value. *)
Definition value_start (stack : list frame) (c : ascii)
  : option (mode * list frame) :=
  if Ascii.eqb c dquote then Some (InString false, stack)
  else if Ascii.eqb c "[" then Some (ValueOrClose, InArray :: stack)
  else if Ascii.eqb c "{" then Some (KeyOrClose, InObject :: stack)
  else if Ascii.eqb c "-" then Some (Minus, stack)
  else if Ascii.eqb c "0" then Some (Zero, stack)
  else if is_digit c then Some (Int, stack)
  else if Ascii.eqb c "n" then Some (Literal "ull", stack)
  else if Ascii.eqb c "t" then Some (Literal "rue", stack)
  else if Ascii.eqb c "f" then Some (Literal "alse", stack)
  else None.

(** One transition; [None] when the code unit cannot come next. *)
Definition next (m : mode) (stack : list frame) (c : ascii)
  : option (mode * list frame) :=
  match m with
  | Value => if is_ws c then Some (Value, stack) else value_start stack c
  | ValueOrClose =>
      if is_ws c then Some (ValueOrClose, stack)
      else if Ascii.eqb c "]" then Some (After, List.tl stack)
      else value_start stack c
  | KeyOrClose =>
      if is_ws c then Some (KeyOrClose, stack)
      else if Ascii.eqb c "}" then Some (After, List.tl stack)
      else if Ascii.eqb c dquote then Some (InString true, stack)
      else None
  | Key =>
      if is_ws c then Some (Key, stack)
      else if Ascii.eqb c dquote then Some (InString true, stack)
      else None
  | Colon =>
      if is_ws c then Some (Colon, stack)
      else if Ascii.eqb c ":" then Some (Value, stack)
      else None
  | After => after_value stack c
  | InString key =>
      if Ascii.eqb c dquote then Some (if key then Colon else After, stack)
      else if Ascii.eqb c "\" then Some (Escape key, stack)
      else if Nat.ltb (nat_of_ascii c) 32 then None
      else Some (InString key, stack)
  | Escape key =>
      if Ascii.eqb c "u" then Some (Hex 4 key, stack)
      else
        match unescape c with
        | Some _ => Some (InString key, stack)
        | None => None
        end
  | Hex more key =>
      match hex_value c with
      | Some _ =>
          Some (match more with
                | S (S more') => Hex (S more') key
                | _ => InString key
                end, stack)
      | None => None
      end
  | Minus =>
      if Ascii.eqb c "0" then Some (Zero, stack)
      else if is_digit c then Some (Int, stack)
      else None
  | Zero =>
      if Ascii.eqb c "." then Some (Dot, stack)
      else if is_e c then Some (Exp, stack)
      else after_value stack c
  | Int =>
      if is_digit c then Some (Int, stack)
      else if Ascii.eqb c "." then Some (Dot, stack)
      else if is_e c then Some (Exp, stack)
      else after_value stack c
  | Dot => if is_digit c then Some (Frac, stack) else None
  | Frac =>
      if is_digit c then Some (Frac, stack)
      else if is_e c then Some (Exp, stack)
      else after_value stack c
  | Exp =>
      if Ascii.eqb c "+" || Ascii.eqb c "-" then Some (ExpSign, stack)
      else if is_digit c then Some (ExpDigits, stack)
      else None
  | ExpSign => if is_digit c then Some (ExpDigits, stack) else None
  | ExpDigits =>
      if is_digit c then Some (ExpDigits, stack) else after_value stack c
  | Literal rest =>
      match rest with
      | String c' rest' =>
          if Ascii.eqb c c'
          then Some (match rest' with "" => After | _ => Literal rest' end, stack)
          else None
      | "" => None
      end
  end.

(** The automaton over a text. *)
Fixpoint scan (m : mode) (stack : list frame) (s : string)
  : option (mode * list frame) :=
  match s with
  | "" => Some (m, stack)
  | String c s' =>
      match next m stack c with
      | Some (m', stack') => scan m' stack' s'
      | None => None
      end
  end.

(** The modes in which a text may end: after a value, or in a number
    that is complete as it stands. *)
Definition complete (m : mode) : bool :=
  match m with
  | After | Zero | Int | Frac | ExpDigits => true
  | _ => false
  end.

(** The modes in which a value may start. *)
Definition opens (m : mode) : Prop := m = Value \/ m = ValueOrClose.

(** The modes the text that [stringify] writes for a value ends in. *)
Definition closed (m : mode) : Prop := m = After \/ m = Zero \/ m = Int.

(** The text is a JSON text: white space, one value, white space. *)
Definition well_formed (text : string) : bool :=
  match scan Value [] text with
  | Some (m, []) => complete m
  | _ => false
  end.

(** [JSON.parse(text)]: a text that is no JSON text makes it throw, and
    only such a text does; the value of a JSON text is the one the
    descent reads, when the embedding has it. *)
Definition parse (text : string) : result value :=
  if well_formed text then
    match parse_value (2 * String.length text + 2) text with
    | Some p =>
        match skip_ws p.2 with
        | "" => Ok p.1
        | _ => Unsupported
        end
    | None => Unsupported
    end
  else SyntaxError.

(** *** Measures and well-formedness *)

(** What may follow a value: the end of the text, a comma, or a closing
    bracket or brace. *)
Definition delimited (rest : string) : Prop :=
  match rest with
  | "" => True
  | String c _ => c = ","%char \/ c = "]"%char \/ c = "}"%char
  end.

(** A numeral in normal form: not empty, and no leading zero unless it
    is [0] itself. *)
Definition normal (d : uint) : Prop :=
  match d with
  | Nil => False
  | D0 Nil => True
  | D0 _ => False
  | _ => True
  end.

(** The fuel that parsing the text of [v] takes at most. *)
Fixpoint size (v : value) : nat :=
  match v with
  | Array l => S (length l + sum_list (size <$> l))
  | Object m => S (length m + sum_list ((fun kx => size kx.2) <$> m))
  | _ => 1
  end.

(** Values whose objects have pairwise distinct property names, none of
    them an array index: the values that [parse] can return. *)
Fixpoint wf (v : value) : Prop :=
  match v with
  | Array l => foldr (fun x P => wf x /\ P) True l
  | Object m =>
      NoDup (m.*1) /\
      foldr (fun kx P => is_array_index kx.1 = false /\ wf kx.2 /\ P) True m
  | _ => True
  end.

(** With [fuel], the three parsers read back what [stringify] wrote. *)
Definition elements_ok (fuel : nat) : Prop :=
  forall l rest,
    l <> [] -> foldr (fun x P => wf x /\ P) True l ->
    length l + sum_list (size <$> l) <= fuel -> delimited rest ->
    parse_elements fuel (stringify_elements stringify l +:+ rest) = Some (l, rest).

Definition members_ok (fuel : nat) : Prop :=
  forall m acc rest,
    m <> [] ->
    foldr (fun kx P => is_array_index kx.1 = false /\ wf kx.2 /\ P) True m ->
    NoDup (acc.*1 ++ m.*1) ->
    length m + sum_list ((fun kx => size kx.2) <$> m) <= fuel -> delimited rest ->
    parse_members fuel acc (stringify_members stringify m +:+ rest) =
    Some (acc ++ m, rest).

Definition value_ok (fuel : nat) : Prop :=
  forall v rest,
    wf v -> size v <= fuel -> delimited rest ->
    parse_value fuel (stringify v +:+ rest) = Some (v, rest).

End JSON.

(** ** Wallpapers as JSON values *)

(** The object literal of a [Wallpaper], property by property. *)
Definition Wallpaper_toJSON (w : Wallpaper) : JSON.value :=
  JSON.Object
    [ ("id", JSON.Str (id w));
      ("prompt", JSON.Str (prompt w));
      ("imageUrl", JSON.Str (imageUrl w));
      ("aspectRatio", JSON.Str (AspectRatio_to_string (aspectRatio w)));
      ("timestamp", JSON.Number (timestamp w));
      ("source", JSON.Str (Source_to_string (source w))) ].

Definition Wallpapers_toJSON (l : list Wallpaper) : JSON.value :=
  JSON.Array (map Wallpaper_toJSON l).

Definition AspectRatio_of_string (s : string) : option AspectRatio :=
  if String.eqb s "9:16" then Some R9_16
  else if String.eqb s "1:1" then Some R1_1
  else if String.eqb s "16:9" then Some R16_9
  else None.

Definition Source_of_string (s : string) : option Source :=
  if String.eqb s "user" then Some user
  else if String.eqb s "demo" then Some demo
  else None.

(** The typed view of a parsed value.  The program assigns the result of
    [JSON.parse] to a [Wallpaper[]] variable without looking at it; a
    value that is not of that shape has no counterpart in the typed
    state. *)
Definition Wallpaper_ofJSON (v : JSON.value) : option Wallpaper :=
  match v with
  | JSON.Object
      [ (k1, JSON.Str i); (k2, JSON.Str p); (k3, JSON.Str u);
        (k4, JSON.Str a); (k5, JSON.Number t); (k6, JSON.Str s) ] =>
      if String.eqb k1 "id" && String.eqb k2 "prompt" &&
         String.eqb k3 "imageUrl" && String.eqb k4 "aspectRatio" &&
         String.eqb k5 "timestamp" && String.eqb k6 "source"
      then
        match AspectRatio_of_string a, Source_of_string s with
        | Some r, Some o => Some (mkWallpaper i p u r t o)
        | _, _ => None
        end
      else None
  | _ => None
  end.

Definition Wallpapers_ofJSON (v : JSON.value) : option (list Wallpaper) :=
  match v with
  | JSON.Array l => mapM Wallpaper_ofJSON l
  | _ => None
  end.

(** ** Program state *)

(** The module-level variables of [index.tsx], the value of the prompt
    text area, the [data-theme] attribute of the document element ([None]
    while it is not set), the browser's [localStorage], and the log of
    outbound calls (oldest first).

    [quota store key value] tells whether the browser lets
    [setItem(key, value)] through while the store holds [store].  A
    browser refuses a write when the origin has used up its room, or when
    storage is switched off; how much room there is is up to the browser,
    and the program has no say in it. *)
Record State : Type := mkState {
  history : list Wallpaper;
  demoHistory : list Wallpaper;
  allGenerations : list Wallpaper;
  demoPrompts : list string;
  selectedAspectRatio : AspectRatio;
  promptInput : string;
  dataTheme : option string;
  localStorage : gmap string string;
  quota : gmap string string -> string -> string -> bool;
  calls : list Call
}.

Definition set_history (l : list Wallpaper) (st : State) : State :=
  mkState l (demoHistory st) (allGenerations st) (demoPrompts st)
    (selectedAspectRatio st) (promptInput st) (dataTheme st) (localStorage st)
    (quota st) (calls st).

Definition set_demoHistory (l : list Wallpaper) (st : State) : State :=
  mkState (history st) l (allGenerations st) (demoPrompts st)
    (selectedAspectRatio st) (promptInput st) (dataTheme st) (localStorage st)
    (quota st) (calls st).

Definition set_allGenerations (l : list Wallpaper) (st : State) : State :=
  mkState (history st) (demoHistory st) l (demoPrompts st)
    (selectedAspectRatio st) (promptInput st) (dataTheme st) (localStorage st)
    (quota st) (calls st).

Definition set_demoPrompts (l : list string) (st : State) : State :=
  mkState (history st) (demoHistory st) (allGenerations st) l
    (selectedAspectRatio st) (promptInput st) (dataTheme st) (localStorage st)
    (quota st) (calls st).

Definition set_selectedAspectRatio (r : AspectRatio) (st : State) : State :=
  mkState (history st) (demoHistory st) (allGenerations st) (demoPrompts st)
    r (promptInput st) (dataTheme st) (localStorage st) (quota st) (calls st).

Definition set_promptInput (s : string) (st : State) : State :=
  mkState (history st) (demoHistory st) (allGenerations st) (demoPrompts st)
    (selectedAspectRatio st) s (dataTheme st) (localStorage st) (quota st)
    (calls st).

Definition set_dataTheme (t : option string) (st : State) : State :=
  mkState (history st) (demoHistory st) (allGenerations st) (demoPrompts st)
    (selectedAspectRatio st) (promptInput st) t (localStorage st) (quota st)
    (calls st).

Definition set_localStorage (m : gmap string string) (st : State) : State :=
  mkState (history st) (demoHistory st) (allGenerations st) (demoPrompts st)
    (selectedAspectRatio st) (promptInput st) (dataTheme st) m (quota st)
    (calls st).

(** An outbound call goes to the end of the log. *)
Definition log_call (c : Call) (st : State) : State :=
  mkState (history st) (demoHistory st) (allGenerations st) (demoPrompts st)
    (selectedAspectRatio st) (promptInput st) (dataTheme st) (localStorage st)
    (quota st) (calls st ++ [c]).

(** How a call ends: it returns; it throws, the state being the one
    reached at the throw (the [SyntaxError] of [JSON.parse], the
    [QuotaExceededError] of [setItem]: nothing in [index.tsx] catches
    either); or, for [loadData] only, it assigns a value that is no list
    of wallpapers, which the typed state cannot hold. *)
Inductive Completion : Type :=
  | Returned (st : State)
  | Threw (st : State)
  | Untyped.

Definition and_then (c : Completion) (k : State -> Completion) : Completion :=
  match c with
  | Returned st => k st
  | Threw st => Threw st
  | Untyped => Untyped
  end.

(** A function applied to the state a completion carries. *)
Definition on_state (f : State -> State) (c : Completion) : Completion :=
  match c with
  | Returned st => Returned (f st)
  | Threw st => Threw (f st)
  | Untyped => Untyped
  end.

(** The call returned. *)
Definition returned (c : Completion) : bool :=
  match c with Returned _ => true | _ => false end.

(** The state the program is in once a call made in [st] has ended,
    whether it returned or threw: an exception that leaves a handler ends
    the handler, and the page goes on from the state reached. *)
Definition state_after (st : State) (c : Completion) : State :=
  match c with
  | Returned st' => st'
  | Threw st' => st'
  | Untyped => st
  end.

(** [localStorage.setItem(key, value)]: the browser stores the value, or
    throws and leaves the store as it is.  The call is logged either
    way. *)
Definition localStorage_setItem (key value : string) (st : State) : Completion :=
  let st1 := log_call (setItem key value) st in
  if quota st (localStorage st) key value
  then Returned (set_localStorage (<[key := value]> (localStorage st)) st1)
  else Threw st1.

(** The request [generateWallpaper] sends: the prompt with the style
    suffix, and the ratio. *)
Definition request_image (prompt : string) (ratio : AspectRatio) (st : State)
  : State :=
  log_call
    (generateImages (prompt +:+ ", anime style, high resolution, wallpaper")
       ratio) st.

(** The variables as the module declares them, in a browser with the
    given quota and store. *)
Definition initial_state
  (quota : gmap string string -> string -> string -> bool)
  (store : gmap string string) : State :=
  mkState [] [] [] [] R9_16 "" None store quota [].

Definition PROMPT_POOL : list string :=
  [ "Epic anime warrior under the moonlight";
    "Cute anime girl with cherry blossoms";
    "A futuristic cityscape in anime style";
    "Magical girl casting a powerful spell";
    "Steampunk airship flying through clouds";
    "A samurai warrior in a neon-lit Tokyo street";
    "Anime character enjoying a bowl of ramen";
    "A serene Japanese garden with a pagoda";
    "Gundam-style mech in a dynamic pose";
    "A ninja moving silently through the shadows";
    "Fantasy knight with a glowing sword";
    "Cyberpunk hacker in a high-tech hideout" ].

(** ** The image service *)

(** What [generateWallpaper] resolves to, given the answer of the image
    service: [Some bytes] for a response carrying base64 image bytes,
    [None] for any exception, which the [catch] turns into [null]. *)
Definition generateWallpaper_result (response : option string) : option string :=
  match response with
  | Some base64Image => Some ("data:image/jpeg;base64," +:+ base64Image)
  | None => None
  end.

(** Truthiness of a [string | null]. *)
Definition truthy (x : option string) : bool :=
  match x with
  | Some s => negb (String.eqb s "")
  | None => false
  end.

(** ** Persistence *)

Definition saveData (st : State) : Completion :=
  and_then
    (localStorage_setItem "userHistory"
       (JSON.stringify (Wallpapers_toJSON (history st))) st) (fun st1 =>
  and_then
    (localStorage_setItem "demoHistory"
       (JSON.stringify (Wallpapers_toJSON (demoHistory st1))) st1) (fun st2 =>
  localStorage_setItem "allGenerations"
    (JSON.stringify (Wallpapers_toJSON (allGenerations st2))) st2)).

(** One line [if (saved) list = JSON.parse(saved);] of [loadData], where
    [saved] is what [localStorage.getItem] gave: [null] and the empty
    string are falsy. *)
Definition assign_parsed (saved : option string)
  (assign : list Wallpaper -> State -> State) (st : State) : Completion :=
  match saved with
  | None => Returned st
  | Some text =>
      if String.eqb text "" then Returned st
      else
        match JSON.parse text with
        | JSON.SyntaxError => Threw st
        | JSON.Unsupported => Untyped
        | JSON.Ok v =>
            match Wallpapers_ofJSON v with
            | Some l => Returned (assign l st)
            | None => Untyped
            end
        end
  end.

Definition loadData (st : State) : Completion :=
  let savedHistory := localStorage st !! "userHistory" in
  let savedDemoHistory := localStorage st !! "demoHistory" in
  let savedAllGenerations := localStorage st !! "allGenerations" in
  and_then (assign_parsed savedHistory set_history st) (fun st1 =>
  and_then (assign_parsed savedDemoHistory set_demoHistory st1) (fun st2 =>
  assign_parsed savedAllGenerations set_allGenerations st2)).

(** ** The theme *)

(** [x || fallback] for a [string | null]. *)
Definition or_else (x : option string) (fallback : string) : string :=
  match x with
  | Some s => if String.eqb s "" then fallback else s
  | None => fallback
  end.

Definition applyTheme (theme : string) (st : State) : Completion :=
  localStorage_setItem "theme" theme (set_dataTheme (Some theme) st).

Definition toggleTheme (st : State) : Completion :=
  let currentTheme := or_else (dataTheme st) "light" in
  let newTheme := if String.eqb currentTheme "light" then "dark" else "light" in
  applyTheme newTheme st.

(** ** Submitting a prompt *)

(** The code units [String.prototype.trim] removes, among U+0000..U+00FF:
    tab, line feed, vertical tab, form feed, carriage return, space and
    no-break space. *)
Definition isWhiteSpace (c : ascii) : bool :=
  let n := nat_of_ascii c in
  (Nat.leb 9 n && Nat.leb n 13) || Nat.eqb n 32 || Nat.eqb n 160.

Fixpoint trimStart (s : string) : string :=
  match s with
  | String c s' => if isWhiteSpace c then trimStart s' else s
  | "" => ""
  end.

Definition trimEnd (s : string) : string :=
  String.rev (trimStart (String.rev s)).

Definition trim (s : string) : string := trimEnd (trimStart s).

(** [handleFormSubmit] up to its [await]: the trimmed prompt when a
    request was sent, [None] when the handler returned at once. *)
Definition handleFormSubmit_request (st : State) : option string * State :=
  let prompt := trim (promptInput st) in
  if String.eqb prompt "" then (None, st)
  else (Some prompt, request_image prompt (selectedAspectRatio st) st).

(** [handleFormSubmit] after its [await]; [now1] and [now2] are the two
    readings of [Date.now()].  When [saveData] throws, the handler ends
    there: the prompt input is not cleared. *)
Definition handleFormSubmit_resume (prompt : string) (imageUrl : option string)
  (now1 now2 : Z) (st : State) : Completion :=
  match imageUrl with
  | Some url =>
      if truthy imageUrl then
        let newWallpaper :=
          mkWallpaper (Number_toString now1) prompt url
            (selectedAspectRatio st) now2 user in
        let st1 := set_history (history st ++ [newWallpaper]) st in
        let st2 := set_allGenerations (allGenerations st1 ++ [newWallpaper]) st1 in
        and_then (saveData st2) (fun st3 => Returned (set_promptInput "" st3))
      else Returned st
  | None => Returned st
  end.

(** A whole call of [handleFormSubmit] with nothing running in between:
    the state it leaves.  [response] is the answer of the image
    service. *)
Definition handleFormSubmit (response : option string) (now1 now2 : Z)
  (st : State) : State :=
  match handleFormSubmit_request st with
  | (None, st1) => st1
  | (Some prompt, st1) =>
      state_after st1
        (handleFormSubmit_resume prompt (generateWallpaper_result response)
           now1 now2 st1)
  end.

(** [handleAspectRatioChange] on a button carrying [data-ratio]. *)
Definition handleAspectRatioChange (ratio : AspectRatio) (st : State) : State :=
  set_selectedAspectRatio ratio st.

(** ** The demo batch *)

Definition demoCount : nat := 4.

Definition demoAspectRatio : AspectRatio := R9_16.

(** [generateLiveDemos] up to its [await]: the prompts drawn and the
    requests sent, one per prompt.  [shuffled] is the pool as the random
    sort left it. *)
Definition generateLiveDemos_request (shuffled : list string) (st : State)
  : list string * State :=
  let initialPrompts := take demoCount shuffled in
  (initialPrompts,
   foldl (fun s prompt => request_image prompt demoAspectRatio s) st
     initialPrompts).

(** The [.then] callback of request [i]. *)
Definition then_callback (prompt : string) (i : nat) (imageUrl : option string)
  (now1 now2 : Z) : option Wallpaper :=
  match imageUrl with
  | Some url =>
      if truthy imageUrl then
        Some (mkWallpaper
                ("demo-" +:+ Number_toString now1 +:+ "-" +:+
                 Number_toString (Z.of_nat i))
                prompt url demoAspectRatio now2 demo)
      else None
  | None => None
  end.

(** The completion of one request of the batch: which one, the answer of
    the image service, and the two clock readings of its callback. *)
Record Settlement : Type := mkSettlement {
  index : nat;
  response : option string;
  now1 : Z;
  now2 : Z
}.

(** [Promise.all]: a slot per promise, [None] while it is pending; a
    promise that settles stores its value at its own position. *)
Definition Promise_settle (initialPrompts : list string)
  (slots : list (option (option Wallpaper))) (e : Settlement)
  : list (option (option Wallpaper)) :=
  match initialPrompts !! index e, slots !! index e with
  | Some prompt, Some None =>
      <[index e :=
          Some (then_callback prompt (index e)
                  (generateWallpaper_result (response e)) (now1 e) (now2 e))]>
        slots
  | _, _ => slots
  end.

(** The array [Promise.all] resolves to once every slot is filled;
    [None] while some promise is pending. *)
Definition Promise_all (initialPrompts : list string)
  (settlements : list Settlement) : option (list (option Wallpaper)) :=
  mapM (fun slot => slot)
    (foldl (Promise_settle initialPrompts)
       (replicate (length initialPrompts) None) settlements).

(** One turn of [results.forEach]. *)
Definition push_demo (st : State) (wallpaper : Wallpaper) : State :=
  let st1 := set_demoHistory (demoHistory st ++ [wallpaper]) st in
  set_allGenerations (allGenerations st1 ++ [wallpaper]) st1.

(** [generateLiveDemos] after its [await]. *)
Definition generateLiveDemos_resume (values : list (option Wallpaper))
  (st : State) : Completion :=
  let results := omap (fun v => v) values in
  let st1 := foldl push_demo st results in
  if Nat.ltb 0 (length results) then saveData st1 else Returned st1.

(** A whole call of [generateLiveDemos] with nothing running in between:
    the state it leaves.  [settlements] lists the completions in the
    order they happen; while a request is outstanding the function stays
    suspended. *)
Definition generateLiveDemos (shuffled : list string)
  (settlements : list Settlement) (st : State) : State :=
  match generateLiveDemos_request shuffled st with
  | (initialPrompts, st1) =>
      match Promise_all initialPrompts settlements with
      | Some values => state_after st1 (generateLiveDemos_resume values st1)
      | None => st1
      end
  end.

(** ** Rotating the demo prompts *)

(** [l.indexOf(x)], with [None] for [-1]. *)
Fixpoint indexOf (x : string) (l : list string) : option nat :=
  match l with
  | [] => None
  | y :: l' => if String.eqb y x then Some 0 else S <$> indexOf x l'
  end.

(** [l.includes(x)] *)
Definition includes (x : string) (l : list string) : bool :=
  bool_decide (x ∈ l).

(** [pool[Math.floor(Math.random() * pool.length)]] at the [k]-th draw.
    [random k] stands for the [k]-th value of [Math.random()]; the index
    it gives is any index below the length, here [random k mod length
    pool]. *)
Definition drawn (pool : list string) (random : nat -> nat) (k : nat) : string :=
  nth (random k mod length pool) pool "".

(** The [do ... while] loop of [refreshDemoPrompt].  [fuel] bounds the
    number of draws; [None] means the loop is still running after that
    many. *)
Fixpoint resample (pool shown : list string) (random : nat -> nat)
  (k fuel : nat) : option string :=
  match fuel with
  | 0 => None
  | S fuel' =>
      let newPrompt := drawn pool random k in
      if includes newPrompt shown
      then resample pool shown random (S k) fuel'
      else Some newPrompt
  end.

Definition refreshDemoPrompt_in (pool : list string) (usedPrompt : string)
  (random : nat -> nat) (fuel : nat) (st : State) : option State :=
  match indexOf usedPrompt (demoPrompts st) with
  | None => Some st
  | Some i =>
      match resample pool (demoPrompts st) random 0 fuel with
      | Some newPrompt =>
          Some (set_demoPrompts (<[i := newPrompt]> (demoPrompts st)) st)
      | None => None
      end
  end.

Definition refreshDemoPrompt : string -> (nat -> nat) -> nat -> State -> option State :=
  refreshDemoPrompt_in PROMPT_POOL.

(** ** Clicking a demo prompt *)

(** [handleDemoPromptClick]: the prompt goes into the prompt input,
    [handleFormSubmit] runs up to its [await] (the result is the prompt
    its continuation holds, if a request was sent), then
    [refreshDemoPrompt] rotates the prompt out.  [None] means the
    resampling loop is still running after [fuel] draws. *)
Definition handleDemoPromptClick (prompt : string) (random : nat -> nat)
  (fuel : nat) (st : State) : option (option string * State) :=
  let st1 := set_promptInput prompt st in
  match handleFormSubmit_request st1 with
  | (pending, st2) =>
      match refreshDemoPrompt prompt random fuel st2 with
      | Some st3 => Some (pending, st3)
      | None => None
      end
  end.

(** ** Startup *)

(** [initializeApp], as far as the state goes: the saved theme, or dark,
    is applied; [loadData]; the three demo prompts drawn from the
    shuffled pool; and the start of the demo batch.  An exception of
    [applyTheme] or of [loadData] ends it on the spot. *)
Definition initializeApp (shuffledPrompts shuffledDemos : list string)
  (st : State) : Completion :=
  let savedTheme := or_else (localStorage st !! "theme") "dark" in
  and_then (applyTheme savedTheme st) (fun st0 =>
  and_then (loadData st0) (fun st1 =>
    let st2 := set_demoPrompts (take 3 shuffledPrompts) st1 in
    Returned (generateLiveDemos_request shuffledDemos st2).2)).

(** ** Sequences of operations *)

(** What can happen between two [await]s. *)
Inductive Step : Type :=
  | Input (text : string)
  | AspectRatioChange (ratio : AspectRatio)
  | SubmitRequest
  | SubmitResume (prompt : string) (response : option string) (now1 now2 : Z)
  | DemosRequest (shuffled : list string)
  | DemosResume (initialPrompts : list string) (settlements : list Settlement).

(** How the piece of code behind a step ends. *)
Definition handle (st : State) (a : Step) : Completion :=
  match a with
  | Input text => Returned (set_promptInput text st)
  | AspectRatioChange ratio => Returned (handleAspectRatioChange ratio st)
  | SubmitRequest => Returned (handleFormSubmit_request st).2
  | SubmitResume prompt response n1 n2 =>
      handleFormSubmit_resume prompt (generateWallpaper_result response) n1 n2 st
  | DemosRequest shuffled => Returned (generateLiveDemos_request shuffled st).2
  | DemosResume initialPrompts settlements =>
      match Promise_all initialPrompts settlements with
      | Some values => generateLiveDemos_resume values st
      | None => Returned st
      end
  end.

Definition step (st : State) (a : Step) : State := state_after st (handle st a).

Definition steps (st : State) (l : list Step) : State := foldl step st l.

(** No step of the sequence ended with an exception. *)
Fixpoint steps_return (st : State) (l : list Step) : bool :=
  match l with
  | [] => true
  | a :: l' => returned (handle st a) && steps_return (step st a) l'
  end.

(** Whole operations, each run to its end before the next starts. *)
Inductive Operation : Type :=
  | Submit (text : string) (response : option string) (now1 now2 : Z)
  | SelectAspectRatio (ratio : AspectRatio)
  | DemoBatch (shuffled : list string) (settlements : list Settlement).

Definition run_op (st : State) (o : Operation) : State :=
  match o with
  | Submit text response n1 n2 =>
      handleFormSubmit response n1 n2 (set_promptInput text st)
  | SelectAspectRatio ratio => handleAspectRatioChange ratio st
  | DemoBatch shuffled settlements => generateLiveDemos shuffled settlements st
  end.

Definition run (st : State) (ops : list Operation) : State := foldl run_op st ops.

(** ** File names *)

(** [s.slice(0, n)] *)
Fixpoint slice0 (n : nat) (s : string) : string :=
  match n, s with
  | S n', String c s' => String c (slice0 n' s')
  | _, _ => ""
  end.

(** [s.replace(/\s/g, '_')]: the class [\s] holds, among U+0000..U+00FF,
    the code units [trim] removes. *)
Fixpoint replace_whitespace (s : string) : string :=
  match s with
  | String c s' =>
      String (if isWhiteSpace c then "_"%char else c) (replace_whitespace s')
  | "" => ""
  end.

(** The file name [downloadImage] gives the image. *)
Definition download_name (wallpaper : Wallpaper) : string :=
  replace_whitespace (slice0 20 (prompt wallpaper)) +:+ ".jpeg".

(** The file name [shareImage] gives the image. *)
Definition share_name (wallpaper : Wallpaper) : string :=
  slice0 20 (prompt wallpaper) +:+ ".jpeg".

(** ** The history grid *)

(** A child of a grid, as [createWallpaperCard] builds it: a card with a
    spinner, or a card with the image.  A spinner card is later removed
    through the reference the handler keeps, so it carries the identity
    of its element. *)
Inductive Card : Type :=
  | LoadingCard (element : nat) (wallpaper : Wallpaper)
  | PictureCard (wallpaper : Wallpaper) (showSourceTag : bool).

(** The part of the document [handleFormSubmit] and [renderHistory] act
    on: the children of [historyGrid], first child first; whether the
    paragraph [historyPlaceholder] is displayed ([None] when the document
    has no such element); and the identity the next element gets. *)
Record View : Type := mkView {
  historyGrid : list Card;
  historyPlaceholder : option bool;
  nextElement : nat
}.

(** [if (p) p.style.display = 'none'] and ['block']. *)
Definition hidden (p : option bool) : option bool :=
  match p with Some _ => Some false | None => None end.

Definition shown (p : option bool) : option bool :=
  match p with Some _ => Some true | None => None end.

Definition renderHistory (st : State) (v : View) : View :=
  if Nat.ltb 0 (length (history st)) then
    mkView (map (fun wallpaper => PictureCard wallpaper false) (rev (history st)))
      (hidden (historyPlaceholder v)) (nextElement v)
  else mkView [] (shown (historyPlaceholder v)) (nextElement v).

Definition is_element (element : nat) (c : Card) : bool :=
  match c with
  | LoadingCard e _ => Nat.eqb e element
  | PictureCard _ _ => false
  end.

(** [card.remove()] *)
Definition remove_element (element : nat) (grid : list Card) : list Card :=
  filter (fun c => is_element element c = false) grid.

(** [handleFormSubmit] up to its [await], with the document: the spinner
    card goes in front and the placeholder paragraph is hidden.  The
    result is what the continuation holds: the prompt and the card. *)
Definition submit_request (sv : State * View) : option (string * nat) * (State * View) :=
  let (st, v) := sv in
  match handleFormSubmit_request st with
  | (None, st1) => (None, (st1, v))
  | (Some prompt, st1) =>
      let placeholderWallpaper :=
        mkWallpaper "temp" "" "" (selectedAspectRatio st) 0 user in
      let placeholderCard := LoadingCard (nextElement v) placeholderWallpaper in
      (Some (prompt, nextElement v),
       (st1, mkView (placeholderCard :: historyGrid v)
               (hidden (historyPlaceholder v)) (S (nextElement v))))
  end.

(** [handleFormSubmit] after its [await], with the document: the spinner
    card is removed; after a success the lists are saved and the grid is
    rendered anew, unless [saveData] throws. *)
Definition submit_resume (prompt : string) (placeholderCard : nat)
  (response : option string) (n1 n2 : Z) (sv : State * View) : State * View :=
  let (st, v) := sv in
  let imageUrl := generateWallpaper_result response in
  let v1 := mkView (remove_element placeholderCard (historyGrid v))
              (historyPlaceholder v) (nextElement v) in
  match handleFormSubmit_resume prompt imageUrl n1 n2 st with
  | Returned st' => (st', if truthy imageUrl then renderHistory st' v1 else v1)
  | Threw st' => (st', v1)
  | Untyped => (st, v1)
  end.

(** What can happen to the history grid between two [await]s. *)
Inductive ViewStep : Type :=
  | VInput (text : string)
  | VAspectRatioChange (ratio : AspectRatio)
  | VSubmitRequest
  | VSubmitResume (prompt : string) (placeholderCard : nat)
      (response : option string) (n1 n2 : Z).

Definition view_step (sv : State * View) (a : ViewStep) : State * View :=
  match a with
  | VInput text => (set_promptInput text sv.1, sv.2)
  | VAspectRatioChange ratio => (handleAspectRatioChange ratio sv.1, sv.2)
  | VSubmitRequest => (submit_request sv).2
  | VSubmitResume prompt card response n1 n2 =>
      submit_resume prompt card response n1 n2 sv
  end.

Definition view_steps (sv : State * View) (l : list ViewStep) : State * View :=
  foldl view_step sv l.

(** The same steps without the document. *)
Definition forget (a : ViewStep) : Step :=
  match a with
  | VInput text => Input text
  | VAspectRatioChange ratio => AspectRatioChange ratio
  | VSubmitRequest => SubmitRequest
  | VSubmitResume prompt _ response n1 n2 => SubmitResume prompt response n1 n2
  end.

Definition is_picture (c : Card) : bool :=
  match c with PictureCard _ _ => true | LoadingCard _ _ => false end.

(** The picture cards of the grid are those of the list [h], latest
    first (spinner cards apart). *)
Definition grid_shows (h : list Wallpaper) (v : View) : Prop :=
  filter is_picture (historyGrid v) =
    map (fun wallpaper => PictureCard wallpaper false) (rev h).

(** The grid shows the history, latest first (spinner cards apart), and
    the placeholder paragraph is displayed only over an empty grid and
    an empty history. *)
Definition grid_shows_history (sv : State * View) : Prop :=
  filter is_picture (historyGrid sv.2) =
    map (fun wallpaper => PictureCard wallpaper false) (rev (history sv.1)) /\
  (historyPlaceholder sv.2 = Some true ->
   history sv.1 = [] /\ historyGrid sv.2 = []).

(** ** Notions used in the statements *)

(** Number of [localStorage.setItem] calls so far. *)
Definition writes (st : State) : nat := length (filter is_setItem (calls st)).

(** Number of requests sent to the image service so far. *)
Definition requests (st : State) : nat :=
  length (filter is_generateImages (calls st)).

(** The value request [index e] resolves to. *)
Definition settled_value (prompts : list string) (e : Settlement)
  : option Wallpaper :=
  then_callback (default "" (prompts !! index e)) (index e)
    (generateWallpaper_result (response e)) (now1 e) (now2 e).

(** The completion of request [i], if it is among [evs]. *)
Fixpoint completion_of (evs : list Settlement) (i : nat) : option Settlement :=
  match evs with
  | [] => None
  | e :: evs' => if Nat.eqb (index e) i then Some e else completion_of evs' i
  end.

(** A slot of [Promise.all] after the completions [evs]: a value already
    stored stays, a pending slot takes the value of its request. *)
Definition fill (prompts : list string) (evs : list Settlement) (i : nat)
  (slot : option (option Wallpaper)) : option (option Wallpaper) :=
  match slot with
  | Some v => Some v
  | None => settled_value prompts <$> completion_of evs i
  end.

(** The request of the demo batch for [prompt]. *)
Definition demo_request (prompt : string) : Call :=
  generateImages (prompt +:+ ", anime style, high resolution, wallpaper")
    demoAspectRatio.

(** A request of the batch succeeded. *)
Definition succeeded (e : Settlement) : bool :=
  match response e with Some _ => true | None => false end.

(** Every request of the batch completes, and completes once. *)
Definition all_settle_once (prompts : list string) (evs : list Settlement) : Prop :=
  map index evs ≡ₚ seq 0 (length prompts).

Global Instance all_settle_once_dec prompts evs :
  Decision (all_settle_once prompts evs).
Proof. unfold all_settle_once. apply _. Defined.

(** The entities a completed batch commits, by position in the batch. *)
Definition batch_results (prompts : list string) (evs : list Settlement)
  : list Wallpaper :=
  omap (fun i => completion_of evs i ≫= settled_value prompts)
    (seq 0 (length prompts)).

(** The reading of the specification, for comparison with the code: the
    successful results in the order in which the requests completed. *)
Definition settlement_order_results (prompts : list string)
  (evs : list Settlement) : list Wallpaper :=
  omap (settled_value prompts) evs.

(** What one step appends: user entities go to [history], demo entities
    to [demoHistory], both to [allGenerations]. *)
Record Appends (st st' : State) (us ds : list Wallpaper) : Prop := {
  appends_history : history st' = history st ++ us;
  appends_demoHistory : demoHistory st' = demoHistory st ++ ds;
  appends_allGenerations : allGenerations st' = allGenerations st ++ us ++ ds;
  appends_user : Forall (fun w => source w = user) us;
  appends_demo : Forall (fun w => source w = demo) ds
}.

(** [history] and [demoHistory] are the user and the demo entities of
    [allGenerations], in the order they have there. *)
Definition consistent (st : State) : Prop :=
  history st = filter (fun w => source w = user) (allGenerations st) /\
  demoHistory st = filter (fun w => source w = demo) (allGenerations st).

(** The steps an operation consists of. *)
Definition steps_of (o : Operation) : list Step :=
  match o with
  | Submit text response n1 n2 =>
      [Input text; SubmitRequest] ++
      (if String.eqb (trim text) "" then []
       else [SubmitResume (trim text) response n1 n2])
  | SelectAspectRatio ratio => [AspectRatioChange ratio]
  | DemoBatch shuffled evs =>
      [DemosRequest shuffled; DemosResume (take demoCount shuffled) evs]
  end.

(** The text does not go on with a decimal digit. *)
Definition no_digit_ahead (rest : string) : Prop :=
  match rest with
  | String c _ => JSON.digit_value c = None
  | "" => True
  end.

(** The id of a demo entity created at clock reading [s.1] for the request
    at position [s.2] of its batch. *)
Definition demo_id (s : Z * nat) : string :=
  "demo-" +:+ Number_toString s.1 +:+ "-" +:+ Number_toString (Z.of_nat s.2).

(** The clock readings that become ids of user entities in a step. *)
Definition submit_clock (a : Step) : list Z :=
  match a with
  | SubmitResume _ (Some _) n1 _ => [n1]
  | _ => []
  end.

(** The clock readings and batch positions that become ids of demo
    entities in a step. *)
Definition demo_clock (a : Step) : list (Z * nat) :=
  match a with
  | DemosResume prompts evs =>
      match Promise_all prompts evs with
      | Some _ =>
          omap (fun i => e ← completion_of evs i;
                         if succeeded e then Some (now1 e, i) else None)
            (seq 0 (length prompts))
      | None => []
      end
  | _ => []
  end.

(** What [if (saved)] rejects: [null] and the empty string. *)
Definition falsy (saved : option string) : Prop :=
  saved = None \/ saved = Some "".

(** A stored text on which [JSON.parse] throws. *)
Definition unparsable (text : string) : Prop :=
  text <> "" /\ JSON.parse text = JSON.SyntaxError.

(** A browser that lets every write through. *)
Definition unlimited : gmap string string -> string -> string -> bool :=
  fun _ _ _ => true.

(** The code units a store holds, keys and values. *)
Definition usage (store : gmap string string) : nat :=
  map_fold (fun key value n => String.length key + String.length value + n)
    0 store.

(** A browser that gives the origin room for [n] code units. *)
Definition capacity (n : nat) : gmap string string -> string -> string -> bool :=
  fun store key value => Nat.leb (usage (<[key := value]> store)) n.

(** The three calls of a [saveData] that returns, and the store it
    leaves. *)
Definition saved_calls (st : State) : list Call :=
  [ setItem "userHistory" (JSON.stringify (Wallpapers_toJSON (history st)));
    setItem "demoHistory" (JSON.stringify (Wallpapers_toJSON (demoHistory st)));
    setItem "allGenerations"
      (JSON.stringify (Wallpapers_toJSON (allGenerations st))) ].

Definition saved_store (st : State) : gmap string string :=
  <["allGenerations" := JSON.stringify (Wallpapers_toJSON (allGenerations st))]>
    (<["demoHistory" := JSON.stringify (Wallpapers_toJSON (demoHistory st))]>
       (<["userHistory" := JSON.stringify (Wallpapers_toJSON (history st))]>
          (localStorage st))).

(** [st'] has the variables of [st]: the two differ at most in the store
    and in the log of calls. *)
Definition same_variables (st st' : State) : Prop :=
  history st' = history st /\
  demoHistory st' = demoHistory st /\
  allGenerations st' = allGenerations st /\
  demoPrompts st' = demoPrompts st /\
  selectedAspectRatio st' = selectedAspectRatio st /\
  promptInput st' = promptInput st /\
  dataTheme st' = dataTheme st /\
  quota st' = quota st.

(** The image reference is the data URL [generateWallpaper] builds. *)
Definition is_data_url (w : Wallpaper) : Prop :=
  exists base64Image, imageUrl w = "data:image/jpeg;base64," +:+ base64Image.

(** The request [generateWallpaper] sends for [prompt]. *)
Definition styled (prompt : string) : string :=
  prompt +:+ ", anime style, high resolution, wallpaper".

(** [trimStart] and [trim] on the list of code units. *)
Fixpoint trimStart_chars (l : list ascii) : list ascii :=
  match l with
  | c :: l' => if isWhiteSpace c then trimStart_chars l' else l
  | [] => []
  end.

Definition trim_chars (l : list ascii) : list ascii :=
  rev (trimStart_chars (rev (trimStart_chars l))).

(** The state after an [applyTheme theme] that returned. *)
Definition themed (theme : string) (st : State) : State :=
  set_localStorage (<["theme" := theme]> (localStorage st))
    (log_call (setItem "theme" theme) (set_dataTheme (Some theme) st)).

(** A prompt as [handleFormSubmit] hands it to its continuation: not
    empty, and without white space at either end. *)
Definition trimmed (p : string) : Prop := p <> "" /\ trim p = p.

(** Every answer of the run goes to a submit that sent its request
    earlier in the run, or whose request was out when the run started
    ([pending] holds the prompts of those). *)
Fixpoint answers_follow_requests (pending : list string) (st : State)
  (l : list Step) : Prop :=
  match l with
  | [] => True
  | a :: l' =>
      match a with
      | SubmitRequest =>
          answers_follow_requests
            (match (handleFormSubmit_request st).1 with
             | Some p => p :: pending
             | None => pending
             end)
            (step st a) l'
      | SubmitResume p _ _ _ =>
          p ∈ pending /\ answers_follow_requests pending (step st a) l'
      | _ => answers_follow_requests pending (step st a) l'
      end
  end.

(** The store of [st] is the one a new session in the same browser would
    load the lists of [st] from. *)
Definition restorable (st : State) : Prop :=
  exists st',
    loadData (initial_state (quota st) (localStorage st)) = Returned st' /\
    history st' = history st /\
    demoHistory st' = demoHistory st /\
    allGenerations st' = allGenerations st.

(** * Properties *)

(** ** What [setItem] and [saveData] touch *)

Lemma same_variables_refl st : same_variables st st.
Proof. by repeat split. Qed.

Lemma same_variables_trans st1 st2 st3 :
  same_variables st1 st2 -> same_variables st2 st3 -> same_variables st1 st3.
Proof.
  unfold same_variables.
  intros (?&?&?&?&?&?&?&?) (?&?&?&?&?&?&?&?). repeat split; congruence.
Qed.

(** [setItem] either stores the value and returns, or throws and leaves
    the store alone; it never touches a variable. *)
Lemma localStorage_setItem_ends key value st :
  exists st',
    (localStorage_setItem key value st = Returned st' /\
     quota st (localStorage st) key value = true /\
     localStorage st' = <[key := value]> (localStorage st)
     \/
     localStorage_setItem key value st = Threw st' /\
     quota st (localStorage st) key value = false /\
     localStorage st' = localStorage st) /\
    same_variables st st' /\
    calls st' = calls st ++ [setItem key value].
Proof.
  unfold localStorage_setItem.
  destruct (quota st (localStorage st) key value); eexists.
  - split; [left; done|]. by repeat split.
  - split; [right; done|]. by repeat split.
Qed.

Lemma saveData_Returned st st' :
  saveData st = Returned st' ->
  same_variables st st' /\
  localStorage st' = saved_store st /\
  calls st' = calls st ++ saved_calls st.
Proof.
  unfold saveData, saved_store, saved_calls.
  destruct (localStorage_setItem_ends "userHistory"
              (JSON.stringify (Wallpapers_toJSON (history st))) st)
    as (st1 & [(-> & _ & S1)|(-> & _)] & V1 & C1); [|done].
  cbn [and_then].
  destruct (localStorage_setItem_ends "demoHistory"
              (JSON.stringify (Wallpapers_toJSON (demoHistory st1))) st1)
    as (st2 & [(-> & _ & S2)|(-> & _)] & V2 & C2); [|done].
  cbn [and_then].
  destruct (localStorage_setItem_ends "allGenerations"
              (JSON.stringify (Wallpapers_toJSON (allGenerations st2))) st2)
    as (st3 & [(-> & _ & S3)|(-> & _)] & V3 & C3); [|done].
  intros [= <-].
  pose proof (same_variables_trans _ _ _ V1 V2) as V12.
  split; [by eapply same_variables_trans|].
  destruct V1 as (_ & Hd1 & _), V12 as (_ & _ & Ha2 & _).
  rewrite S3, S2, S1, C3, C2, C1, Hd1, Ha2, <- !app_assoc. done.
Qed.

(** However [saveData] ends, the variables are untouched and the calls
    it made are the first one, two or three of its [setItem] calls. *)
Lemma saveData_ends st :
  exists st',
    (saveData st = Returned st' \/ saveData st = Threw st') /\
    same_variables st st' /\
    exists written,
      calls st' = calls st ++ written /\
      written `prefix_of` saved_calls st /\
      written <> [].
Proof.
  unfold saveData, saved_calls.
  destruct (localStorage_setItem_ends "userHistory"
              (JSON.stringify (Wallpapers_toJSON (history st))) st)
    as (st1 & [(-> & _)|(-> & _)] & V1 & C1); cbn [and_then].
  2:{ exists st1. split; [by right|]. split; [done|].
      eexists. split; [exact C1|]. split; [|done]. by eexists [_; _]. }
  destruct (localStorage_setItem_ends "demoHistory"
              (JSON.stringify (Wallpapers_toJSON (demoHistory st1))) st1)
    as (st2 & [(-> & _)|(-> & _)] & V2 & C2); cbn [and_then].
  2:{ exists st2. split; [by right|].
      split; [by eapply same_variables_trans|].
      destruct V1 as (_ & Hd1 & _).
      eexists. rewrite C2, C1, Hd1, <- app_assoc.
      split; [reflexivity|]. split; [|done]. by eexists [_]. }
  pose proof (same_variables_trans _ _ _ V1 V2) as V12.
  destruct (localStorage_setItem_ends "allGenerations"
              (JSON.stringify (Wallpapers_toJSON (allGenerations st2))) st2)
    as (st3 & Hend & V3 & C3).
  exists st3.
  split; [destruct Hend as [(-> & _)|(-> & _)]; [by left|by right]|].
  split; [by eapply same_variables_trans|].
  destruct V1 as (_ & Hd1 & _), V12 as (_ & _ & Ha2 & _).
  eexists. rewrite C3, C2, C1, Hd1, Ha2, <- !app_assoc.
  split; [reflexivity|]. split; [|done]. by eexists [].
Qed.

(** In a browser that accepts the three writes, [saveData] returns. *)
Lemma saveData_returns st :
  (forall store key value, quota st store key value = true) ->
  exists st', saveData st = Returned st'.
Proof.
  intros Hq. unfold saveData, localStorage_setItem.
  rewrite Hq. cbn [and_then quota set_localStorage log_call localStorage].
  rewrite Hq. cbn [and_then quota set_localStorage log_call localStorage].
  rewrite Hq. eauto.
Qed.

Global Opaque saveData.

Lemma saved_calls_are_writes st : filter is_setItem (saved_calls st) = saved_calls st.
Proof. reflexivity. Qed.

Lemma prefix_of_writes (written l : list Call) :
  written `prefix_of` l -> filter is_setItem l = l ->
  filter is_setItem written = written /\
  filter is_generateImages written = [].
Proof.
  intros [k ->] Hl. rewrite filter_app in Hl.
  assert (Hlen : length (filter is_setItem written) = length written).
  { apply (f_equal length) in Hl. rewrite !length_app in Hl.
    pose proof (length_filter is_setItem written).
    pose proof (length_filter is_setItem k). lia. }
  clear Hl. induction written as [|c written IH]; [done|].
  destruct c as [p r|key value].
  - rewrite filter_cons_False in Hlen by (cbn; tauto).
    pose proof (length_filter is_setItem written). cbn in Hlen. lia.
  - rewrite filter_cons_True in Hlen |- * by done.
    rewrite filter_cons_False by (cbn; tauto).
    cbn in Hlen. destruct IH as [-> ->]; [lia|done].
Qed.

(** However [saveData] ends, it has made between one and three writes
    and no request; three when it returned. *)
Lemma writes_saveData st :
  exists st',
    (saveData st = Returned st' \/ saveData st = Threw st') /\
    same_variables st st' /\
    writes st < writes st' <= writes st + 3 /\
    requests st' = requests st /\
    (saveData st = Returned st' -> writes st' = writes st + 3).
Proof.
  destruct (saveData_ends st) as (st' & Hend & V & written & Hc & Hp & Hne).
  exists st'. split; [exact Hend|]. split; [exact V|].
  destruct (prefix_of_writes _ _ Hp (saved_calls_are_writes st)) as [Hw Hr].
  unfold writes, requests. rewrite Hc, !filter_app, !length_app, Hw, Hr.
  pose proof (prefix_length _ _ Hp) as Hlen. cbn [saved_calls length] in Hlen.
  split; [|split; [cbn; lia|]].
  - destruct written; [done|]. cbn [length] in *. lia.
  - intros Hret. apply saveData_Returned in Hret as (_ & _ & Hc').
    rewrite Hc in Hc'. apply app_inv_head in Hc'. by rewrite Hc'.
Qed.

(** ** Trimming *)

Lemma trimStart_whitespace s :
  Forall (fun c => isWhiteSpace c = true) (list_ascii_of_string s) ->
  trimStart s = "".
Proof.
  induction s as [|c s IH]; simpl; [done|].
  intros H. apply Forall_cons in H as [Hc Hs]. rewrite Hc. auto.
Qed.

Lemma trim_whitespace s :
  Forall (fun c => isWhiteSpace c = true) (list_ascii_of_string s) ->
  trim s = "".
Proof. intros H. unfold trim. by rewrite (trimStart_whitespace s H). Qed.

(** ** The result of [generateWallpaper] *)

Lemma truthy_generateWallpaper_result response :
  truthy (generateWallpaper_result response) = bool_decide (is_Some response).
Proof. destruct response as [b|]; reflexivity. Qed.

(** ** Submitting *)

Lemma handleFormSubmit_empty response n1 n2 st :
  trim (promptInput st) = "" -> handleFormSubmit response n1 n2 st = st.
Proof.
  intros H. unfold handleFormSubmit, handleFormSubmit_request. by rewrite H.
Qed.

Lemma handleFormSubmit_request_nonempty st :
  trim (promptInput st) <> "" ->
  handleFormSubmit_request st =
  (Some (trim (promptInput st)),
   request_image (trim (promptInput st)) (selectedAspectRatio st) st).
Proof.
  intros H. unfold handleFormSubmit_request.
  destruct (String.eqb_spec (trim (promptInput st)) ""); [done|reflexivity].
Qed.

(** C6: when the prompt is empty after trimming (an empty or
    white-space-only text), [handleFormSubmit] returns at once: no request
    is sent and the state afterwards is the state before, so the three
    lists, the selected aspect ratio and the store are unchanged and
    nothing was written. *)
Theorem C6_blank_prompt_is_noop response n1 n2 st :
  trim (promptInput st) = "" ->
  handleFormSubmit_request st = (None, st) /\
  handleFormSubmit response n1 n2 st = st /\
  requests (handleFormSubmit response n1 n2 st) = requests st /\
  writes (handleFormSubmit response n1 n2 st) = writes st.
Proof.
  intros Ht. rewrite (handleFormSubmit_empty _ _ _ _ Ht).
  unfold handleFormSubmit_request. rewrite Ht. done.
Qed.

Lemma C6_blank_prompt_witness :
  let st := set_promptInput "  	 " (initial_state unlimited ∅) in
  trim (promptInput st) = "" /\
  handleFormSubmit (Some "AAAA") 5 5 st = st.
Proof.
  intros st. split; [reflexivity|].
  apply (C6_blank_prompt_is_noop (Some "AAAA") 5 5 st). reflexivity.
Defined.

Lemma writes_request_image p r st : writes (request_image p r st) = writes st.
Proof.
  unfold writes, request_image. cbn [calls log_call].
  rewrite filter_app, length_app. simpl. lia.
Qed.

Lemma requests_request_image p r st :
  requests (request_image p r st) = S (requests st).
Proof.
  unfold requests, request_image. cbn [calls log_call].
  rewrite filter_app, length_app. simpl. lia.
Qed.

(** The continuation of a submit, after a success and after a failure. *)
Lemma handleFormSubmit_resume_success p bytes n1 n2 st :
  let w := mkWallpaper (Number_toString n1) p
             ("data:image/jpeg;base64," +:+ bytes) (selectedAspectRatio st) n2
             user in
  handleFormSubmit_resume p (generateWallpaper_result (Some bytes)) n1 n2 st =
  and_then
    (saveData
       (set_allGenerations (allGenerations st ++ [w])
          (set_history (history st ++ [w]) st)))
    (fun st3 => Returned (set_promptInput "" st3)).
Proof. reflexivity. Qed.

Lemma handleFormSubmit_resume_failure p n1 n2 st :
  handleFormSubmit_resume p (generateWallpaper_result None) n1 n2 st =
  Returned st.
Proof. reflexivity. Qed.

(** However the continuation ends after a success, the entity is in the
    two lists; the prompt input is cleared only when [saveData]
    returned. *)
Lemma handleFormSubmit_resume_ends p bytes n1 n2 st :
  let w := mkWallpaper (Number_toString n1) p
             ("data:image/jpeg;base64," +:+ bytes) (selectedAspectRatio st) n2
             user in
  let pushed :=
    set_allGenerations (allGenerations st ++ [w])
      (set_history (history st ++ [w]) st) in
  exists st',
    (handleFormSubmit_resume p (generateWallpaper_result (Some bytes)) n1 n2 st
       = Returned st' /\
     promptInput st' = "" /\
     localStorage st' = saved_store pushed /\
     calls st' = calls st ++ saved_calls pushed
     \/
     handleFormSubmit_resume p (generateWallpaper_result (Some bytes)) n1 n2 st
       = Threw st' /\
     promptInput st' = promptInput st) /\
    history st' = history st ++ [w] /\
    allGenerations st' = allGenerations st ++ [w] /\
    demoHistory st' = demoHistory st /\
    demoPrompts st' = demoPrompts st /\
    selectedAspectRatio st' = selectedAspectRatio st /\
    dataTheme st' = dataTheme st /\
    quota st' = quota st /\
    writes st < writes st' <= writes st + 3 /\
    requests st' = requests st /\
    filter is_generateImages (calls st') = filter is_generateImages (calls st).
Proof.
  intros w pushed. rewrite handleFormSubmit_resume_success. fold w pushed.
  destruct (saveData_ends pushed)
    as (st3 & Hend & V & written & Hc & Hp & _).
  destruct (writes_saveData pushed)
    as (st3' & Hend' & _ & Hw & Hr & _).
  assert (st3' = st3) as ->
    by (destruct Hend as [H|H], Hend' as [H'|H']; congruence).
  destruct (prefix_of_writes _ _ Hp (saved_calls_are_writes pushed)) as [_ Hg].
  destruct V as (Vh & Vd & Va & Vp & Vr & Vi & Vt & Vq).
  destruct Hend as [Hret|Hthrow].
  - exists (set_promptInput "" st3). rewrite Hret. cbn [and_then].
    apply saveData_Returned in Hret as (_ & Hs & Hc').
    split; [left; done|].
    cbn [history allGenerations demoHistory demoPrompts selectedAspectRatio
         dataTheme quota calls set_promptInput].
    rewrite Vh, Va, Vd, Vp, Vr, Vt, Vq.
    do 7 (split; [done|]). split; [exact Hw|]. split; [exact Hr|].
    rewrite Hc, filter_app, Hg, app_nil_r. done.
  - exists st3. rewrite Hthrow. cbn [and_then].
    split; [right; split; [done|by rewrite Vi]|].
    rewrite Vh, Va, Vd, Vp, Vr, Vt, Vq.
    do 7 (split; [done|]). split; [exact Hw|]. split; [exact Hr|].
    rewrite Hc, filter_app, Hg, app_nil_r. done.
Qed.

(** C5: a submit with a prompt that is not empty after trimming sends one
    request, for the trimmed prompt and the ratio selected at that
    moment.  Whatever happens while the request is out, a successful
    answer appends one and the same entity to [history] and to
    [allGenerations], with source [user] and the trimmed prompt, and
    leaves [demoHistory] alone; a failure changes nothing and writes
    nothing.  The entity does not record the ratio the image was
    requested with: its [aspectRatio] is the ratio selected when the
    answer arrives. *)
Theorem C5_submit_commits_one_or_nothing st l n1 n2 :
  trim (promptInput st) <> "" ->
  let p := trim (promptInput st) in
  let st1 := (handleFormSubmit_request st).2 in
  let st2 := steps st1 l in
  (handleFormSubmit_request st).1 = Some p /\
  calls st1 = calls st ++ [generateImages (styled p) (selectedAspectRatio st)] /\
  (forall bytes,
     let st3 := step st2 (SubmitResume p (Some bytes) n1 n2) in
     exists w,
       history st3 = history st2 ++ [w] /\
       allGenerations st3 = allGenerations st2 ++ [w] /\
       demoHistory st3 = demoHistory st2 /\
       source w = user /\
       prompt w = p /\
       imageUrl w <> "" /\
       aspectRatio w = selectedAspectRatio st2) /\
  step st2 (SubmitResume p None n1 n2) = st2.
Proof.
  intros H p st1 st2. subst st1.
  rewrite (handleFormSubmit_request_nonempty st H) in *. cbn [fst snd] in *.
  split; [done|]. split; [done|]. split; [|done].
  intros bytes. unfold step. cbn [handle].
  destruct (handleFormSubmit_resume_ends p bytes n1 n2 st2)
    as (st' & Hend & Hh & Ha & Hd & _).
  assert (state_after st2
            (handleFormSubmit_resume p
               (generateWallpaper_result (Some bytes)) n1 n2 st2) = st') as ->
    by (destruct Hend as [(-> & _)|(-> & _)]; reflexivity).
  eexists. split; [exact Hh|]. split; [exact Ha|]. split; [exact Hd|]. done.
Qed.

(** C5 on a run the page allows: the ratio 1:1 is
    selected when the form is submitted, the user selects 16:9 while the
    request is out, and the request succeeds.  The image was requested
    with 1:1; the one entity committed says 16:9. *)
Lemma C5_submit_witness :
  let st := set_selectedAspectRatio R1_1
              (set_promptInput " Cute anime girl with cherry blossoms "
                 (initial_state unlimited ∅)) in
  let st2 := steps (handleFormSubmit_request st).2 [AspectRatioChange R16_9] in
  let st3 :=
    step st2
      (SubmitResume "Cute anime girl with cherry blossoms" (Some "AAAA")
         1700000000000 1700000000001) in
  trim (promptInput st) <> "" /\
  calls st2 =
    [generateImages (styled "Cute anime girl with cherry blossoms") R1_1] /\
  aspectRatio <$> history st3 = [R16_9] /\
  aspectRatio <$> allGenerations st3 = [R16_9].
Proof.
  intros st st2 st3.
  assert (Hne : trim (promptInput st) <> "") by (vm_compute; discriminate).
  destruct (C5_submit_commits_one_or_nothing st [AspectRatioChange R16_9]
              1700000000000 1700000000001 Hne) as (_ & Hreq & Hok & _).
  split; [exact Hne|]. split; [exact Hreq|].
  destruct (Hok "AAAA") as (w & Hh & Ha & _ & _ & _ & _ & Hr).
  assert (Hp : trim (promptInput st) = "Cute anime girl with cherry blossoms")
    by (vm_compute; reflexivity).
  rewrite Hp in Hh, Ha. subst st3 st2.
  rewrite Hh, Ha, !fmap_app. cbn [fmap list_fmap]. rewrite Hr.
  split; reflexivity.
Defined.

(** The same run, step by step. *)
Example ratio_is_read_at_commit :
  let st :=
    steps (initial_state unlimited ∅)
      [ Input "Fantasy knight with a glowing sword"; SubmitRequest;
        AspectRatioChange R16_9;
        SubmitResume "Fantasy knight with a glowing sword" (Some "AAAA")
          1700000000000 1700000000000 ] in
  filter is_generateImages (calls st) =
    [ generateImages
        "Fantasy knight with a glowing sword, anime style, high resolution, wallpaper"
        R9_16 ] /\
  aspectRatio <$> history st = [R16_9].
Proof. split; vm_compute; reflexivity. Qed.

(** ** [Promise.all] over the demo requests *)

Section PromiseAll.
Variable prompts : list string.

Lemma Promise_settle_length slots e :
  length (Promise_settle prompts slots e) = length slots.
Proof.
  unfold Promise_settle.
  destruct (prompts !! index e); [|done].
  destruct (slots !! index e) as [[?|]|]; [done| |done].
  apply length_insert.
Qed.

Lemma foldl_Promise_settle evs : forall slots,
  length slots = length prompts ->
  foldl (Promise_settle prompts) slots evs = imap (fill prompts evs) slots.
Proof.
  induction evs as [|e evs IH]; intros slots Hlen.
  - cbn [foldl]. apply list_eq. intros i. rewrite list_lookup_imap.
    destruct (slots !! i) as [[?|]|]; reflexivity.
  - cbn [foldl]. rewrite IH by (by rewrite Promise_settle_length).
    apply list_eq. intros i. rewrite !list_lookup_imap.
    unfold Promise_settle, settled_value.
    destruct (prompts !! index e) as [p|] eqn:Hp.
    + destruct (slots !! index e) as [[v|]|] eqn:Hs.
      * destruct (slots !! i) as [[?|]|] eqn:Hi; try reflexivity.
        cbn. destruct (Nat.eqb_spec (index e) i); [congruence|reflexivity].
      * destruct (decide (i = index e)) as [->|Hne].
        -- rewrite list_lookup_insert_eq
             by (apply lookup_lt_is_Some; eauto).
           rewrite Hs. cbn. rewrite Nat.eqb_refl. cbn.
           unfold settled_value. by rewrite Hp.
        -- rewrite list_lookup_insert_ne by done.
           destruct (slots !! i) as [[?|]|] eqn:Hi; try reflexivity.
           cbn. destruct (Nat.eqb_spec (index e) i); [congruence|reflexivity].
      * destruct (slots !! i) as [[?|]|] eqn:Hi; try reflexivity.
        cbn. destruct (Nat.eqb_spec (index e) i); [congruence|reflexivity].
    + destruct (slots !! i) as [[?|]|] eqn:Hi; try reflexivity.
      unfold fill. cbn. destruct (Nat.eqb_spec (index e) i) as [<-|]; [|reflexivity].
      apply lookup_lt_Some in Hi. apply lookup_ge_None in Hp. lia.
Qed.

(** The slots after the completions [evs], by position. *)
Lemma Promise_all_slots evs :
  foldl (Promise_settle prompts) (replicate (length prompts) None) evs =
  (fun i => settled_value prompts <$> completion_of evs i)
    <$> seq 0 (length prompts).
Proof.
  rewrite foldl_Promise_settle by apply length_replicate.
  apply list_eq. intros i. rewrite list_lookup_imap, list_lookup_fmap.
  destruct (decide (i < length prompts)) as [Hlt|Hge].
  - rewrite lookup_replicate_2 by done. rewrite lookup_seq_lt by done.
    reflexivity.
  - rewrite (proj1 (lookup_replicate_None _ _ _)), lookup_seq_ge by lia.
    reflexivity.
Qed.

Lemma Promise_all_unfold evs :
  Promise_all prompts evs =
  mapM (fun i => settled_value prompts <$> completion_of evs i)
    (seq 0 (length prompts)).
Proof.
  unfold Promise_all. rewrite Promise_all_slots.
  generalize (seq 0 (length prompts)). intros l.
  induction l as [|i l IH]; [reflexivity|].
  cbn. rewrite <- IH. reflexivity.
Qed.

End PromiseAll.

(** ** The demo batch *)

Lemma foldl_push_demo results : forall st,
  let st' := foldl push_demo st results in
  history st' = history st /\
  demoHistory st' = demoHistory st ++ results /\
  allGenerations st' = allGenerations st ++ results /\
  demoPrompts st' = demoPrompts st /\
  selectedAspectRatio st' = selectedAspectRatio st /\
  promptInput st' = promptInput st /\
  localStorage st' = localStorage st /\
  calls st' = calls st.
Proof.
  induction results as [|w results IH]; intros st; cbn [foldl].
  - by rewrite !app_nil_r.
  - destruct (IH (push_demo st w)) as (-> & -> & -> & -> & -> & -> & -> & ->).
    cbn. by rewrite <- !app_assoc.
Qed.

Lemma foldl_push_demo_frame results : forall st,
  let st' := foldl push_demo st results in
  dataTheme st' = dataTheme st /\ quota st' = quota st.
Proof.
  induction results as [|w results IH]; intros st; cbn [foldl]; [done|].
  destruct (IH (push_demo st w)) as (-> & ->). done.
Qed.

(** The continuation of a batch: however it ends, the results are in the
    two lists; it writes when there is a result, and only then. *)
Lemma generateLiveDemos_resume_ends values st :
  let results := omap (fun v => v) values in
  exists st',
    (generateLiveDemos_resume values st = Returned st' \/
     generateLiveDemos_resume values st = Threw st') /\
    history st' = history st /\
    demoHistory st' = demoHistory st ++ results /\
    allGenerations st' = allGenerations st ++ results /\
    selectedAspectRatio st' = selectedAspectRatio st /\
    demoPrompts st' = demoPrompts st /\
    promptInput st' = promptInput st /\
    dataTheme st' = dataTheme st /\
    quota st' = quota st /\
    (writes st' <> writes st <-> 0 < length results) /\
    writes st' <= writes st + 3 /\
    requests st' = requests st /\
    (generateLiveDemos_resume values st = Returned st' ->
     writes st' = writes st + (if Nat.ltb 0 (length results) then 3 else 0)) /\
    (length results = 0 ->
     generateLiveDemos_resume values st = Returned st /\ st' = st).
Proof.
  intros results. unfold generateLiveDemos_resume. fold results.
  destruct (foldl_push_demo results st)
    as (Hh & Hd & Ha & Hp & Hr & Hi & Hs & Hc).
  destruct (foldl_push_demo_frame results st) as (Ht & Hq).
  destruct (Nat.ltb_spec 0 (length results)) as [Hpos|Hzero].
  - destruct (writes_saveData (foldl push_demo st results))
      as (st' & Hend & V & Hw & Hreq & Hret).
    destruct V as (Vh & Vd & Va & Vp & Vr & Vi & Vt & Vq).
    exists st'. split; [exact Hend|].
    rewrite Vh, Vd, Va, Vp, Vr, Vi, Vt, Vq.
    unfold writes, requests in *. rewrite Hc in Hw, Hreq, Hret.
    do 8 (split; [done|]).
    split; [split; [done|lia]|]. split; [lia|]. split; [done|].
    split; [done|lia].
  - exists (foldl push_demo st results). split; [by left|].
    unfold writes, requests. rewrite Hc.
    do 8 (split; [done|]).
    split; [split; [done|lia]|]. split; [lia|]. split; [done|].
    split; [intros _; lia|].
    intros _. destruct results; [done|cbn in Hzero; lia].
Qed.

Lemma generateLiveDemos_resume_lists values st :
  let st' := state_after st (generateLiveDemos_resume values st) in
  let results := omap (fun v => v) values in
  history st' = history st /\
  demoHistory st' = demoHistory st ++ results /\
  allGenerations st' = allGenerations st ++ results /\
  selectedAspectRatio st' = selectedAspectRatio st /\
  (writes st' <> writes st <-> 0 < length results) /\
  writes st' <= writes st + 3 /\
  (returned (generateLiveDemos_resume values st) = true ->
   writes st' = writes st + (if Nat.ltb 0 (length results) then 3 else 0)).
Proof.
  intros st' results. subst st'.
  destruct (generateLiveDemos_resume_ends values st)
    as (st' & Hend & Hh & Hd & Ha & Hr & _ & _ & _ & _ & Hiff & Hle & _ & Hret & _).
  fold results in Hd, Ha, Hiff, Hret.
  destruct Hend as [He|He]; rewrite He in *; cbn [state_after returned];
    do 4 (split; [done|]); (split; [exact Hiff|]); (split; [exact Hle|]).
  - intros _. by apply Hret.
  - done.
Qed.

Lemma foldl_request_image prompts : forall st,
  let st' := foldl (fun s p => request_image p demoAspectRatio s) st prompts in
  history st' = history st /\
  demoHistory st' = demoHistory st /\
  allGenerations st' = allGenerations st /\
  demoPrompts st' = demoPrompts st /\
  selectedAspectRatio st' = selectedAspectRatio st /\
  promptInput st' = promptInput st /\
  localStorage st' = localStorage st /\
  calls st' = calls st ++ map demo_request prompts.
Proof.
  induction prompts as [|p prompts IH]; intros st; cbn [foldl].
  - by rewrite app_nil_r.
  - destruct (IH (request_image p demoAspectRatio st))
      as (-> & -> & -> & -> & -> & -> & -> & ->).
    cbn. by rewrite <- !app_assoc.
Qed.

Lemma foldl_request_image_frame prompts : forall st,
  let st' := foldl (fun s p => request_image p demoAspectRatio s) st prompts in
  dataTheme st' = dataTheme st /\ quota st' = quota st.
Proof.
  induction prompts as [|p prompts IH]; intros st; cbn [foldl]; [done|].
  destruct (IH (request_image p demoAspectRatio st)) as (-> & ->). done.
Qed.

Lemma writes_requests_sent prompts st :
  writes (foldl (fun s p => request_image p demoAspectRatio s) st prompts) =
  writes st.
Proof.
  destruct (foldl_request_image prompts st) as (_ & _ & _ & _ & _ & _ & _ & Hc).
  unfold writes. rewrite Hc, filter_app, length_app.
  assert (filter is_setItem (map demo_request prompts) = []) as ->; [|simpl; lia].
  clear. induction prompts as [|p prompts IH]; [reflexivity|].
  cbn [map]. rewrite filter_cons_False; [exact IH|]. cbn. tauto.
Qed.

Lemma settled_value_succeeded prompts e :
  is_Some (settled_value prompts e) <-> succeeded e = true.
Proof.
  unfold settled_value, succeeded. destruct (response e) as [b|]; cbn.
  - split; [done|]. intros _. eauto.
  - split; [intros [? ?]; done|done].
Qed.

Lemma length_omap_settled_value prompts evs :
  length (omap (settled_value prompts) evs) = length (filter succeeded evs).
Proof.
  induction evs as [|e evs IH]; [reflexivity|].
  pose proof (settled_value_succeeded prompts e) as He.
  change (omap (settled_value prompts) (e :: evs)) with
    (match settled_value prompts e with
     | Some w => w :: omap (settled_value prompts) evs
     | None => omap (settled_value prompts) evs
     end).
  destruct (settled_value prompts e) as [w|].
  - rewrite filter_cons_True by (apply Is_true_true, He; eauto).
    cbn [length]. by rewrite IH.
  - rewrite filter_cons_False; [done|].
    intros Hs%Is_true_true. apply He in Hs as [? ?]. done.
Qed.

Lemma completion_of_NoDup evs e :
  NoDup (map index evs) -> e ∈ evs -> completion_of evs (index e) = Some e.
Proof.
  induction evs as [|e' evs IH]; intros Hnd Hin.
  - by apply elem_of_nil in Hin.
  - cbn in *. apply NoDup_cons in Hnd as [Hnotin Hnd].
    apply elem_of_cons in Hin as [->|Hin].
    + by rewrite Nat.eqb_refl.
    + destruct (Nat.eqb_spec (index e') (index e)) as [Heq|_]; [|auto].
      exfalso. apply Hnotin. rewrite Heq. by apply list_elem_of_fmap_2.
Qed.

Lemma completions_permutation prompts evs :
  all_settle_once prompts evs ->
  completion_of evs <$> seq 0 (length prompts) ≡ₚ Some <$> evs.
Proof.
  intros Hp. unfold all_settle_once in Hp.
  assert (Hnd : NoDup (map index evs)).
  { rewrite Hp. apply NoDup_seq. }
  rewrite <- Hp. change (map index evs) with (index <$> evs).
  rewrite <- list_fmap_compose.
  erewrite (list_fmap_ext _ Some evs); [reflexivity|].
  intros i e Hi. cbn. apply completion_of_NoDup; [done|].
  eapply list_elem_of_lookup_2; eauto.
Qed.

Lemma Promise_all_settled prompts evs :
  all_settle_once prompts evs ->
  exists values,
    Promise_all prompts evs = Some values /\
    (fun i => settled_value prompts <$> completion_of evs i)
      <$> seq 0 (length prompts) = Some <$> values /\
    values ≡ₚ settled_value prompts <$> evs.
Proof.
  intros Hp. rewrite Promise_all_unfold.
  pose proof (completions_permutation prompts evs Hp) as Hc.
  destruct (mapM (fun i => settled_value prompts <$> completion_of evs i)
              (seq 0 (length prompts))) as [values|] eqn:Hm.
  - exists values. split; [done|].
    apply mapM_Some_1 in Hm.
    assert (Heq : (fun i => settled_value prompts <$> completion_of evs i)
                    <$> seq 0 (length prompts) = Some <$> values).
    { clear -Hm. induction Hm as [|i v l k Hiv _ IH]; [done|].
      cbn. by rewrite Hiv, IH. }
    split; [done|].
    assert (Hv : omap (fun v => v) (Some <$> values) = values).
    { clear. induction values as [|v values IH]; [done|]. cbn. by rewrite IH. }
    rewrite <- Hv, <- Heq.
    assert ((fun i => settled_value prompts <$> completion_of evs i)
              <$> seq 0 (length prompts) =
            fmap (settled_value prompts)
              <$> (completion_of evs <$> seq 0 (length prompts))) as ->
      by (by rewrite <- list_fmap_compose).
    rewrite Hc. rewrite <- list_fmap_compose.
    clear. induction evs as [|e evs IH]; [done|]. cbn. by rewrite IH.
  - exfalso. apply mapM_None_1, Exists_exists in Hm as (i & Hi & Hnone).
    assert (Hin : completion_of evs i ∈ completion_of evs <$> seq 0 (length prompts))
      by (by apply list_elem_of_fmap_2).
    rewrite Hc in Hin. apply list_elem_of_fmap in Hin as (e & He & _).
    rewrite He in Hnone. done.
Qed.

Lemma generateLiveDemos_unfold shuffled evs st :
  generateLiveDemos shuffled evs st =
  let prompts := take demoCount shuffled in
  let st1 := foldl (fun s p => request_image p demoAspectRatio s) st prompts in
  match Promise_all prompts evs with
  | Some values => state_after st1 (generateLiveDemos_resume values st1)
  | None => st1
  end.
Proof. reflexivity. Qed.

(** C7: in a demo batch over N prompts in which every request completes
    and K of them succeed, [demoHistory] and [allGenerations] each grow by
    exactly K entities, [history] is untouched, and the batch writes to
    the store if and only if K > 0: one [saveData], which makes its three
    [setItem] calls when the browser accepts them, and fewer when one of
    them is refused. *)
Theorem C7_demo_batch_grows_by_successes shuffled evs st :
  let prompts := take demoCount shuffled in
  let N := length prompts in
  let K := length (filter succeeded evs) in
  let st' := generateLiveDemos shuffled evs st in
  all_settle_once prompts evs ->
  K <= N /\
  length (demoHistory st') = length (demoHistory st) + K /\
  length (allGenerations st') = length (allGenerations st) + K /\
  history st' = history st /\
  (writes st' <> writes st <-> 0 < K) /\
  writes st' <= writes st + 3 /\
  exists values,
    Promise_all prompts evs = Some values /\
    (returned
       (generateLiveDemos_resume values (generateLiveDemos_request shuffled st).2)
       = true ->
     writes st' = writes st + (if Nat.ltb 0 K then 3 else 0)).
Proof.
  intros prompts N K st' Hall. subst st'.
  rewrite generateLiveDemos_unfold. cbv zeta. fold prompts.
  destruct (Promise_all_settled prompts evs Hall) as (values & Hv & _ & Hperm).
  rewrite Hv. cbn [generateLiveDemos_request snd]. fold prompts.
  set (st1 := foldl _ st prompts).
  destruct (generateLiveDemos_resume_lists values st1)
    as (Hh & Hd & Ha & _ & Hiff & Hle & Hw).
  destruct (foldl_request_image prompts st) as (Hh1 & Hd1 & Ha1 & _).
  fold st1 in Hh1, Hd1, Ha1.
  assert (HK : length (omap (fun v => v) values) = K).
  { rewrite Hperm. subst K. rewrite <- (length_omap_settled_value prompts).
    f_equal. generalize (settled_value prompts). clear. intros f.
    induction evs as [|e evs IH]; [done|].
    cbn. destruct (f e); cbn; by rewrite IH. }
  rewrite HK in Hw, Hiff.
  assert (HN : K <= N).
  { subst K N. etrans; [apply length_filter|].
    unfold all_settle_once in Hall.
    apply Permutation_length in Hall.
    rewrite length_map, length_seq in Hall. lia. }
  assert (Hw1 : writes st1 = writes st) by apply writes_requests_sent.
  rewrite Hd, Ha, Hh, !length_app, HK, Hd1, Ha1, Hh1.
  rewrite Hw1 in Hiff, Hle, Hw.
  do 4 (split; [done|]). split; [exact Hiff|]. split; [exact Hle|].
  exists values. split; [done|exact Hw].
Qed.

Lemma C7_demo_batch_witness :
  let evs :=
    [ mkSettlement 2 (Some "CCCC") 1700000000010 1700000000010;
      mkSettlement 0 (Some "AAAA") 1700000000020 1700000000020;
      mkSettlement 1 None 1700000000030 1700000000030;
      mkSettlement 3 (Some "DDDD") 1700000000040 1700000000041 ] in
  let st := initial_state unlimited ∅ in
  all_settle_once (take demoCount PROMPT_POOL) evs /\
  length (demoHistory (generateLiveDemos PROMPT_POOL evs st)) = 3 /\
  length (allGenerations (generateLiveDemos PROMPT_POOL evs st)) = 3 /\
  writes (generateLiveDemos PROMPT_POOL evs st) <> 0.
Proof.
  intros evs st.
  assert (Hall : all_settle_once (take demoCount PROMPT_POOL) evs).
  { apply (bool_decide_unpack _). vm_compute. exact I. }
  split; [exact Hall|].
  destruct (C7_demo_batch_grows_by_successes PROMPT_POOL evs st Hall)
    as (_ & Hd & Ha & _ & Hiff & _).
  split; [exact Hd|]. split; [exact Ha|].
  apply Hiff. vm_compute. lia.
Defined.

Lemma then_callback_Some p i url n1 n2 w :
  then_callback p i url n1 n2 = Some w ->
  prompt w = p /\ aspectRatio w = R9_16 /\ source w = demo /\
  timestamp w = n2 /\
  id w = "demo-" +:+ Number_toString n1 +:+ "-" +:+ Number_toString (Z.of_nat i).
Proof.
  unfold then_callback. destruct url as [u|]; [|done].
  destruct (truthy (Some u)); [|done].
  intros [= <-]. done.
Qed.

Lemma completion_of_Some evs i e :
  completion_of evs i = Some e -> e ∈ evs /\ index e = i.
Proof.
  induction evs as [|e' evs IH]; [done|]. cbn.
  destruct (Nat.eqb_spec (index e') i) as [Heq|Hne].
  - intros [= ->]. split; [apply list_elem_of_here|done].
  - intros H. destruct (IH H). split; [by apply list_elem_of_further|done].
Qed.

Lemma completion_of_None evs i :
  completion_of evs i = None -> forall e, e ∈ evs -> index e <> i.
Proof.
  induction evs as [|e' evs IH]; intros H e He.
  - by apply elem_of_nil in He.
  - cbn in H. destruct (Nat.eqb_spec (index e') i) as [Heq|Hne]; [done|].
    apply elem_of_cons in He as [->|He]; auto.
Qed.

Lemma Promise_all_results prompts evs values :
  Promise_all prompts evs = Some values ->
  omap (fun v => v) values = batch_results prompts evs.
Proof.
  rewrite Promise_all_unfold. intros Hm%mapM_Some_1.
  unfold batch_results. revert Hm. generalize (seq 0 (length prompts)).
  intros l Hm. induction Hm as [|i v l k Hiv _ IH]; [done|].
  cbn. rewrite IH. destruct (completion_of evs i) as [e|]; [|done].
  cbn in *. by injection Hiv as ->.
Qed.

Lemma batch_results_demo prompts evs :
  Forall (fun w => aspectRatio w = R9_16 /\ source w = demo)
    (batch_results prompts evs).
Proof.
  unfold batch_results. generalize (seq 0 (length prompts)). intros l.
  induction l as [|i l IH]; [constructor|].
  cbn. destruct (completion_of evs i) as [e|]; [|exact IH]. cbn.
  destruct (settled_value prompts e) as [w|] eqn:Hw; [|exact IH].
  constructor; [|exact IH].
  apply then_callback_Some in Hw. tauto.
Qed.

Lemma generateLiveDemos_lists shuffled evs st :
  let prompts := take demoCount shuffled in
  let st' := generateLiveDemos shuffled evs st in
  let results :=
    match Promise_all prompts evs with
    | Some _ => batch_results prompts evs
    | None => []
    end in
  history st' = history st /\
  demoHistory st' = demoHistory st ++ results /\
  allGenerations st' = allGenerations st ++ results /\
  selectedAspectRatio st' = selectedAspectRatio st.
Proof.
  intros prompts st' results. subst st' results.
  rewrite generateLiveDemos_unfold. cbv zeta. fold prompts.
  destruct (foldl_request_image prompts st) as (Hh1 & Hd1 & Ha1 & _ & Hr1 & _).
  destruct (Promise_all prompts evs) as [values|] eqn:Hp.
  - destruct (generateLiveDemos_resume_lists values
                (foldl (fun s p => request_image p demoAspectRatio s) st prompts))
      as (-> & -> & -> & -> & _).
    rewrite (Promise_all_results _ _ _ Hp), Hh1, Hd1, Ha1, Hr1. done.
  - rewrite Hh1, Hd1, Ha1, Hr1, !app_nil_r. done.
Qed.

(** C10: whatever aspect ratio is selected, every request of the demo
    batch is sent with the ratio 9:16 and every entity the batch commits
    to [demoHistory] and [allGenerations] has [aspectRatio] 9:16 (and
    source [demo]); the selected ratio is neither read nor changed. *)
Theorem C10_demo_batch_is_always_9_16 shuffled evs st :
  let st' := generateLiveDemos shuffled evs st in
  (exists results,
     demoHistory st' = demoHistory st ++ results /\
     allGenerations st' = allGenerations st ++ results /\
     Forall (fun w => aspectRatio w = R9_16 /\ source w = demo) results) /\
  (exists sent,
     calls (generateLiveDemos_request shuffled st).2 = calls st ++ sent /\
     length sent = length (take demoCount shuffled) /\
     Forall (fun c => exists p, c = generateImages p R9_16) sent) /\
  selectedAspectRatio st' = selectedAspectRatio st.
Proof.
  intros st'. subst st'.
  destruct (generateLiveDemos_lists shuffled evs st) as (_ & Hd & Ha & Hr).
  split; [|split; [|exact Hr]].
  - eexists. split; [exact Hd|]. split; [exact Ha|].
    destruct (Promise_all _ _); [apply batch_results_demo|constructor].
  - destruct (foldl_request_image (take demoCount shuffled) st)
      as (_ & _ & _ & _ & _ & _ & _ & Hc).
    eexists. split; [exact Hc|]. split; [by rewrite length_map|].
    apply Forall_forall. intros c (p & -> & _)%list_elem_of_fmap.
    eexists. reflexivity.
Qed.

Lemma completion_of_Permutation evs evs' :
  NoDup (map index evs) -> evs' ≡ₚ evs ->
  forall i, completion_of evs' i = completion_of evs i.
Proof.
  intros Hnd Hp i.
  assert (Hnd' : NoDup (map index evs')) by (by rewrite Hp).
  destruct (completion_of evs i) as [e|] eqn:He.
  - apply completion_of_Some in He as [Hin <-].
    apply completion_of_NoDup; [done|]. by rewrite Hp.
  - destruct (completion_of evs' i) as [e'|] eqn:He'; [|done].
    apply completion_of_Some in He' as [Hin Hi].
    rewrite Hp in Hin. by destruct (completion_of_None _ _ He _ Hin).
Qed.

Lemma generateLiveDemos_Permutation shuffled evs evs' st :
  NoDup (map index evs) -> evs' ≡ₚ evs ->
  generateLiveDemos shuffled evs' st = generateLiveDemos shuffled evs st.
Proof.
  intros Hnd Hp. rewrite !generateLiveDemos_unfold. cbv zeta.
  rewrite !Promise_all_unfold.
  erewrite mapM_ext; [reflexivity|].
  intros i. cbn. by rewrite (completion_of_Permutation evs evs').
Qed.

Lemma prompts_of_results_sublist prompts (g : nat -> option Wallpaper) :
  forall k,
  (forall i w, i < length prompts -> g (k + i) = Some w ->
               prompts !! i = Some (prompt w)) ->
  prompt <$> omap g (seq k (length prompts)) `sublist_of` prompts.
Proof.
  induction prompts as [|p prompts IH]; intros k Hg; [constructor|].
  cbn [length seq].
  change (omap g (k :: seq (S k) (length prompts))) with
    (match g k with
     | Some w => w :: omap g (seq (S k) (length prompts))
     | None => omap g (seq (S k) (length prompts))
     end).
  assert (Hrest : prompt <$> omap g (seq (S k) (length prompts))
                    `sublist_of` prompts).
  { apply IH. intros i w Hi Hw. apply (Hg (S i) w); [cbn; lia|].
    by replace (k + S i) with (S k + i) by lia. }
  destruct (g k) as [w|] eqn:Hk.
  - assert (prompt w = p) as <-.
    { specialize (Hg 0 w). rewrite Nat.add_0_r in Hg.
      specialize (Hg ltac:(cbn; lia) Hk). by injection Hg. }
    cbn. by constructor.
  - by constructor.
Qed.

Lemma batch_results_sublist prompts evs :
  prompt <$> batch_results prompts evs `sublist_of` prompts.
Proof.
  apply (prompts_of_results_sublist prompts _ 0).
  intros i w Hi. cbn.
  destruct (completion_of evs i) as [e|] eqn:He; [|done]. cbn.
  apply completion_of_Some in He as [_ <-].
  unfold settled_value.
  intros (-> & _)%then_callback_Some.
  destruct (prompts !! index e) as [p|] eqn:Hp; [done|].
  apply lookup_ge_None in Hp. lia.
Qed.

Lemma batch_results_Permutation prompts evs :
  all_settle_once prompts evs ->
  batch_results prompts evs ≡ₚ settlement_order_results prompts evs.
Proof.
  intros Hall.
  destruct (Promise_all_settled prompts evs Hall) as (values & Hv & _ & Hperm).
  rewrite <- (Promise_all_results _ _ _ Hv), Hperm.
  unfold settlement_order_results.
  generalize (settled_value prompts). clear. intros f.
  induction evs as [|e evs IH]; [done|].
  cbn. destruct (f e); cbn; by rewrite IH.
Qed.

(** C4 (as the code has it): when every request of a demo batch has
    completed, the successful results are appended to [demoHistory] and
    [allGenerations] by position in the batch, which is the order of the
    prompts: the prompts of the new entities form a subsequence of the
    submitted prompts.  The order in which the requests completed plays
    no part: the same completions in any other order give the same state,
    and the entities committed are those of the completion order,
    rearranged. *)
Theorem C4_demo_results_in_submission_order shuffled evs st :
  let prompts := take demoCount shuffled in
  let st' := generateLiveDemos shuffled evs st in
  all_settle_once prompts evs ->
  demoHistory st' = demoHistory st ++ batch_results prompts evs /\
  allGenerations st' = allGenerations st ++ batch_results prompts evs /\
  prompt <$> batch_results prompts evs `sublist_of` prompts /\
  batch_results prompts evs ≡ₚ settlement_order_results prompts evs /\
  (forall evs', evs' ≡ₚ evs -> generateLiveDemos shuffled evs' st = st').
Proof.
  intros prompts st' Hall. subst st'.
  destruct (generateLiveDemos_lists shuffled evs st) as (_ & Hd & Ha & _).
  fold prompts in Hd, Ha.
  destruct (Promise_all_settled prompts evs Hall) as (values & Hv & _).
  rewrite Hv in Hd, Ha.
  split; [exact Hd|]. split; [exact Ha|].
  split; [apply batch_results_sublist|].
  split; [by apply batch_results_Permutation|].
  intros evs' Hp. apply generateLiveDemos_Permutation; [|done].
  unfold all_settle_once in Hall. rewrite Hall. apply NoDup_seq.
Qed.

Lemma C4_submission_order_witness :
  let evs :=
    [ mkSettlement 3 (Some "DDDD") 1700000000010 1700000000010;
      mkSettlement 1 (Some "BBBB") 1700000000020 1700000000020;
      mkSettlement 0 (Some "AAAA") 1700000000030 1700000000030;
      mkSettlement 2 (Some "CCCC") 1700000000040 1700000000040 ] in
  let st' := generateLiveDemos PROMPT_POOL evs (initial_state unlimited ∅) in
  all_settle_once (take demoCount PROMPT_POOL) evs /\
  prompt <$> demoHistory st' = take demoCount PROMPT_POOL.
Proof.
  intros evs st'.
  assert (Hall : all_settle_once (take demoCount PROMPT_POOL) evs).
  { apply (bool_decide_unpack _). vm_compute. exact I. }
  split; [exact Hall|].
  destruct (C4_demo_results_in_submission_order PROMPT_POOL evs (initial_state unlimited ∅)
              Hall) as (Hd & _).
  subst st'. rewrite Hd. reflexivity.
Defined.

(** C4, as stated, fails: four requests that complete in the order 3, 1,
    0, 2 are committed in the order 0, 1, 2, 3 of their prompts, not in the
    order of completion (the timestamps show the order of completion). *)
Lemma C4_settlement_order_counterexample :
  let evs :=
    [ mkSettlement 3 (Some "DDDD") 1700000000010 1700000000010;
      mkSettlement 1 (Some "BBBB") 1700000000020 1700000000020;
      mkSettlement 0 (Some "AAAA") 1700000000030 1700000000030;
      mkSettlement 2 (Some "CCCC") 1700000000040 1700000000040 ] in
  let prompts := take demoCount PROMPT_POOL in
  let st' := generateLiveDemos PROMPT_POOL evs (initial_state unlimited ∅) in
  all_settle_once prompts evs /\
  demoHistory st' <> settlement_order_results prompts evs /\
  allGenerations st' <> settlement_order_results prompts evs /\
  prompt <$> demoHistory st' = prompts /\
  timestamp <$> demoHistory st' =
    [1700000000030; 1700000000020; 1700000000040; 1700000000010]%Z /\
  timestamp <$> settlement_order_results prompts evs =
    [1700000000010; 1700000000020; 1700000000030; 1700000000040]%Z.
Proof.
  intros evs prompts st'.
  split; [apply (bool_decide_unpack _); vm_compute; exact I|].
  split; [vm_compute; discriminate|].
  split; [vm_compute; discriminate|].
  split; [vm_compute; reflexivity|].
  split; vm_compute; reflexivity.
Qed.

(** ** Sequences of operations *)

Lemma Appends_nothing st st' :
  history st' = history st -> demoHistory st' = demoHistory st ->
  allGenerations st' = allGenerations st -> Appends st st' [] [].
Proof. intros Hh Hd Ha. split; rewrite ?app_nil_r; auto. Qed.

Lemma step_SubmitResume_success st p bytes n1 n2 :
  let w := mkWallpaper (Number_toString n1) p
             ("data:image/jpeg;base64," +:+ bytes) (selectedAspectRatio st) n2
             user in
  let st' := step st (SubmitResume p (Some bytes) n1 n2) in
  history st' = history st ++ [w] /\
  allGenerations st' = allGenerations st ++ [w] /\
  demoHistory st' = demoHistory st /\
  demoPrompts st' = demoPrompts st /\
  selectedAspectRatio st' = selectedAspectRatio st /\
  dataTheme st' = dataTheme st /\
  quota st' = quota st /\
  filter is_generateImages (calls st') = filter is_generateImages (calls st).
Proof.
  intros w st'. subst st'. unfold step. cbn [handle].
  destruct (handleFormSubmit_resume_ends p bytes n1 n2 st)
    as (st' & Hend & Hh & Ha & Hd & Hp & Hr & Ht & Hq & _ & _ & Hg).
  assert (state_after st
            (handleFormSubmit_resume p (generateWallpaper_result (Some bytes))
               n1 n2 st) = st') as ->
    by (destruct Hend as [(-> & _)|(-> & _)]; reflexivity).
  done.
Qed.

Lemma step_SubmitResume_failure st p n1 n2 :
  step st (SubmitResume p None n1 n2) = st.
Proof. reflexivity. Qed.

Lemma step_DemosResume st prompts evs :
  step st (DemosResume prompts evs) =
  match Promise_all prompts evs with
  | Some values => state_after st (generateLiveDemos_resume values st)
  | None => st
  end.
Proof. unfold step. cbn [handle]. by destruct (Promise_all prompts evs). Qed.

Lemma step_Appends st a : exists us ds, Appends st (step st a) us ds.
Proof.
  destruct a as [text|ratio| |p r n1 n2|shuffled|prompts evs].
  - exists [], []. by apply Appends_nothing.
  - exists [], []. by apply Appends_nothing.
  - exists [], []. unfold step, handle, handleFormSubmit_request.
    destruct (String.eqb _ _); by apply Appends_nothing.
  - destruct r as [bytes|].
    + destruct (step_SubmitResume_success st p bytes n1 n2)
        as (Hh & Ha & Hd & _).
      eexists [_], []. split; rewrite ?app_nil_r; eauto.
    + exists [], []. by apply Appends_nothing.
  - exists [], [].
    destruct (foldl_request_image (take demoCount shuffled) st)
      as (Hh & Hd & Ha & _).
    by apply Appends_nothing.
  - rewrite step_DemosResume.
    destruct (Promise_all prompts evs) as [values|] eqn:Hp.
    + exists [], (batch_results prompts evs).
      destruct (generateLiveDemos_resume_lists values st) as (Hh & Hd & Ha & _).
      rewrite (Promise_all_results _ _ _ Hp) in Hd, Ha.
      split; rewrite ?app_nil_r; auto.
      eapply Forall_impl; [apply batch_results_demo|]. cbn. tauto.
    + exists [], []. by apply Appends_nothing.
Qed.

Lemma steps_Appends l : forall st,
  exists us ds,
    history (steps st l) = history st ++ us /\
    demoHistory (steps st l) = demoHistory st ++ ds /\
    allGenerations (steps st l) ≡ₚ allGenerations st ++ us ++ ds /\
    exists k, allGenerations (steps st l) = allGenerations st ++ k.
Proof.
  induction l as [|a l IH]; intros st.
  - exists [], []. cbn. rewrite !app_nil_r. split; [done|]. split; [done|].
    split; [done|]. exists []. by rewrite app_nil_r.
  - destruct (step_Appends st a) as (us & ds & [Hh Hd Ha _ _]).
    destruct (IH (step st a)) as (us' & ds' & Hh' & Hd' & Ha' & k & Hk).
    exists (us ++ us'), (ds ++ ds'). cbn [steps foldl].
    unfold steps in Hh', Hd', Ha', Hk.
    rewrite Hh', Hd', Hh, Hd, <- !app_assoc. split; [done|]. split; [done|].
    split.
    + rewrite Ha', Ha, <- !app_assoc. apply Permutation_app; [done|].
      apply Permutation_app; [done|].
      rewrite !app_assoc. apply Permutation_app; [|done].
      apply Permutation_app_comm.
    + exists ((us ++ ds) ++ k). rewrite Hk, Ha, <- !app_assoc. done.
Qed.

Lemma filter_all {A} (P : A -> Prop) `{!forall x, Decision (P x)} (l : list A) :
  Forall P l -> filter P l = l.
Proof.
  induction 1 as [|x l Hx _ IH]; [done|].
  rewrite filter_cons_True by done. by rewrite IH.
Qed.

Lemma filter_none {A} (P : A -> Prop) `{!forall x, Decision (P x)} (l : list A) :
  Forall (fun x => ~ P x) l -> filter P l = [].
Proof.
  induction 1 as [|x l Hx _ IH]; [done|].
  rewrite filter_cons_False by done. exact IH.
Qed.

Lemma Appends_consistent st st' us ds :
  Appends st st' us ds -> consistent st -> consistent st'.
Proof.
  intros [Hh Hd Ha Hu Hdm] [Ch Cd]. unfold consistent.
  rewrite Hh, Hd, Ha, !filter_app, <- Ch, <- Cd.
  rewrite (filter_all _ us Hu), (filter_all _ ds Hdm).
  rewrite (filter_none (fun w => source w = user) ds),
          (filter_none (fun w => source w = demo) us).
  - by rewrite app_nil_r.
  - eapply Forall_impl; [exact Hu|]. cbn. congruence.
  - eapply Forall_impl; [exact Hdm|]. cbn. congruence.
Qed.

Lemma steps_consistent l : forall st, consistent st -> consistent (steps st l).
Proof.
  induction l as [|a l IH]; intros st Hc; [exact Hc|].
  cbn. apply IH. destruct (step_Appends st a) as (us & ds & H).
  eapply Appends_consistent; eauto.
Qed.

Lemma run_op_steps st o : run_op st o = steps st (steps_of o).
Proof.
  destruct o as [text r n1 n2|ratio|shuffled evs].
  - unfold run_op, steps_of, handleFormSubmit, handleFormSubmit_request.
    cbn -[trim handleFormSubmit_resume handleFormSubmit_request].
    unfold handleFormSubmit_request. cbn [promptInput set_promptInput].
    destruct (String.eqb (trim text) ""); reflexivity.
  - reflexivity.
  - unfold run_op, steps_of, generateLiveDemos. cbn [app steps foldl].
    rewrite step_DemosResume. reflexivity.
Qed.

Lemma run_steps ops : forall st, run st ops = steps st (concat (map steps_of ops)).
Proof.
  induction ops as [|o ops IH]; intros st; [reflexivity|].
  cbn. unfold steps. rewrite foldl_app. fold (steps st (steps_of o)).
  rewrite <- run_op_steps. apply IH.
Qed.

Lemma consistent_lengths st :
  consistent st ->
  length (allGenerations st) = length (history st) + length (demoHistory st) /\
  allGenerations st ≡ₚ history st ++ demoHistory st.
Proof.
  intros [-> ->].
  assert (Hperm : allGenerations st ≡ₚ
            filter (fun w => source w = user) (allGenerations st) ++
            filter (fun w => source w = demo) (allGenerations st)).
  { rewrite <- (filter_app_complement (fun w => source w = user)
                  (allGenerations st)) at 1.
    apply Permutation_app; [done|].
    erewrite list_filter_iff; [reflexivity|].
    intros w. cbn. destruct (source w); split; congruence. }
  split; [|exact Hperm].
  rewrite <- length_app. by apply Permutation_length.
Qed.

(** C2: after any sequence of submits, aspect-ratio selections and demo
    batches run from the empty state, [allGenerations] has as many
    entities as [history] and [demoHistory] together; [history] is
    exactly the run of user entities of [allGenerations] and
    [demoHistory] the run of its demo entities, each in the order they
    have in [allGenerations]; and [allGenerations] holds the entities of
    the two lists and no others, each as often as there. *)
Theorem C2_allGenerations_merges_both_lists ops quota store :
  let st := run (initial_state quota store) ops in
  length (allGenerations st) = length (history st) + length (demoHistory st) /\
  history st = filter (fun w => source w = user) (allGenerations st) /\
  demoHistory st = filter (fun w => source w = demo) (allGenerations st) /\
  allGenerations st ≡ₚ history st ++ demoHistory st.
Proof.
  intros st.
  assert (Hc : consistent st).
  { subst st. rewrite run_steps. apply steps_consistent. by split. }
  destruct (consistent_lengths st Hc) as [Hlen Hperm].
  destruct Hc as [Hh Hd]. done.
Qed.

(** ** Decimal numerals *)

Local Arguments String.append !_ _ / : simpl nomatch.

Lemma read_digits_string_of_uint d rest :
  no_digit_ahead rest ->
  JSON.read_digits (NilEmpty.string_of_uint d +:+ rest) = (d, rest).
Proof.
  intros Hrest. induction d as [|d IH|d IH|d IH|d IH|d IH|d IH|d IH|d IH|d IH|d IH];
    cbn; try (rewrite IH; reflexivity).
  destruct rest as [|c rest]; [reflexivity|].
  cbn in *. by rewrite Hrest.
Qed.

Lemma string_of_uint_head d :
  d <> Nil ->
  exists c s, NilEmpty.string_of_uint d = String c s /\
              is_Some (JSON.digit_value c).
Proof.
  destruct d; [done|..]; intros _; cbn; eexists _, _; split; eauto.
Qed.

Lemma N_to_uint_nonnil n : N.to_uint n <> Nil.
Proof.
  destruct n as [|p]; cbn; [discriminate|].
  apply DecimalPos.Unsigned.to_uint_nonnil.
Qed.

Lemma Z_to_int_cases z :
  exists d, d <> Nil /\ (Z.to_int z = Pos d \/ Z.to_int z = Neg d).
Proof.
  destruct z as [|p|p]; cbn.
  - exists (D0 Nil). split; [discriminate|by left].
  - exists (Pos.to_uint p). split; [apply DecimalPos.Unsigned.to_uint_nonnil|by left].
  - exists (Pos.to_uint p). split; [apply DecimalPos.Unsigned.to_uint_nonnil|by right].
Qed.

Global Instance Number_toString_inj : Inj (=) (=) Number_toString.
Proof.
  intros z z' H. unfold Number_toString in H.
  apply DecimalZ.to_int_inj.
  assert (Hs : Some (Z.to_int z) = Some (Z.to_int z'))
    by (by rewrite <- !NilEmpty.isi, H).
  by injection Hs.
Qed.

(** A numeral starts with a digit or with the minus sign. *)
Lemma Number_toString_head z :
  exists c s, Number_toString z = String c s /\
              (is_Some (JSON.digit_value c) \/ c = "-"%char).
Proof.
  unfold Number_toString.
  destruct (Z_to_int_cases z) as (d & Hd & [-> | ->]); cbn.
  - destruct (string_of_uint_head d Hd) as (c & s & -> & Hc). eauto.
  - eauto.
Qed.

(** The numeral of a natural number is made of digits. *)
Lemma Number_toString_nat i :
  exists d, d <> Nil /\ Number_toString (Z.of_nat i) = NilEmpty.string_of_uint d.
Proof.
  unfold Number_toString. destruct (Z.of_nat i) as [|p|p] eqn:Hi; cbn.
  - exists (D0 Nil). split; [discriminate|done].
  - exists (Pos.to_uint p). split; [apply DecimalPos.Unsigned.to_uint_nonnil|done].
  - lia.
Qed.

(** ** Identifiers *)

Lemma numeral_dash_inj d d' b b' :
  NilEmpty.string_of_uint d +:+ String "-" b =
  NilEmpty.string_of_uint d' +:+ String "-" b' ->
  d = d' /\ b = b'.
Proof.
  intros H. apply (f_equal JSON.read_digits) in H.
  rewrite !read_digits_string_of_uint in H by reflexivity.
  by injection H as -> ->.
Qed.

Global Instance demo_id_inj : Inj (=) (=) demo_id.
Proof.
  intros [t i] [t' i'] H. unfold demo_id in H. cbn [fst snd] in H.
  apply (inj (String.app "demo-")) in H.
  assert (Hcut : t = t' /\ Number_toString (Z.of_nat i) = Number_toString (Z.of_nat i')).
  { unfold Number_toString at 1 3 in H.
    destruct (Z_to_int_cases t) as (d & Hd & Ht), (Z_to_int_cases t') as (d' & Hd' & Ht').
    assert (Hnil : forall u b b', u <> Nil ->
              NilEmpty.string_of_uint u +:+ String "-" b <> String "-" b').
    { intros u b b' Hu Heq. apply (f_equal JSON.read_digits) in Heq.
      rewrite read_digits_string_of_uint in Heq by reflexivity.
      cbn in Heq. by injection Heq. }
    destruct Ht as [Ht|Ht], Ht' as [Ht'|Ht']; rewrite Ht, Ht' in H; cbn in H.
    - apply numeral_dash_inj in H as [-> Hb].
      split; [|done]. apply DecimalZ.to_int_inj. congruence.
    - by apply Hnil in H.
    - symmetry in H. by apply Hnil in H.
    - injection H as H. apply numeral_dash_inj in H as [-> Hb].
      split; [|done]. apply DecimalZ.to_int_inj. congruence. }
  destruct Hcut as [-> Hi]. apply (inj Number_toString) in Hi.
  f_equal. lia.
Qed.

Lemma user_id_is_no_demo_id z s : Number_toString z <> demo_id s.
Proof.
  destruct (Number_toString_head z) as (c & r & -> & Hc).
  unfold demo_id. cbn. intros [= -> _].
  destruct Hc as [[? Hc]|Hc]; discriminate.
Qed.

Lemma batch_results_ids prompts evs :
  id <$> batch_results prompts evs =
  demo_id <$> omap (fun i => e ← completion_of evs i;
                             if succeeded e then Some (now1 e, i) else None)
                (seq 0 (length prompts)).
Proof.
  unfold batch_results. generalize (seq 0 (length prompts)). intros l.
  induction l as [|i l IH]; [reflexivity|].
  cbn. destruct (completion_of evs i) as [e|] eqn:He; [|exact IH]. cbn.
  apply completion_of_Some in He as [_ <-].
  unfold settled_value, succeeded.
  destruct (response e) as [b|]; cbn; [|exact IH].
  f_equal. exact IH.
Qed.

Lemma step_ids st a :
  id <$> history (step st a) =
    (id <$> history st) ++ (Number_toString <$> submit_clock a) /\
  id <$> demoHistory (step st a) =
    (id <$> demoHistory st) ++ (demo_id <$> demo_clock a).
Proof.
  destruct a as [text|ratio| |p r n1 n2|shuffled|prompts evs].
  - cbn. by rewrite !app_nil_r.
  - cbn. by rewrite !app_nil_r.
  - unfold step, handle, handleFormSubmit_request.
    destruct (String.eqb _ _); cbn; by rewrite !app_nil_r.
  - destruct r as [b|].
    + destruct (step_SubmitResume_success st p b n1 n2) as (-> & _ & -> & _).
      cbn. by rewrite fmap_app, app_nil_r.
    + rewrite step_SubmitResume_failure. cbn. by rewrite !app_nil_r.
  - destruct (foldl_request_image (take demoCount shuffled) st)
      as (Hh & Hd & _).
    unfold step. cbn [handle state_after generateLiveDemos_request snd].
    rewrite Hh, Hd. cbn.
    by rewrite !app_nil_r.
  - rewrite step_DemosResume. cbn [submit_clock demo_clock].
    destruct (Promise_all prompts evs) as [values|] eqn:Hp.
    + destruct (generateLiveDemos_resume_lists values st) as (-> & -> & _).
      rewrite (Promise_all_results _ _ _ Hp), fmap_app, batch_results_ids.
      cbn. by rewrite app_nil_r.
    + cbn. by rewrite !app_nil_r.
Qed.

Lemma steps_ids l : forall st,
  id <$> history (steps st l) =
    (id <$> history st) ++ (Number_toString <$> (l ≫= submit_clock)) /\
  id <$> demoHistory (steps st l) =
    (id <$> demoHistory st) ++ (demo_id <$> (l ≫= demo_clock)).
Proof.
  induction l as [|a l IH]; intros st.
  - cbn. by rewrite !app_nil_r.
  - cbn [steps foldl]. destruct (IH (step st a)) as [Hh Hd].
    unfold steps in Hh, Hd. rewrite Hh, Hd.
    destruct (step_ids st a) as [-> ->].
    cbn [mbind list_bind]. rewrite !fmap_app, <- !app_assoc. done.
Qed.

(** A list in which some entry occurs twice stays so under an injective
    function, and inside any list that holds its entries. *)
Lemma not_NoDup_fmap_inside {A B} (f : A -> B) `{!Inj (=) (=) f}
  (l : list A) (before after whole : list B) :
  ~ NoDup l -> whole ≡ₚ before ++ (f <$> l) ++ after -> ~ NoDup whole.
Proof.
  intros Hl Hw Hnd. apply Hl. rewrite Hw in Hnd.
  apply NoDup_app in Hnd as (_ & _ & Hnd).
  apply NoDup_app in Hnd as (Hnd & _).
  by apply (NoDup_fmap f).
Qed.

(** C3: an id is the clock reading of its commit.  After any steps from
    the empty lists, the ids in [history] are pairwise distinct exactly
    when no two committing submits read the same [Date.now()] value;
    those in [demoHistory] exactly when no two demo entities share both
    the reading and the position in their batch; and those in
    [allGenerations] exactly when both hold.  From whatever lists the run
    starts, two submits that commit at the same clock reading leave two
    entities with one id in [history] and in [allGenerations]. *)
Theorem C3_ids_unique_iff_clock_readings_distinct l :
  (forall quota store,
     let st := steps (initial_state quota store) l in
     (NoDup (id <$> history st) <-> NoDup (l ≫= submit_clock)) /\
     (NoDup (id <$> demoHistory st) <-> NoDup (l ≫= demo_clock)) /\
     (NoDup (id <$> allGenerations st) <->
        NoDup (l ≫= submit_clock) /\ NoDup (l ≫= demo_clock))) /\
  (forall st0,
     ~ NoDup (l ≫= submit_clock) ->
     ~ NoDup (id <$> history (steps st0 l)) /\
     ~ NoDup (id <$> allGenerations (steps st0 l))).
Proof.
  split.
  - intros quota store st.
    destruct (steps_ids l (initial_state quota store)) as [Hh Hd].
    fold st in Hh, Hd. cbn in Hh, Hd.
    assert (Hc : consistent st) by (apply steps_consistent; by split).
    destruct (consistent_lengths st Hc) as [_ Hperm].
    assert (H1 : NoDup (id <$> history st) <-> NoDup (l ≫= submit_clock))
      by (rewrite Hh; apply (NoDup_fmap Number_toString)).
    assert (H2 : NoDup (id <$> demoHistory st) <-> NoDup (l ≫= demo_clock))
      by (rewrite Hd; apply (NoDup_fmap demo_id)).
    split; [exact H1|]. split; [exact H2|].
    rewrite Hperm, fmap_app, NoDup_app, H1, H2.
    split; [tauto|]. intros [Hs Hdm]. split; [done|]. split; [|done].
    rewrite Hh, Hd.
    intros x (z & -> & _)%list_elem_of_fmap (s & Hx & _)%list_elem_of_fmap.
    by apply user_id_is_no_demo_id in Hx.
  - intros st0 Hdup.
    destruct (steps_ids l st0) as [Hh _].
    destruct (steps_Appends l st0) as (us & ds & Hus & _ & Ha & _).
    assert (Hids : id <$> us = Number_toString <$> (l ≫= submit_clock)).
    { rewrite Hus, fmap_app in Hh. by apply app_inv_head in Hh. }
    split.
    + apply (not_NoDup_fmap_inside Number_toString (l ≫= submit_clock)
               (id <$> history st0) []); [done|].
      by rewrite Hh, app_nil_r.
    + apply (not_NoDup_fmap_inside Number_toString (l ≫= submit_clock)
               (id <$> allGenerations st0) (id <$> ds)); [done|].
      by rewrite Ha, !fmap_app, Hids.
Qed.

(** C3 on a run the page allows: two submits are in
    flight and both answers arrive within the same millisecond; the two
    entities committed to [history] (and to [allGenerations]) carry the
    same id.  A demo batch whose four answers arrive in that same
    millisecond gives four distinct ids, since it appends the position in
    the batch to the reading. *)
Lemma C3_same_millisecond_witness :
  let l :=
    [ Input "Epic anime warrior under the moonlight"; SubmitRequest;
      Input "Fantasy knight with a glowing sword"; SubmitRequest;
      SubmitResume "Epic anime warrior under the moonlight" (Some "AAAA")
        1700000000000 1700000000000;
      SubmitResume "Fantasy knight with a glowing sword" (Some "BBBB")
        1700000000000 1700000000000 ] in
  let batch :=
    [ DemosRequest PROMPT_POOL;
      DemosResume (take demoCount PROMPT_POOL)
        [ mkSettlement 0 (Some "AAAA") 1700000000000 1700000000000;
          mkSettlement 1 (Some "BBBB") 1700000000000 1700000000000;
          mkSettlement 2 (Some "CCCC") 1700000000000 1700000000000;
          mkSettlement 3 (Some "DDDD") 1700000000000 1700000000000 ] ] in
  let st := steps (initial_state unlimited ∅) l in
  id <$> history st = ["1700000000000"; "1700000000000"] /\
  ~ NoDup (id <$> history st) /\
  ~ NoDup (id <$> allGenerations st) /\
  id <$> demoHistory (steps (initial_state unlimited ∅) batch) =
    [ "demo-1700000000000-0"; "demo-1700000000000-1";
      "demo-1700000000000-2"; "demo-1700000000000-3" ].
Proof.
  intros l batch st.
  split; [vm_compute; reflexivity|].
  destruct (C3_ids_unique_iff_clock_readings_distinct l) as (_ & Hdup).
  destruct (Hdup (initial_state unlimited ∅)) as (Hh & Ha).
  - intros Hnd. apply NoDup_cons in Hnd as [Hnotin _].
    apply Hnotin. apply list_elem_of_here.
  - split; [exact Hh|]. split; [exact Ha|]. vm_compute. reflexivity.
Defined.

(** ** Rotating the demo prompts *)

Lemma drawn_in_pool pool random k : pool <> [] -> drawn pool random k ∈ pool.
Proof.
  intros Hne. unfold drawn.
  assert (Hlt : random k mod length pool < length pool).
  { apply Nat.mod_upper_bound. by destruct pool. }
  apply lookup_lt_is_Some in Hlt as [p Hp].
  rewrite (nth_lookup_Some _ _ _ _ Hp). by eapply list_elem_of_lookup_2.
Qed.

Lemma resample_result pool shown random fuel : forall k p,
  pool <> [] -> resample pool shown random k fuel = Some p ->
  (p ∉ shown) /\ p ∈ pool.
Proof.
  induction fuel as [|fuel IH]; intros k p Hne; [done|].
  cbn [resample]. unfold includes. case_bool_decide as Hin.
  - by apply IH.
  - intros [= <-]. split; [done|by apply drawn_in_pool].
Qed.

Section Rotation.
Variable pool : list string.

Lemma indexOf_elem_of x l :
  x ∈ l -> exists i, indexOf x l = Some i /\ l !! i = Some x.
Proof.
  induction l as [|y l IH]; intros Hin; [by apply elem_of_nil in Hin|].
  cbn. destruct (String.eqb_spec y x) as [->|Hne]; [by exists 0|].
  apply elem_of_cons in Hin as [->|Hin]; [done|].
  destruct (IH Hin) as (i & -> & Hi). by exists (S i).
Qed.

Lemma indexOf_not_elem_of x l : x ∉ l -> indexOf x l = None.
Proof.
  induction l as [|y l IH]; intros Hnotin; [done|].
  cbn. apply not_elem_of_cons in Hnotin as [Hne Hnotin].
  destruct (String.eqb_spec y x) as [->|_]; [done|].
  by rewrite IH.
Qed.

(** Pigeonhole: more distinct entries in the pool than prompts shown
    leaves an entry that is not shown. *)
Lemma fresh_entry_exists (shown : list string) :
  length shown + 1 <= length (remove_dups pool) ->
  exists i, i < length pool /\ nth i pool "" ∉ shown.
Proof.
  intros Hlen.
  destruct (decide (Forall (fun x => x ∈ shown) pool)) as [Hall|Hex].
  - exfalso.
    assert (Hsub : remove_dups pool ⊆+ shown).
    { apply NoDup_submseteq; [apply NoDup_remove_dups|].
      intros x Hx. apply (proj1 (elem_of_remove_dups pool x)) in Hx.
      by apply (proj1 (Forall_forall _ _) Hall). }
    apply submseteq_length in Hsub. lia.
  - apply not_Forall_Exists in Hex; [|apply _].
    apply Exists_exists in Hex as (x & Hx & Hfresh).
    apply list_elem_of_lookup_1 in Hx as (i & Hi).
    exists i. split; [by eapply lookup_lt_Some|].
    by rewrite (nth_lookup_Some _ _ _ _ Hi).
Qed.

(** The loop ends at the first draw that is not shown. *)
Lemma resample_ends shown random j : forall k fuel,
  drawn pool random (k + j) ∉ shown -> j < fuel ->
  exists p, resample pool shown random k fuel = Some p /\ p ∉ shown.
Proof.
  induction j as [|j IH]; intros k fuel Hfresh Hfuel;
    (destruct fuel as [|fuel]; [lia|]); cbn [resample]; unfold includes.
  - rewrite Nat.add_0_r in Hfresh. fold (drawn pool random k).
    rewrite bool_decide_eq_false_2 by done. eauto.
  - fold (drawn pool random k). case_bool_decide as Hk; [|eauto].
    apply IH; [|lia]. by replace (S k + j) with (k + S j) by lia.
Qed.

(** The loop is still running while every draw is shown. *)
Lemma resample_runs shown random : forall fuel k,
  (forall j, j < fuel -> drawn pool random (k + j) ∈ shown) ->
  resample pool shown random k fuel = None.
Proof.
  induction fuel as [|fuel IH]; intros k Hall; [reflexivity|].
  cbn [resample]. unfold includes. fold (drawn pool random k).
  rewrite bool_decide_eq_true_2.
  - apply IH. intros j Hj. replace (S k + j) with (k + S j) by lia.
    apply Hall. lia.
  - specialize (Hall 0). rewrite Nat.add_0_r in Hall. apply Hall. lia.
Qed.

Lemma NoDup_replace (l : list string) i x :
  NoDup l -> x ∉ l -> NoDup (<[i := x]> l).
Proof.
  intros Hnd Hx.
  destruct (decide (i < length l)) as [Hi|Hi];
    [|by rewrite list_insert_ge by lia].
  rewrite insert_take_drop by done.
  rewrite <- (take_drop i l) in Hnd, Hx.
  apply lookup_lt_is_Some in Hi as [y Hy].
  rewrite (drop_S _ _ _ Hy) in Hnd, Hx.
  apply NoDup_app in Hnd as (Hnd1 & Hdisj & Hnd2).
  apply NoDup_cons in Hnd2 as [_ Hnd2].
  apply not_elem_of_app in Hx as [Hx1 Hx2].
  apply not_elem_of_cons in Hx2 as [_ Hx2].
  apply NoDup_app. split; [done|]. split.
  - intros z Hz [->|Hz2]%elem_of_cons; [done|].
    apply (Hdisj z Hz). by apply list_elem_of_further.
  - by apply NoDup_cons.
Qed.

(** More draws allowed change nothing once the loop has ended. *)
Lemma resample_more shown random p : forall fuel k fuel',
  resample pool shown random k fuel = Some p -> fuel <= fuel' ->
  resample pool shown random k fuel' = Some p.
Proof.
  induction fuel as [|fuel IH]; intros k fuel' Hr Hle; [done|].
  destruct fuel' as [|fuel']; [lia|].
  cbn [resample] in *.
  destruct (includes (drawn pool random k) shown); [|done].
  apply IH; [done|lia].
Qed.

(** The loop ends at the first draw that is not shown, and the set keeps
    its size and stays duplicate-free. *)
Lemma rotation_ends_at_fresh_draw (usedPrompt : string) (st : State) random k fuel :
  NoDup (demoPrompts st) ->
  usedPrompt ∈ demoPrompts st ->
  drawn pool random k ∉ demoPrompts st -> k < fuel ->
  exists i newPrompt,
    indexOf usedPrompt (demoPrompts st) = Some i /\
    (newPrompt ∉ demoPrompts st) /\
    refreshDemoPrompt_in pool usedPrompt random fuel st =
      Some (set_demoPrompts (<[i := newPrompt]> (demoPrompts st)) st) /\
    length (<[i := newPrompt]> (demoPrompts st)) = length (demoPrompts st) /\
    NoDup (<[i := newPrompt]> (demoPrompts st)).
Proof.
  intros Hnd Hin Hfresh Hfuel.
  destruct (indexOf_elem_of _ _ Hin) as (i & Hi & Hlook).
  destruct (resample_ends (demoPrompts st) random k 0 fuel Hfresh Hfuel)
    as (p & Hp & Hpfresh).
  exists i, p. unfold refreshDemoPrompt_in. rewrite Hi, Hp.
  split; [done|]. split; [done|]. split; [done|].
  split; [apply length_insert|by apply NoDup_replace].
Qed.

(** The code puts no bound on the number of draws: while every draw
    selects a prompt that is shown, the loop is still running. *)
Lemma rotation_runs_while_draws_are_shown (usedPrompt : string) (st : State)
  random fuel :
  usedPrompt ∈ demoPrompts st ->
  (forall k, k < fuel -> drawn pool random k ∈ demoPrompts st) ->
  refreshDemoPrompt_in pool usedPrompt random fuel st = None.
Proof.
  intros Hin Hall.
  destruct (indexOf_elem_of _ _ Hin) as (i & Hi & _).
  unfold refreshDemoPrompt_in. rewrite Hi.
  by rewrite (resample_runs (demoPrompts st) random fuel 0 Hall).
Qed.

(** Once some draw selects a prompt that is not shown, the call returns:
    from that many draws on, always with the same result. *)
Lemma rotation_returns (usedPrompt : string) (random : nat -> nat)
  (st : State) k :
  pool <> [] ->
  usedPrompt ∈ demoPrompts st ->
  drawn pool random k ∉ demoPrompts st ->
  exists i newPrompt,
    indexOf usedPrompt (demoPrompts st) = Some i /\
    (newPrompt ∈ pool) /\
    (newPrompt ∉ demoPrompts st) /\
    (forall fuel, S k <= fuel ->
       refreshDemoPrompt_in pool usedPrompt random fuel st =
         Some (set_demoPrompts (<[i := newPrompt]> (demoPrompts st)) st)).
Proof.
  intros Hne Hin Hdrawn.
  destruct (indexOf_elem_of _ _ Hin) as (i & Hi & _).
  destruct (resample_ends (demoPrompts st) random k 0 (S k) Hdrawn)
    as (p & Hp & Hpfresh); [lia|].
  exists i, p. split; [done|].
  split; [by eapply (resample_result pool)|]. split; [done|].
  intros fuel Hfuel. unfold refreshDemoPrompt_in. rewrite Hi.
  by rewrite (resample_more _ _ _ _ _ _ Hp Hfuel).
Qed.

(** C8: when the pool holds at least one more distinct entry than the
    rotating set, which is duplicate-free and contains [usedPrompt],
    [refreshDemoPrompt] terminates: some entry of the pool is outside the
    set, so with a random source in which every index of the pool comes
    up at some point the loop reaches a draw outside the set and ends
    there.  From some number of draws on, the call has returned, always
    with the same result: the set keeps its size, stays duplicate-free,
    and the slot of [usedPrompt] holds an entry that was not in the
    set. *)
Theorem C8_rotation_terminates (usedPrompt : string) (random : nat -> nat)
  (st : State) :
  length (demoPrompts st) + 1 <= length (remove_dups pool) ->
  NoDup (demoPrompts st) ->
  usedPrompt ∈ demoPrompts st ->
  (forall i, i < length pool -> exists k, random k mod length pool = i) ->
  exists draws i newPrompt,
    indexOf usedPrompt (demoPrompts st) = Some i /\
    (newPrompt ∈ pool) /\
    (newPrompt ∉ demoPrompts st) /\
    (forall fuel, draws <= fuel ->
       refreshDemoPrompt_in pool usedPrompt random fuel st =
         Some (set_demoPrompts (<[i := newPrompt]> (demoPrompts st)) st)) /\
    length (<[i := newPrompt]> (demoPrompts st)) = length (demoPrompts st) /\
    NoDup (<[i := newPrompt]> (demoPrompts st)).
Proof.
  intros Hlen Hnd Hin Hfair.
  destruct (fresh_entry_exists (demoPrompts st) Hlen) as (j & Hj & Hfresh).
  destruct (Hfair j Hj) as (k & Hk).
  assert (Hdrawn : drawn pool random k ∉ demoPrompts st)
    by (unfold drawn; by rewrite Hk).
  assert (Hne : pool <> []) by (intros ->; cbn in Hj; lia).
  destruct (rotation_returns usedPrompt random st k Hne Hin Hdrawn)
    as (i & p & Hi & Hpool & Hpfresh & Hr).
  exists (S k), i, p.
  do 4 (split; [done|]).
  split; [apply length_insert|by apply NoDup_replace].
Qed.

End Rotation.

Lemma C8_rotation_witness :
  let st := set_demoPrompts (take 3 PROMPT_POOL) (initial_state unlimited ∅) in
  let usedPrompt := "Cute anime girl with cherry blossoms" in
  let random := fun k : nat => k in
  (length (demoPrompts st) + 1 <= length (remove_dups PROMPT_POOL) /\
   NoDup (demoPrompts st) /\ usedPrompt ∈ demoPrompts st) /\
  exists fuel, is_Some (refreshDemoPrompt usedPrompt random fuel st).
Proof.
  intros st usedPrompt random.
  assert (Hlen : length (demoPrompts st) + 1 <= length (remove_dups PROMPT_POOL))
    by (vm_compute; lia).
  assert (Hnd : NoDup (demoPrompts st))
    by (apply (bool_decide_unpack _); vm_compute; exact I).
  assert (Hin : usedPrompt ∈ demoPrompts st)
    by (apply (bool_decide_unpack _); vm_compute; exact I).
  assert (Hfair : forall i, i < length PROMPT_POOL ->
            exists k, random k mod length PROMPT_POOL = i)
    by (intros i Hi; exists i; by apply Nat.mod_small).
  split; [done|].
  destruct (C8_rotation_terminates PROMPT_POOL usedPrompt random st
              Hlen Hnd Hin Hfair) as (draws & i & p & _ & _ & _ & Hr & _).
  exists draws. unfold refreshDemoPrompt. rewrite (Hr draws); [eauto|lia].
Defined.

(** ** [JSON.parse] after [JSON.stringify] *)

Module JSONFacts.
Import JSON.

Lemma append_assoc (a b c : string) : (a +:+ b) +:+ c = a +:+ (b +:+ c).
Proof. induction a as [|x a IH]; cbn; [done|by rewrite IH]. Qed.

Lemma length_append (a b : string) :
  String.length (a +:+ b) = String.length a + String.length b.
Proof. induction a as [|x a IH]; cbn; [done|by rewrite IH]. Qed.

Lemma parse_chars_quote_char c t :
  parse_chars (quote_char c +:+ t) =
  let! p := parse_chars t in Some (String c p.1, p.2).
Proof.
  destruct c as [[] [] [] [] [] [] [] []]; reflexivity.
Qed.

Lemma parse_chars_quote_body s rest :
  parse_chars (quote_body s +:+ String dquote rest) = Some (s, rest).
Proof.
  induction s as [|c s IH]; [reflexivity|].
  cbn [quote_body]. rewrite append_assoc, parse_chars_quote_char, IH.
  reflexivity.
Qed.

Lemma delimited_no_digit rest : delimited rest -> no_digit_ahead rest.
Proof. destruct rest as [|c rest]; [done|]. intros [->|[->| ->]]; reflexivity. Qed.

Lemma delimited_more_number rest : delimited rest -> more_number rest = false.
Proof. destruct rest as [|c rest]; [done|]. intros [->|[->| ->]]; reflexivity. Qed.

Lemma delimited_skip_ws rest : delimited rest -> skip_ws rest = rest.
Proof. destruct rest as [|c rest]; [done|]. intros [->|[->| ->]]; reflexivity. Qed.

Lemma unorm_fixpoint_normal d : unorm d = d -> normal d.
Proof.
  intros H. destruct d as [|d| | | | | | | | | ]; cbn; try done.
  destruct d as [|d| | | | | | | | | ]; try done;
      rewrite unorm_D0 in H;
      match type of H with unorm ?u = _ =>
        assert (Hnb : nb_digits (unorm u) <= nb_digits u)
          by (by apply nb_digits_unorm);
        rewrite H in Hnb; cbn in Hnb; lia
      end.
Qed.

Lemma N_to_uint_normal n : normal (N.to_uint n).
Proof.
  apply unorm_fixpoint_normal.
  rewrite <- DecimalN.Unsigned.to_of, DecimalN.Unsigned.of_to. reflexivity.
Qed.

Lemma parse_magnitude_numeral n rest :
  delimited rest ->
  parse_magnitude (NilEmpty.string_of_uint (N.to_uint n) +:+ rest) = Some (n, rest).
Proof.
  intros Hrest. unfold parse_magnitude.
  rewrite read_digits_string_of_uint by (by apply delimited_no_digit).
  cbn [fst snd]. rewrite (delimited_more_number _ Hrest).
  rewrite DecimalN.Unsigned.of_to.
  pose proof (N_to_uint_normal n) as Hn.
  destruct (N.to_uint n) as [|d| | | | | | | | | ]; try done.
  destruct d; done.
Qed.

Lemma Number_toString_sign z :
  Number_toString z =
  if Z.ltb z 0 then String "-" (NilEmpty.string_of_uint (N.to_uint (Z.abs_N z)))
  else NilEmpty.string_of_uint (N.to_uint (Z.abs_N z)).
Proof. destruct z; reflexivity. Qed.

Lemma parse_number_numeral z rest :
  delimited rest -> parse_number (Number_toString z +:+ rest) = Some (z, rest).
Proof.
  intros Hrest. rewrite Number_toString_sign.
  destruct (Z.ltb_spec z 0) as [Hneg|Hpos].
  - cbn. rewrite parse_magnitude_numeral by done. cbn.
    destruct (N.eqb_spec (Z.abs_N z) 0) as [H0|_]; [lia|].
    f_equal. f_equal. lia.
  - destruct (string_of_uint_head (N.to_uint (Z.abs_N z)) (N_to_uint_nonnil _))
      as (c & s & Hs & Hc).
    unfold parse_number.
    pose proof (parse_magnitude_numeral (Z.abs_N z) rest Hrest) as Hm.
    rewrite Hs in Hm |- *. cbn [String.append] in Hm |- *.
    assert (Nat.eqb (nat_of_ascii c) 45 = false) as ->.
    { destruct Hc as [n Hc]. unfold digit_value in Hc.
      destruct (Nat.eqb_spec (nat_of_ascii c) 45) as [Heq|]; [|done].
      rewrite Heq in Hc. done. }
    rewrite Hm. cbn. f_equal. f_equal. lia.
Qed.

Lemma parse_value_number_head fuel c t :
  is_Some (digit_value c) \/ c = "-"%char ->
  parse_value (S fuel) (String c t) =
  let! p := parse_number (String c t) in Some (Number p.1, p.2).
Proof.
  intros Hc.
  destruct c as [[] [] [] [] [] [] [] []];
    try reflexivity;
    exfalso; destruct Hc as [[n Hc]|Hc]; discriminate.
Qed.

Lemma stringify_head v :
  exists c s, stringify v = String c s /\ is_ws c = false /\
              Ascii.eqb c "]" = false.
Proof.
  destruct v as [|[]|z|s|l|m]; try (cbn; eexists _, _; split; [reflexivity|done]).
  cbn [stringify].
  destruct (Number_toString_head z) as (c & s & -> & Hc).
  exists c, s. split; [done|].
  destruct c as [[] [] [] [] [] [] [] []]; try done;
    exfalso; destruct Hc as [[n Hc]|Hc]; discriminate.
Qed.

Lemma set_property_fresh k v acc :
  k ∉ acc.*1 -> set_property k v acc = acc ++ [(k, v)].
Proof.
  induction acc as [|[k' v'] acc IH]; intros Hk; [reflexivity|].
  cbn in *. apply not_elem_of_cons in Hk as [Hne Hk].
  destruct (String.eqb_spec k k'); [done|]. by rewrite IH.
Qed.

Lemma size_pos v : 1 <= size v.
Proof. destruct v; cbn; lia. Qed.

Lemma quote_append s rest :
  quote s +:+ rest = String dquote (quote_body s +:+ String dquote rest).
Proof. unfold quote. cbn. by rewrite append_assoc. Qed.

Lemma parse_value_string fuel r :
  parse_value (S fuel) (String dquote r) =
  let! p := parse_chars r in Some (Str p.1, p.2).
Proof. reflexivity. Qed.

Lemma parse_value_array fuel r :
  parse_value (S fuel) (String "[" r) =
  if starts_with "]" (skip_ws r) then Some (Array [], tail (skip_ws r))
  else let! p := parse_elements fuel r in Some (Array p.1, p.2).
Proof. reflexivity. Qed.

Lemma parse_value_object fuel r :
  parse_value (S fuel) (String "{" r) =
  if starts_with "}" (skip_ws r) then Some (Object [], tail (skip_ws r))
  else let! p := parse_members fuel [] r in Some (Object p.1, p.2).
Proof. reflexivity. Qed.

Lemma parse_elements_step fuel s :
  parse_elements (S fuel) s =
  let! p := parse_value fuel s in
  match skip_ws p.2 with
  | String "," r => let! q := parse_elements fuel r in Some (p.1 :: q.1, q.2)
  | String "]" r => Some ([p.1], r)
  | _ => None
  end.
Proof. reflexivity. Qed.

Lemma parse_members_step fuel acc r :
  parse_members (S fuel) acc (String dquote r) =
  let! k := parse_chars r in
  match skip_ws k.2 with
  | String ":" r' =>
      let! p := parse_value fuel r' in
      if is_array_index k.1 then None
      else
        let acc' := set_property k.1 p.1 acc in
        match skip_ws p.2 with
        | String "," r'' => parse_members fuel acc' r''
        | String "}" r'' => Some (acc', r'')
        | _ => None
        end
  | _ => None
  end.
Proof. reflexivity. Qed.

Lemma value_ok_step fuel :
  elements_ok fuel -> members_ok fuel -> value_ok (S fuel).
Proof.
  intros He Hm v rest Hwf Hsize Hrest.
  destruct v as [|[]|z|s|l|m]; try reflexivity.
  - cbn [stringify].
    destruct (Number_toString_head z) as (c & s & Hz & Hc).
    pose proof (parse_number_numeral z rest Hrest) as Hn.
    rewrite Hz in Hn |- *. cbn [String.append] in Hn |- *.
    rewrite parse_value_number_head by done. by rewrite Hn.
  - cbn [stringify]. rewrite quote_append, parse_value_string.
    by rewrite parse_chars_quote_body.
  - destruct l as [|x l]; [reflexivity|].
    cbn [stringify String.append]. rewrite parse_value_array.
    assert (starts_with "]"
              (skip_ws (stringify_elements stringify (x :: l) +:+ rest)) = false)
      as ->.
    { cbn [stringify_elements].
      destruct (stringify_head x) as (c & s & -> & Hws & Hc).
      cbn [String.append skip_ws]. rewrite Hws. exact Hc. }
    cbn in Hsize.
    rewrite He; [reflexivity|done|exact Hwf|cbn; lia|done].
  - destruct m as [|kx m]; [reflexivity|].
    cbn [stringify String.append]. rewrite parse_value_object.
    assert (starts_with "}"
              (skip_ws (stringify_members stringify (kx :: m) +:+ rest)) = false)
      as -> by reflexivity.
    cbn in Hsize. destruct Hwf as [Hnd Hwf].
    rewrite Hm; [reflexivity|done|exact Hwf|exact Hnd|cbn; lia|done].
Qed.

Lemma elements_ok_step fuel :
  value_ok fuel -> elements_ok fuel -> elements_ok (S fuel).
Proof.
  intros Hv He l rest Hne Hwf Hsize Hrest.
  destruct l as [|x l]; [done|]. clear Hne.
  destruct Hwf as [Hx Hl]. cbn in Hsize.
  pose proof (size_pos x).
  rewrite parse_elements_step. cbn [stringify_elements].
  rewrite append_assoc.
  destruct l as [|y l].
  - cbn [String.append]. rewrite Hv; [reflexivity|done|lia|cbn; tauto].
  - cbn [String.append]. rewrite Hv; [|done|lia|cbn; tauto].
    cbn [bind fst snd]. rewrite delimited_skip_ws by (cbn; tauto).
    cbv beta iota.
    rewrite He; [reflexivity|done|exact Hl|cbn in *; lia|done].
Qed.

Lemma members_ok_step fuel :
  value_ok fuel -> members_ok fuel -> members_ok (S fuel).
Proof.
  intros Hv Hm m acc rest Hne Hwf Hnd Hsize Hrest.
  destruct m as [|[k x] m]; [done|]. clear Hne.
  destruct Hwf as (Hk & Hx & Hwf). cbn in Hsize, Hk.
  pose proof (size_pos x).
  cbn [stringify_members fst snd].
  rewrite append_assoc, quote_append, parse_members_step.
  rewrite parse_chars_quote_body. cbn [bind fst snd].
  rewrite append_assoc. cbn [String.append].
  change (skip_ws (String ":" ?r)) with (String ":" r). cbv beta iota.
  assert (Hfresh : k ∉ acc.*1).
  { cbn in Hnd. apply NoDup_app in Hnd as (_ & Hdisj & _).
    intros Hin. apply (Hdisj k Hin). apply list_elem_of_here. }
  assert (Hnd' : NoDup ((acc ++ [(k, x)]).*1 ++ m.*1)).
  { rewrite fmap_app, <- app_assoc. exact Hnd. }
  destruct m as [|ky m].
  - cbn [String.append].
    rewrite Hv; [|done|lia|cbn; tauto].
    cbn [bind fst snd]. rewrite Hk, (set_property_fresh _ _ _ Hfresh).
    reflexivity.
  - cbn [String.append].
    rewrite Hv; [|done|lia|cbn; tauto].
    cbn [bind fst snd]. rewrite Hk, (set_property_fresh _ _ _ Hfresh).
    rewrite delimited_skip_ws by (cbn; tauto). cbv beta iota zeta.
    rewrite Hm; [|done|exact Hwf|exact Hnd'|cbn in *; lia|done].
    by rewrite <- app_assoc.
Qed.

Lemma parse_stringify_fuel fuel :
  value_ok fuel /\ elements_ok fuel /\ members_ok fuel.
Proof.
  induction fuel as [|fuel (Hv & He & Hm)].
  - split; [|split].
    + intros v rest _ Hsize. pose proof (size_pos v). lia.
    + intros [|x l] rest Hne _ Hsize; [done|]. cbn in Hsize. lia.
    + intros [|x l] acc rest Hne _ _ Hsize; [done|]. cbn in Hsize. lia.
  - split; [by apply value_ok_step|].
    split; [by apply elements_ok_step|by apply members_ok_step].
Qed.

Lemma value_ind' (P : value -> Prop) :
  P Null -> (forall b, P (Bool b)) -> (forall z, P (Number z)) ->
  (forall s, P (Str s)) ->
  (forall l, Forall P l -> P (Array l)) ->
  (forall m, Forall (fun kx => P kx.2) m -> P (Object m)) ->
  forall v, P v.
Proof.
  intros HN HB HZ HS HA HO. fix IH 1.
  intros [|b|z|s|l|m];
    [apply HN|apply HB|apply HZ|apply HS|apply HA|apply HO].
  - revert l. fix IHl 1.
    intros [|x l]; constructor; [apply IH|apply IHl].
  - revert m. fix IHm 1.
    intros [|[k x] m]; constructor; [apply IH|apply IHm].
Qed.

Lemma append_nil_r (a : string) : a +:+ "" = a.
Proof. induction a as [|x a IH]; cbn; [done|by rewrite IH]. Qed.

Lemma size_le_length v : size v <= String.length (stringify v).
Proof.
  induction v as [|[]|z|s|l IH|m IH] using value_ind'; cbn; try lia.
  - destruct (Number_toString_head z) as (c & s & -> & _). cbn. lia.
  - apply le_n_S. induction IH as [|x l Hx _ IHl]; [cbn; lia|].
    cbn [stringify_elements length fmap list_fmap sum_list_with sum_list].
    rewrite length_append. destruct l; cbn in *; lia.
  - apply le_n_S. induction IH as [|[k x] m Hx _ IHm]; [cbn; lia|].
    cbn [stringify_members length fmap list_fmap sum_list_with sum_list fst snd].
    rewrite !length_append. destruct m; cbn in *; lia.
Qed.

(** What [stringify] writes is a JSON text. *)

Lemma scan_append a b : forall m stack,
  scan m stack (a +:+ b) =
  match scan m stack a with
  | Some (m', stack') => scan m' stack' b
  | None => None
  end.
Proof.
  induction a as [|c a IH]; intros m stack; cbn [String.append scan]; [done|].
  destruct (next m stack c) as [[m' stack']|]; [apply IH|done].
Qed.

Lemma closed_complete m : closed m -> complete m = true.
Proof. by intros [->|[->| ->]]. Qed.

Lemma scan_quote_char c key stack :
  scan (InString key) stack (quote_char c) = Some (InString key, stack).
Proof. destruct c as [[] [] [] [] [] [] [] []]; reflexivity. Qed.

Lemma scan_quote_body s key stack :
  scan (InString key) stack (quote_body s) = Some (InString key, stack).
Proof.
  induction s as [|c s IH]; [reflexivity|].
  cbn [quote_body]. by rewrite scan_append, scan_quote_char.
Qed.

Lemma scan_quote s m stack :
  m = Value \/ m = ValueOrClose \/ m = KeyOrClose \/ m = Key ->
  scan m stack (quote s) =
  Some (match m with KeyOrClose | Key => Colon | _ => After end, stack).
Proof.
  intros Hm. unfold quote.
  assert (Hopen : next m stack dquote =
            Some (InString match m with KeyOrClose | Key => true | _ => false end,
                  stack))
    by (destruct Hm as [->|[->|[->| ->]]]; reflexivity).
  cbn [scan]. rewrite Hopen, scan_append, scan_quote_body.
  destruct Hm as [->|[->|[->| ->]]]; reflexivity.
Qed.

Lemma scan_digits d stack :
  scan Int stack (NilEmpty.string_of_uint d) = Some (Int, stack).
Proof. induction d; cbn; done. Qed.

Lemma scan_numeral d m stack :
  normal d -> m = Value \/ m = ValueOrClose \/ m = Minus ->
  exists m', closed m' /\
    scan m stack (NilEmpty.string_of_uint d) = Some (m', stack).
Proof.
  intros Hd Hm.
  destruct d as [|d|d|d|d|d|d|d|d|d|d]; [done|..];
    try (exists Int; split; [right; by right|];
         destruct Hm as [->|[->| ->]]; cbn; apply scan_digits).
  destruct d; try done. exists Zero. split; [right; by left|].
  destruct Hm as [->|[->| ->]]; reflexivity.
Qed.

Lemma scan_Number z m stack :
  opens m ->
  exists m', closed m' /\ scan m stack (Number_toString z) = Some (m', stack).
Proof.
  intros Hm. rewrite Number_toString_sign.
  pose proof (N_to_uint_normal (Z.abs_N z)) as Hn.
  destruct (Z.ltb z 0).
  - destruct (scan_numeral _ Minus stack Hn) as (m' & Hm' & Hs);
      [right; by right|].
    exists m'. split; [done|].
    destruct Hm as [->| ->]; cbn [scan]; exact Hs.
  - apply scan_numeral; [done|]. destruct Hm as [->| ->]; tauto.
Qed.

Lemma next_comma m stack :
  closed m ->
  next m (InArray :: stack) "," = Some (Value, InArray :: stack) /\
  next m (InArray :: stack) "]" = Some (After, stack) /\
  next m (InObject :: stack) "," = Some (Key, InObject :: stack) /\
  next m (InObject :: stack) "}" = Some (After, stack).
Proof. intros [->|[->| ->]]; done. Qed.

Lemma scan_stringify v : forall m stack,
  opens m ->
  exists m', closed m' /\ scan m stack (stringify v) = Some (m', stack).
Proof.
  induction v as [|[]|z|s|l IH|ms IH] using value_ind'; intros m stack Hm.
  - exists After. split; [by left|]. destruct Hm as [->| ->]; reflexivity.
  - exists After. split; [by left|]. destruct Hm as [->| ->]; reflexivity.
  - exists After. split; [by left|]. destruct Hm as [->| ->]; reflexivity.
  - by apply scan_Number.
  - exists After. split; [by left|]. cbn [stringify].
    rewrite scan_quote by (destruct Hm; tauto).
    destruct Hm as [->| ->]; reflexivity.
  - exists After. split; [by left|].
    assert (Hopen : next m stack "[" = Some (ValueOrClose, InArray :: stack))
      by (destruct Hm as [->| ->]; reflexivity).
    cbn [stringify scan]. rewrite Hopen.
    destruct l as [|x l]; [reflexivity|].
    assert (Hl : forall l0, Forall (fun v => forall m stack, opens m ->
                 exists m', closed m' /\
                   scan m stack (stringify v) = Some (m', stack)) l0 ->
              l0 <> [] -> forall m0, opens m0 ->
              scan m0 (InArray :: stack)
                (stringify_elements stringify l0) = Some (After, stack));
      [|apply Hl; [exact IH|done|by right]].
    clear. induction 1 as [|y l' Hy Hl' IHl]; [done|].
    intros _ m0 Hm0. cbn [stringify_elements].
    destruct (Hy m0 (InArray :: stack) Hm0) as (m1 & Hm1 & Hs).
    destruct (next_comma m1 stack Hm1) as (Hc & Hb & _).
    rewrite scan_append, Hs.
    destruct l' as [|y' l'']; cbn [scan]; [by rewrite Hb|].
    rewrite Hc. apply IHl; [done|by left].
  - exists After. split; [by left|].
    assert (Hopen : next m stack "{" = Some (KeyOrClose, InObject :: stack))
      by (destruct Hm as [->| ->]; reflexivity).
    cbn [stringify scan]. rewrite Hopen.
    destruct ms as [|kx ms]; [reflexivity|].
    assert (Hl : forall ms0, Forall (fun kx => forall m stack, opens m ->
                 exists m', closed m' /\
                   scan m stack (stringify kx.2) = Some (m', stack)) ms0 ->
              ms0 <> [] -> forall m0, m0 = KeyOrClose \/ m0 = Key ->
              scan m0 (InObject :: stack)
                (stringify_members stringify ms0) = Some (After, stack));
      [|apply Hl; [exact IH|done|by left]].
    clear. induction 1 as [|[k y] ms' Hy Hms' IHms]; [done|].
    intros _ m0 Hm0. cbn [stringify_members fst snd].
    rewrite scan_append, scan_quote by tauto.
    assert (match m0 with KeyOrClose | Key => Colon | _ => After end = Colon)
      as -> by (destruct Hm0 as [->| ->]; reflexivity).
    cbn [String.append scan].
    change (next Colon (InObject :: stack) ":")
      with (Some (Value, InObject :: stack)).
    cbv beta iota.
    destruct (Hy Value (InObject :: stack) (or_introl eq_refl))
      as (m1 & Hm1 & Hs).
    destruct (next_comma m1 stack Hm1) as (_ & _ & Hc & Hb).
    cbn [snd] in Hs. rewrite scan_append, Hs.
    destruct ms' as [|ky ms'']; cbn [scan]; [by rewrite Hb|].
    rewrite Hc. apply IHms; [done|by right].
Qed.

Lemma well_formed_stringify v : well_formed (stringify v) = true.
Proof.
  unfold well_formed.
  destruct (scan_stringify v Value [] (or_introl eq_refl)) as (m' & Hm' & ->).
  by apply closed_complete.
Qed.

(** Parsing what [stringify] wrote gives the value back. *)
Lemma parse_stringify v : wf v -> parse (stringify v) = Ok v.
Proof.
  intros Hwf. unfold parse. rewrite well_formed_stringify.
  destruct (parse_stringify_fuel (2 * String.length (stringify v) + 2))
    as (Hv & _).
  rewrite <- (append_nil_r (stringify v)) at 2.
  rewrite Hv; [reflexivity|done| |done].
  pose proof (size_le_length v). lia.
Qed.

(** A text that is no JSON text makes [parse] throw, whatever the
    descent makes of its beginning; a JSON text never does. *)
Lemma parse_SyntaxError text :
  parse text = SyntaxError <-> well_formed text = false.
Proof.
  unfold parse. destruct (well_formed text); [|done].
  split; [|done].
  destruct (parse_value _ _) as [p|]; [|done].
  by destruct (skip_ws p.2).
Qed.

Lemma stringify_nonempty v : stringify v <> "".
Proof. destruct (stringify_head v) as (c & s & -> & _). discriminate. Qed.

End JSONFacts.

Lemma Wallpaper_toJSON_wf w : JSON.wf (Wallpaper_toJSON w).
Proof.
  cbn. split; [|done].
  apply (bool_decide_unpack _). vm_compute. exact I.
Qed.

Lemma Wallpapers_toJSON_wf l : JSON.wf (Wallpapers_toJSON l).
Proof.
  unfold Wallpapers_toJSON. cbn [JSON.wf].
  induction l as [|w l IH]; [done|].
  split; [apply Wallpaper_toJSON_wf|exact IH].
Qed.

Lemma Wallpaper_ofJSON_toJSON w : Wallpaper_ofJSON (Wallpaper_toJSON w) = Some w.
Proof. destruct w as [i p u [] t []]; reflexivity. Qed.

Lemma Wallpapers_ofJSON_toJSON l :
  Wallpapers_ofJSON (Wallpapers_toJSON l) = Some l.
Proof.
  unfold Wallpapers_ofJSON, Wallpapers_toJSON.
  apply mapM_Some. induction l as [|w l IH]; constructor; [|exact IH].
  apply Wallpaper_ofJSON_toJSON.
Qed.

(** A list of wallpapers written by [JSON.stringify] is read back by
    [JSON.parse] as the same list. *)
Lemma parse_stringify_Wallpapers l :
  JSON.parse (JSON.stringify (Wallpapers_toJSON l)) = JSON.Ok (Wallpapers_toJSON l).
Proof. apply JSONFacts.parse_stringify, Wallpapers_toJSON_wf. Qed.

Lemma assign_parsed_stringify l assign st :
  assign_parsed (Some (JSON.stringify (Wallpapers_toJSON l))) assign st =
  Returned (assign l st).
Proof.
  unfold assign_parsed.
  destruct (String.eqb_spec (JSON.stringify (Wallpapers_toJSON l)) "") as [He|_].
  - by apply JSONFacts.stringify_nonempty in He.
  - by rewrite parse_stringify_Wallpapers, Wallpapers_ofJSON_toJSON.
Qed.

(** ** Loading *)

Lemma state_eta st :
  mkState (history st) (demoHistory st) (allGenerations st) (demoPrompts st)
    (selectedAspectRatio st) (promptInput st) (dataTheme st) (localStorage st)
    (quota st) (calls st) = st.
Proof. by destruct st. Qed.

Lemma saved_lookups st :
  saved_store st !! "userHistory" =
    Some (JSON.stringify (Wallpapers_toJSON (history st))) /\
  saved_store st !! "demoHistory" =
    Some (JSON.stringify (Wallpapers_toJSON (demoHistory st))) /\
  saved_store st !! "allGenerations" =
    Some (JSON.stringify (Wallpapers_toJSON (allGenerations st))).
Proof.
  unfold saved_store. repeat split.
  - rewrite !lookup_insert_ne by done. apply lookup_insert_eq.
  - rewrite lookup_insert_ne by done. apply lookup_insert_eq.
  - apply lookup_insert_eq.
Qed.

Lemma loadData_saved_store st h d a p r i t q c :
  loadData (mkState h d a p r i t (saved_store st) q c) =
  Returned (mkState (history st) (demoHistory st) (allGenerations st)
              p r i t (saved_store st) q c).
Proof.
  destruct (saved_lookups st) as (Hu & Hd & Ha).
  unfold loadData. cbn [localStorage]. rewrite Hu, Hd, Ha.
  repeat (rewrite assign_parsed_stringify; cbn [and_then]).
  reflexivity.
Qed.

(** C9: [loadData] run on the store that a [saveData] which returned has
    written returns normally and sets [history], [demoHistory] and
    [allGenerations] to the lists that were saved, entity for entity and
    in the same order, whatever the three variables held before;
    everything else is left alone.  In particular loading right after
    saving changes nothing.  ([saveData] returns whenever the browser
    accepts its three writes.) *)
Theorem C9_load_after_save_restores_lists st :
  (forall h d a p r i t q c,
     loadData (mkState h d a p r i t (saved_store st) q c) =
     Returned (mkState (history st) (demoHistory st) (allGenerations st)
                 p r i t (saved_store st) q c)) /\
  (forall st', saveData st = Returned st' ->
     localStorage st' = saved_store st /\
     history st' = history st /\
     demoHistory st' = demoHistory st /\
     allGenerations st' = allGenerations st /\
     loadData st' = Returned st') /\
  ((forall store key value, quota st store key value = true) ->
   exists st', saveData st = Returned st').
Proof.
  split; [intros; apply loadData_saved_store|].
  split; [|apply saveData_returns].
  intros st' Hret.
  apply saveData_Returned in Hret as (V & Hs & _).
  destruct V as (Vh & Vd & Va & _).
  do 4 (split; [done|]).
  rewrite <- (state_eta st') at 1. rewrite Hs, loadData_saved_store.
  rewrite <- Hs, <- Vh, <- Vd, <- Va. by rewrite state_eta.
Qed.

Lemma assign_parsed_falsy saved assign st :
  falsy saved -> assign_parsed saved assign st = Returned st.
Proof. by intros [-> | ->]. Qed.

Lemma assign_parsed_unparsable text assign st :
  unparsable text -> assign_parsed (Some text) assign st = Threw st.
Proof.
  intros [Hne Hp]. unfold assign_parsed.
  destruct (String.eqb_spec text ""); [done|]. by rewrite Hp.
Qed.

(** Texts that are no JSON texts, though they begin like one. *)
Example unparsable_texts :
  unparsable "[1.]" /\ unparsable "[1e]" /\ unparsable "[1.5" /\
  unparsable ("{" +:+ JSON.quote "0" +:+ ":1") /\
  JSON.parse "[1.5]" = JSON.Unsupported /\
  JSON.parse ("{" +:+ JSON.quote "0" +:+ ":1}") = JSON.Unsupported.
Proof. repeat split; try discriminate; vm_compute; reflexivity. Qed.

Lemma assign_parsed_Returned saved assign st st' :
  assign_parsed saved assign st = Returned st' ->
  st' = st \/ exists l, st' = assign l st.
Proof.
  unfold assign_parsed. destruct saved as [text|]; [|intros [= <-]; by left].
  destruct (String.eqb text ""); [intros [= <-]; by left|].
  destruct (JSON.parse text) as [v| |]; try done.
  destruct (Wallpapers_ofJSON v) as [l|]; [|done].
  intros [= <-]. right. eauto.
Qed.

(** C1 (as the code has it): a key that is absent, or holds the empty
    string, is skipped: its list keeps what it held (nothing, at startup)
    and the two other keys are read as if it were not there.  A key whose
    text fails to parse makes [loadData] throw the [SyntaxError] of
    [JSON.parse] to its caller instead of returning: the keys before it
    have been loaded, its own list and the lists of the keys after it are
    left as they were. *)
Theorem C1_load_skips_absent_keys_and_throws_on_unparsable st :
  let savedHistory := localStorage st !! "userHistory" in
  let savedDemoHistory := localStorage st !! "demoHistory" in
  let savedAllGenerations := localStorage st !! "allGenerations" in
  (forall st', loadData st = Returned st' ->
     (falsy savedHistory -> history st' = history st) /\
     (falsy savedDemoHistory -> demoHistory st' = demoHistory st) /\
     (falsy savedAllGenerations -> allGenerations st' = allGenerations st)) /\
  ((falsy savedHistory ->
      loadData st =
      and_then (assign_parsed savedDemoHistory set_demoHistory st)
        (assign_parsed savedAllGenerations set_allGenerations)) /\
   (falsy savedDemoHistory ->
      loadData st =
      and_then (assign_parsed savedHistory set_history st)
        (assign_parsed savedAllGenerations set_allGenerations)) /\
   (falsy savedAllGenerations ->
      loadData st =
      and_then (assign_parsed savedHistory set_history st)
        (fun st1 => assign_parsed savedDemoHistory set_demoHistory st1))) /\
  (forall text, unparsable text ->
     (savedHistory = Some text -> loadData st = Threw st) /\
     (savedDemoHistory = Some text ->
        (forall st', loadData st <> Returned st') /\
        (forall st1, assign_parsed savedHistory set_history st = Returned st1 ->
                     loadData st = Threw st1 /\
                     demoHistory st1 = demoHistory st /\
                     allGenerations st1 = allGenerations st)) /\
     (savedAllGenerations = Some text ->
        (forall st', loadData st <> Returned st') /\
        (forall st1 st2,
           assign_parsed savedHistory set_history st = Returned st1 ->
           assign_parsed savedDemoHistory set_demoHistory st1 = Returned st2 ->
           loadData st = Threw st2 /\ allGenerations st2 = allGenerations st))).
Proof.
  intros savedHistory savedDemoHistory savedAllGenerations.
  unfold loadData. fold savedHistory savedDemoHistory savedAllGenerations.
  split; [|split].
  - intros st' Hload.
    destruct (assign_parsed savedHistory set_history st) as [st1| |] eqn:H1;
      try done. cbn [and_then] in Hload.
    destruct (assign_parsed savedDemoHistory set_demoHistory st1) as [st2| |] eqn:H2;
      try done. cbn [and_then] in Hload.
    split; [|split]; intros Hf.
    + rewrite (assign_parsed_falsy _ _ _ Hf) in H1. injection H1 as <-.
      apply assign_parsed_Returned in H2 as [->|[l ->]];
        apply assign_parsed_Returned in Hload as [->|[l' ->]]; reflexivity.
    + rewrite (assign_parsed_falsy _ _ _ Hf) in H2. injection H2 as <-.
      apply assign_parsed_Returned in H1 as [->|[l ->]];
        apply assign_parsed_Returned in Hload as [->|[l' ->]]; reflexivity.
    + rewrite (assign_parsed_falsy _ _ _ Hf) in Hload. injection Hload as <-.
      apply assign_parsed_Returned in H1 as [->|[l ->]];
        apply assign_parsed_Returned in H2 as [->|[l' ->]]; reflexivity.
  - split; [|split]; intros Hf.
    + by rewrite (assign_parsed_falsy _ _ _ Hf).
    + destruct (assign_parsed savedHistory set_history st) as [st1| |];
        try done. cbn [and_then]. by rewrite (assign_parsed_falsy _ _ _ Hf).
    + destruct (assign_parsed savedHistory set_history st) as [st1| |];
        try done. cbn [and_then].
      destruct (assign_parsed savedDemoHistory set_demoHistory st1) as [st2| |];
        try done. cbn [and_then]. by rewrite (assign_parsed_falsy _ _ _ Hf).
  - intros text Hbad. split; [|split]; intros Hsaved; rewrite Hsaved.
    + by rewrite (assign_parsed_unparsable _ _ _ Hbad).
    + split.
      * intros st'.
        destruct (assign_parsed savedHistory set_history st) as [st1| |];
          try done. cbn [and_then].
        by rewrite (assign_parsed_unparsable _ _ _ Hbad).
      * intros st1 H1. rewrite H1. cbn [and_then].
        rewrite (assign_parsed_unparsable _ _ _ Hbad). split; [done|].
        apply assign_parsed_Returned in H1 as [->|[l ->]]; done.
    + split.
      * intros st'.
        destruct (assign_parsed savedHistory set_history st) as [st1| |];
          try done. cbn [and_then].
        destruct (assign_parsed savedDemoHistory set_demoHistory st1) as [st2| |];
          try done. cbn [and_then].
        by rewrite (assign_parsed_unparsable _ _ _ Hbad).
      * intros st1 st2 H1 H2. rewrite H1. cbn [and_then]. rewrite H2.
        cbn [and_then]. rewrite (assign_parsed_unparsable _ _ _ Hbad).
        split; [done|].
        apply assign_parsed_Returned in H1 as [->|[l ->]];
          apply assign_parsed_Returned in H2 as [->|[l' ->]]; done.
Qed.


Lemma C1_load_witness :
  let saved :=
    [ mkWallpaper "demo-1700000000000-0" "Epic anime warrior under the moonlight"
        "data:image/jpeg;base64,AAAA" R9_16 1700000000000 demo ] in
  let store : gmap string string :=
    <["allGenerations" := "[{"]>
      (<["demoHistory" := JSON.stringify (Wallpapers_toJSON saved)]> ∅) in
  let st := initial_state unlimited store in
  unparsable "[{" /\
  falsy (localStorage st !! "userHistory") /\
  loadData st = Threw (set_demoHistory saved st).
Proof.
  intros saved store st.
  assert (Hbad : unparsable "[{") by (split; [discriminate|vm_compute; reflexivity]).
  assert (Hf : falsy (localStorage st !! "userHistory")) by (left; reflexivity).
  split; [exact Hbad|]. split; [exact Hf|].
  destruct (C1_load_skips_absent_keys_and_throws_on_unparsable st)
    as (_ & _ & Hthrow).
  destruct (Hthrow "[{" Hbad) as (_ & _ & Hall).
  destruct (Hall ltac:(reflexivity)) as (_ & Hst).
  apply (Hst st (set_demoHistory saved st) ltac:(reflexivity)).
  vm_compute. reflexivity.
Defined.

(** C1, as stated, fails: with a truncated text under [userHistory] and a
    well-formed list under [demoHistory], [loadData] run at startup does
    not return: it throws, the list stored under [demoHistory] has not
    been loaded, and [initializeApp] ends with the same exception. *)
Lemma C1_unparsable_history_counterexample :
  let saved :=
    [ mkWallpaper "demo-1700000000000-0" "Epic anime warrior under the moonlight"
        "data:image/jpeg;base64,AAAA" R9_16 1700000000000 demo ] in
  let store : gmap string string :=
    <["userHistory" := "[{"]>
      (<["demoHistory" := JSON.stringify (Wallpapers_toJSON saved)]> ∅) in
  let st := initial_state unlimited store in
  JSON.parse "[{" = JSON.SyntaxError /\
  JSON.parse (JSON.stringify (Wallpapers_toJSON saved)) =
    JSON.Ok (Wallpapers_toJSON saved) /\
  loadData st = Threw st /\
  (forall st', loadData st <> Returned st') /\
  demoHistory st = [] /\
  initializeApp PROMPT_POOL PROMPT_POOL st =
    Threw (state_after st (applyTheme "dark" st)).
Proof.
  intros saved store st.
  assert (Hload : loadData st = Threw st) by (vm_compute; reflexivity).
  split; [vm_compute; reflexivity|]. split; [vm_compute; reflexivity|].
  split; [exact Hload|].
  split; [rewrite Hload; discriminate|].
  split; [reflexivity|vm_compute; reflexivity].
Qed.

(** * Further properties *)

(** ** The lists only grow *)

(** X1: whatever happens (typing, ratio changes, requests, answers, in
    any interleaving), the three lists only grow at their end: the lists
    of the state before are prefixes of the lists of the state after, so
    no committed entity is ever removed, replaced or moved. *)
Theorem lists_are_append_only st l :
  history st `prefix_of` history (steps st l) /\
  demoHistory st `prefix_of` demoHistory (steps st l) /\
  allGenerations st `prefix_of` allGenerations (steps st l).
Proof.
  destruct (steps_Appends l st) as (us & ds & Hh & Hd & _ & k & Hk).
  split; [by exists us|]. split; [by exists ds|by exists k].
Qed.

(** ** What a committed entity looks like *)

Lemma settled_value_Some prompts e w :
  settled_value prompts e = Some w ->
  is_data_url w /\ source w = demo /\ aspectRatio w = R9_16 /\
  timestamp w = now2 e /\ id w = demo_id (now1 e, index e).
Proof.
  unfold settled_value, then_callback.
  destruct (response e) as [b|]; [|done]. cbn.
  intros [= <-]. split; [by exists b|done].
Qed.

Lemma batch_results_data_url prompts evs :
  Forall is_data_url (batch_results prompts evs).
Proof.
  unfold batch_results. generalize (seq 0 (length prompts)). intros l.
  induction l as [|i l IH]; [constructor|].
  cbn. destruct (completion_of evs i) as [e|]; [|exact IH]. cbn.
  destruct (settled_value prompts e) as [w|] eqn:Hw; [|exact IH].
  constructor; [|exact IH]. by apply settled_value_Some in Hw as [? _].
Qed.

Lemma step_appended_data_url st a :
  exists us ds, Appends st (step st a) us ds /\
                Forall is_data_url us /\ Forall is_data_url ds.
Proof.
  destruct a as [text|ratio| |p r n1 n2|shuffled|prompts evs].
  - exists [], []. split; [by apply Appends_nothing|done].
  - exists [], []. split; [by apply Appends_nothing|done].
  - exists [], []. unfold step, handle, handleFormSubmit_request.
    destruct (String.eqb _ _); (split; [by apply Appends_nothing|done]).
  - destruct r as [b|].
    + destruct (step_SubmitResume_success st p b n1 n2) as (Hh & Ha & Hd & _).
      eexists [_], []. split; [split; rewrite ?app_nil_r; eauto|].
      split; [|done]. constructor; [|done]. by exists b.
    + exists [], []. split; [by apply Appends_nothing|done].
  - exists [], [].
    destruct (foldl_request_image (take demoCount shuffled) st)
      as (Hh & Hd & Ha & _).
    split; [by apply Appends_nothing|done].
  - rewrite step_DemosResume.
    destruct (Promise_all prompts evs) as [values|] eqn:Hp.
    + exists [], (batch_results prompts evs).
      destruct (generateLiveDemos_resume_lists values st) as (Hh & Hd & Ha & _).
      rewrite (Promise_all_results _ _ _ Hp) in Hd, Ha.
      split; [|split; [done|apply batch_results_data_url]].
      split; rewrite ?app_nil_r; auto.
      eapply Forall_impl; [apply batch_results_demo|]. cbn. tauto.
    + exists [], []. split; [by apply Appends_nothing|done].
Qed.

(** X2: every entity the program commits carries a non-empty image
    reference, the data URL built from the answer of the image service:
    starting from lists that have this property (the empty lists of a
    fresh start in particular), every list has it after any steps. *)
Theorem committed_entities_carry_a_data_url l : forall st,
  Forall is_data_url (history st) ->
  Forall is_data_url (demoHistory st) ->
  Forall is_data_url (allGenerations st) ->
  Forall is_data_url (history (steps st l)) /\
  Forall is_data_url (demoHistory (steps st l)) /\
  Forall is_data_url (allGenerations (steps st l)) /\
  Forall (fun w => imageUrl w <> "") (allGenerations (steps st l)).
Proof.
  induction l as [|a l IH]; intros st Hh Hd Ha.
  - split; [done|]. split; [done|]. split; [done|].
    eapply Forall_impl; [exact Ha|]. intros w [b ->]. discriminate.
  - cbn [steps foldl].
    destruct (step_appended_data_url st a) as (us & ds & [Eh Ed Ea _ _] & Hus & Hds).
    apply IH; rewrite ?Eh, ?Ed, ?Ea; repeat (apply Forall_app; split); done.
Qed.

Lemma committed_data_url_witness :
  Forall is_data_url
    (allGenerations
       (steps (initial_state unlimited ∅)
          [ Input "Fantasy knight with a glowing sword"; SubmitRequest;
            SubmitResume "Fantasy knight with a glowing sword" (Some "AAAA")
              1700000000000 1700000000000 ])).
Proof.
  apply (committed_entities_carry_a_data_url _ (initial_state unlimited ∅)); constructor.
Defined.

(** ** Identifiers of demo entities *)

Lemma NoDup_batch_stamps evs (l : list nat) :
  NoDup l ->
  NoDup (omap (fun i => e ← completion_of evs i;
                        if succeeded e then Some (now1 e, i) else None) l).
Proof.
  induction 1 as [|i l Hi Hnd IH]; [constructor|].
  cbn. destruct (completion_of evs i) as [e|]; [|exact IH]. cbn.
  destruct (succeeded e); [|exact IH].
  constructor; [|exact IH].
  intros Hin. apply list_elem_of_omap in Hin as (j & Hj & Hs).
  destruct (completion_of evs j) as [e'|]; [|done]. cbn in Hs.
  destruct (succeeded e'); [|done]. injection Hs as _ <-. done.
Qed.

(** X3: the entities one demo batch commits have pairwise distinct ids,
    whatever the clock readings: the position in the batch is part of
    the id.  No id of a user entity is the id of a demo entity. *)
Theorem batch_ids_are_distinct shuffled evs st :
  exists results,
    demoHistory (generateLiveDemos shuffled evs st) = demoHistory st ++ results /\
    allGenerations (generateLiveDemos shuffled evs st) =
      allGenerations st ++ results /\
    NoDup (id <$> results) /\
    forall z, Number_toString z ∉ id <$> results.
Proof.
  destruct (generateLiveDemos_lists shuffled evs st) as (_ & Hd & Ha & _).
  eexists. split; [exact Hd|]. split; [exact Ha|].
  destruct (Promise_all _ _); [|split; [constructor|intros z Hz; by apply elem_of_nil in Hz]].
  rewrite batch_results_ids. split.
  - apply (NoDup_fmap_2 demo_id), NoDup_batch_stamps, NoDup_seq.
  - intros z (s & Hs & _)%list_elem_of_fmap. by apply user_id_is_no_demo_id in Hs.
Qed.

(** ** A batch waits for all its requests *)

Lemma Promise_all_pending prompts evs i :
  i < length prompts -> completion_of evs i = None ->
  Promise_all prompts evs = None.
Proof.
  intros Hi Hnone. rewrite Promise_all_unfold.
  apply mapM_None_2, Exists_exists. exists i. split.
  - apply elem_of_seq. lia.
  - by rewrite Hnone.
Qed.

(** X4: as long as one request of a demo batch has not completed, the
    batch commits nothing, also not the requests that have succeeded:
    the lists and the store are as before the call and nothing has been
    written. *)
Theorem pending_batch_commits_nothing shuffled evs st i :
  i < length (take demoCount shuffled) ->
  completion_of evs i = None ->
  let st' := generateLiveDemos shuffled evs st in
  st' = (generateLiveDemos_request shuffled st).2 /\
  history st' = history st /\
  demoHistory st' = demoHistory st /\
  allGenerations st' = allGenerations st /\
  localStorage st' = localStorage st /\
  writes st' = writes st.
Proof.
  intros Hi Hnone st'. subst st'.
  rewrite generateLiveDemos_unfold. cbv zeta.
  rewrite (Promise_all_pending _ _ _ Hi Hnone).
  destruct (foldl_request_image (take demoCount shuffled) st)
    as (Hh & Hd & Ha & _ & _ & _ & Hs & _).
  split; [reflexivity|]. split; [exact Hh|]. split; [exact Hd|].
  split; [exact Ha|]. split; [exact Hs|apply writes_requests_sent].
Qed.

Lemma pending_batch_witness :
  let evs :=
    [ mkSettlement 0 (Some "AAAA") 1700000000010 1700000000010;
      mkSettlement 1 (Some "BBBB") 1700000000020 1700000000020;
      mkSettlement 3 (Some "DDDD") 1700000000030 1700000000030 ] in
  demoHistory (generateLiveDemos PROMPT_POOL evs (initial_state unlimited ∅)) = [].
Proof.
  intros evs.
  destruct (pending_batch_commits_nothing PROMPT_POOL evs (initial_state unlimited ∅) 2)
    as (_ & _ & Hd & _).
  - cbn. lia.
  - reflexivity.
  - exact Hd.
Defined.

(** ** The two halves of a submit *)

(** X5: the request of a submit carries the aspect ratio selected when
    the form is submitted, the entity the ratio selected when the answer
    arrives: a selection made in between ends up in the entity, although
    the image was requested with the other ratio. *)
Theorem ratio_of_request_and_entity text ratio bytes n1 n2 st :
  trim text <> "" ->
  let st' :=
    steps st [ Input text; SubmitRequest; AspectRatioChange ratio;
               SubmitResume (trim text) (Some bytes) n1 n2 ] in
  filter is_generateImages (calls st') =
    filter is_generateImages (calls st) ++
    [generateImages (styled (trim text)) (selectedAspectRatio st)] /\
  exists w, history st' = history st ++ [w] /\
            allGenerations st' = allGenerations st ++ [w] /\
            aspectRatio w = ratio /\ prompt w = trim text.
Proof.
  intros Hne st'. subst st'. cbn [steps foldl].
  set (st2 := step (step (step st (Input text)) SubmitRequest)
                (AspectRatioChange ratio)).
  destruct (step_SubmitResume_success st2 (trim text) bytes n1 n2)
    as (Hh & Ha & _ & _ & _ & _ & _ & Hg).
  assert (Hst2 : st2 =
            set_selectedAspectRatio ratio
              (request_image (trim text) (selectedAspectRatio st)
                 (set_promptInput text st))).
  { subst st2. unfold step at 2. cbn [handle state_after].
    rewrite handleFormSubmit_request_nonempty by done. reflexivity. }
  rewrite Hh, Ha, Hg, Hst2.
  cbn [calls history allGenerations set_selectedAspectRatio request_image
       log_call set_promptInput selectedAspectRatio].
  rewrite filter_app. split; [done|].
  eexists. repeat split; reflexivity.
Qed.

Lemma ratio_of_request_and_entity_witness :
  let st' :=
    steps (initial_state unlimited ∅)
      [ Input "Fantasy knight with a glowing sword"; SubmitRequest;
        AspectRatioChange R16_9;
        SubmitResume (trim "Fantasy knight with a glowing sword") (Some "AAAA")
          1700000000000 1700000000000 ] in
  aspectRatio <$> history st' = [R16_9].
Proof.
  intros st'.
  destruct (ratio_of_request_and_entity "Fantasy knight with a glowing sword"
              R16_9 "AAAA" 1700000000000 1700000000000 (initial_state unlimited ∅))
    as (_ & w & Hh & _ & Hr & _).
  - vm_compute. discriminate.
  - subst st'. rewrite Hh. cbn. by rewrite Hr.
Defined.

(** X6: a submit with a prompt that is not blank sends exactly one
    request, for the trimmed prompt with the style suffix and the
    selected ratio, and its continuation never sends another, whatever
    the answer and whatever happened in between: a failure is not
    retried.  The continuation returns after a failure, with the state as
    it found it, so the prompt input keeps its text and the store is
    untouched.  After a success the prompt input is emptied when
    [saveData] returns; when [saveData] throws, the entity is in the two
    lists all the same, and the prompt input keeps what it held. *)
Theorem submit_sends_one_request st st2 prompt n1 n2 :
  trim (promptInput st) <> "" ->
  let st1 := (handleFormSubmit_request st).2 in
  filter is_generateImages (calls st1) =
    filter is_generateImages (calls st) ++
    [generateImages (styled (trim (promptInput st))) (selectedAspectRatio st)] /\
  handleFormSubmit_resume prompt (generateWallpaper_result None) n1 n2 st2 =
    Returned st2 /\
  (forall bytes,
     exists st3,
       (handleFormSubmit_resume prompt (generateWallpaper_result (Some bytes))
          n1 n2 st2 = Returned st3 /\
        promptInput st3 = ""
        \/
        handleFormSubmit_resume prompt (generateWallpaper_result (Some bytes))
          n1 n2 st2 = Threw st3 /\
        promptInput st3 = promptInput st2) /\
       filter is_generateImages (calls st3) =
         filter is_generateImages (calls st2) /\
       length (history st3) = S (length (history st2)) /\
       demoPrompts st3 = demoPrompts st2 /\
       selectedAspectRatio st3 = selectedAspectRatio st2).
Proof.
  intros Hne st1. subst st1.
  rewrite (handleFormSubmit_request_nonempty st Hne).
  cbn [snd calls request_image log_call]. rewrite filter_app.
  split; [done|]. split; [done|]. intros bytes.
  destruct (handleFormSubmit_resume_ends prompt bytes n1 n2 st2)
    as (st3 & Hend & Hh & _ & _ & Hp & Hr & _ & _ & _ & _ & Hg).
  exists st3. split.
  - destruct Hend as [(He & Hi & _)|(He & Hi)]; [by left|by right].
  - rewrite Hh, length_app. cbn [length]. repeat split; try done. lia.
Qed.

(** The same submit in a browser with room and in one without: the
    entity is committed both times, the prompt input is emptied only in
    the first. *)
Lemma submit_sends_one_request_witness :
  let text := " A ninja moving silently through the shadows" in
  let roomy := set_promptInput text (initial_state unlimited ∅) in
  let full := set_promptInput text (initial_state (capacity 100) ∅) in
  let answer st :=
    step (handleFormSubmit_request st).2
      (SubmitResume (trim text) (Some "AAAA") 1700000000000 1700000000000) in
  requests (handleFormSubmit_request roomy).2 = 1 /\
  (promptInput (answer roomy) = "" /\ length (history (answer roomy)) = 1) /\
  (promptInput (answer full) = text /\ length (history (answer full)) = 1 /\
   localStorage (answer full) = ∅).
Proof.
  intros text roomy full answer.
  assert (Hne : trim (promptInput roomy) <> "") by (vm_compute; discriminate).
  destruct (submit_sends_one_request roomy roomy (trim text)
              1700000000000 1700000000000 Hne) as (Hreq & _).
  split; [unfold requests; rewrite Hreq; reflexivity|].
  split; vm_compute; done.
Defined.

(** ** Trimming *)

Lemma chars_rev_app s t :
  list_ascii_of_string (String.rev_app s t) =
  rev (list_ascii_of_string s) ++ list_ascii_of_string t.
Proof.
  revert t. induction s as [|c s IH]; intros t; [reflexivity|].
  cbn. rewrite IH. cbn. by rewrite <- app_assoc.
Qed.

Lemma chars_rev s :
  list_ascii_of_string (String.rev s) = rev (list_ascii_of_string s).
Proof. unfold String.rev. rewrite chars_rev_app. cbn. by rewrite app_nil_r. Qed.

Lemma chars_nil s : list_ascii_of_string s = [] -> s = "".
Proof. by destruct s. Qed.

Lemma chars_inj s t : list_ascii_of_string s = list_ascii_of_string t -> s = t.
Proof.
  intros H. rewrite <- (string_of_list_ascii_of_string s),
    <- (string_of_list_ascii_of_string t). by rewrite H.
Qed.

Lemma chars_trimStart s :
  list_ascii_of_string (trimStart s) = trimStart_chars (list_ascii_of_string s).
Proof.
  induction s as [|c s IH]; [reflexivity|].
  cbn. destruct (isWhiteSpace c); [exact IH|reflexivity].
Qed.

Lemma chars_trim s :
  list_ascii_of_string (trim s) = trim_chars (list_ascii_of_string s).
Proof.
  unfold trim, trimEnd, trim_chars.
  by rewrite chars_rev, chars_trimStart, chars_rev, chars_trimStart.
Qed.

Lemma trimStart_chars_nil l :
  trimStart_chars l = [] <-> Forall (fun c => isWhiteSpace c = true) l.
Proof.
  induction l as [|c l IH]; [done|]. cbn.
  destruct (isWhiteSpace c) eqn:Hc.
  - rewrite IH. split; [by constructor|by intros [_ ?]%Forall_cons].
  - split; [done|]. intros [? _]%Forall_cons. congruence.
Qed.

Lemma trimStart_chars_fixed c l :
  isWhiteSpace c = false -> trimStart_chars (c :: l) = c :: l.
Proof. intros Hc. cbn. by rewrite Hc. Qed.

Lemma trimStart_chars_head l :
  trimStart_chars l = [] \/
  exists c k, trimStart_chars l = c :: k /\ isWhiteSpace c = false.
Proof.
  induction l as [|c l IH]; [by left|]. cbn.
  destruct (isWhiteSpace c) eqn:Hc; [exact IH|right; eauto].
Qed.

Lemma trimStart_chars_snoc l c :
  isWhiteSpace c = false ->
  exists k, trimStart_chars (l ++ [c]) = k ++ [c].
Proof.
  intros Hc. induction l as [|d l IH].
  - exists []. cbn. by rewrite Hc.
  - cbn. destruct (isWhiteSpace d); [exact IH|]. by exists (d :: l).
Qed.

Lemma trimStart_chars_idem l :
  trimStart_chars (trimStart_chars l) = trimStart_chars l.
Proof.
  destruct (trimStart_chars_head l) as [->|(c & k & -> & Hc)]; [done|].
  by apply trimStart_chars_fixed.
Qed.

(** The shape of a trimmed text: empty, or with a visible first and last
    character. *)
Lemma trim_chars_shape l :
  trim_chars l = [] \/
  exists c k, trim_chars l = c :: k /\ isWhiteSpace c = false /\
              trimStart_chars (rev (c :: k)) = rev (c :: k).
Proof.
  unfold trim_chars.
  destruct (trimStart_chars_head l) as [->|(c & k & -> & Hc)]; [by left|].
  right. cbn [rev].
  destruct (trimStart_chars_snoc (rev k) c Hc) as (v & Hv).
  rewrite Hv, rev_app_distr. cbn [rev List.app].
  exists c, (rev v). split; [done|]. split; [done|].
  cbn [rev]. rewrite rev_involutive, <- Hv. apply trimStart_chars_idem.
Qed.

Lemma trim_chars_idem l : trim_chars (trim_chars l) = trim_chars l.
Proof.
  destruct (trim_chars_shape l) as [->|(c & k & -> & Hc & Hrev)]; [done|].
  unfold trim_chars at 1. rewrite (trimStart_chars_fixed c k Hc), Hrev.
  apply rev_involutive.
Qed.

Lemma trim_chars_nil l :
  trim_chars l = [] <-> Forall (fun c => isWhiteSpace c = true) l.
Proof.
  split.
  - unfold trim_chars. intros H.
    apply (f_equal (@rev ascii)) in H. rewrite rev_involutive in H. cbn in H.
    apply trimStart_chars_nil in H.
    apply Forall_rev in H. rewrite rev_involutive in H.
    apply trimStart_chars_nil.
    destruct (trimStart_chars_head l) as [->|(c & k & Hk & Hc)]; [done|].
    rewrite Hk in H. apply Forall_cons in H as [? _]. congruence.
  - intros H. unfold trim_chars.
    by rewrite (proj2 (trimStart_chars_nil l) H).
Qed.

Lemma trim_idem s : trim (trim s) = trim s.
Proof. apply chars_inj. by rewrite !chars_trim, trim_chars_idem. Qed.

Lemma trim_nil s :
  trim s = "" <-> Forall (fun c => isWhiteSpace c = true) (list_ascii_of_string s).
Proof.
  rewrite <- trim_chars_nil, <- chars_trim. split; [by intros ->|apply chars_nil].
Qed.

Lemma visible_character l :
  Exists (fun c => isWhiteSpace c = false) l <->
  ~ Forall (fun c => isWhiteSpace c = true) l.
Proof.
  induction l as [|c l IH].
  - split; [by intros ?%Exists_nil|]. intros H. by destruct H.
  - rewrite Exists_cons, Forall_cons, IH.
    destruct (isWhiteSpace c); split; try tauto.
    + intros [?|?]; [done|tauto].
    + intros _ [? _]. done.
Qed.

(** X7: [handleFormSubmit] sends a request exactly when the text of the
    prompt input has a character that is not white space, and then for
    the text without its leading and trailing white space; a text of
    white space only (or no text) leaves the state as it is. *)
Theorem request_iff_visible_character st :
  (Exists (fun c => isWhiteSpace c = false)
     (list_ascii_of_string (promptInput st)) <->
   handleFormSubmit_request st =
     (Some (trim (promptInput st)),
      request_image (trim (promptInput st)) (selectedAspectRatio st) st)) /\
  (Forall (fun c => isWhiteSpace c = true)
     (list_ascii_of_string (promptInput st)) <->
   handleFormSubmit_request st = (None, st)) /\
  trim (trim (promptInput st)) = trim (promptInput st).
Proof.
  split; [|split; [|apply trim_idem]].
  - rewrite visible_character, <- trim_nil.
    unfold handleFormSubmit_request.
    destruct (String.eqb_spec (trim (promptInput st)) "") as [He|Hne].
    + split; [done|]. by intros [= ?].
    + done.
  - rewrite <- trim_nil. unfold handleFormSubmit_request.
    destruct (String.eqb_spec (trim (promptInput st)) "") as [He|Hne].
    + done.
    + split; [done|]. by intros [= ?].
Qed.

Lemma handleFormSubmit_request_trimmed st p st1 :
  handleFormSubmit_request st = (Some p, st1) ->
  p = trim (promptInput st) /\ trimmed p.
Proof.
  unfold handleFormSubmit_request.
  destruct (String.eqb_spec (trim (promptInput st)) "") as [|Hne]; [done|].
  intros [= <- _]. split; [done|]. split; [done|apply trim_idem].
Qed.

(** X8: the prompt stored in a user entity is the text of the prompt
    input as it was when the form was submitted, without leading and
    trailing white space, and never empty.  In any run (typing, ratio
    selections, submits, demo batches, interleaved at will) in which
    every answer goes to a submit that sent its request earlier, a
    history of entities with such prompts stays one. *)
Theorem stored_prompts_are_trimmed l : forall pending st,
  answers_follow_requests pending st l ->
  Forall trimmed pending ->
  Forall (fun w => trimmed (prompt w)) (history st) ->
  Forall (fun w => trimmed (prompt w)) (history (steps st l)).
Proof.
  induction l as [|a l IH]; intros pending st Hl Hp Hst; [exact Hst|].
  cbn [steps foldl].
  destruct a as [text|ratio| |p r n1 n2|shuffled|prompts evs];
    cbn [answers_follow_requests] in Hl.
  - by apply (IH pending).
  - by apply (IH pending).
  - eapply IH; [exact Hl| |].
    + destruct (handleFormSubmit_request st) as [[p|] st1] eqn:Hreq; [|done].
      cbn [fst]. constructor; [|done].
      by apply handleFormSubmit_request_trimmed in Hreq as [_ ?].
    + unfold step, handle, handleFormSubmit_request.
      by destruct (String.eqb _ _).
  - destruct Hl as [Hin Hl]. apply (IH pending); [done..|].
    destruct r as [bytes|]; [|by rewrite step_SubmitResume_failure].
    destruct (step_SubmitResume_success st p bytes n1 n2) as (-> & _).
    apply Forall_app. split; [done|]. constructor; [|done].
    by apply (proj1 (Forall_forall _ _) Hp).
  - apply (IH pending); [done..|].
    unfold step. cbn [handle state_after generateLiveDemos_request snd].
    by destruct (foldl_request_image (take demoCount shuffled) st) as (-> & _).
  - apply (IH pending); [done..|]. rewrite step_DemosResume.
    destruct (Promise_all prompts evs) as [values|]; [|done].
    by destruct (generateLiveDemos_resume_lists values st) as (-> & _).
Qed.

Lemma stored_prompts_witness :
  let l :=
    [ Input "  Gundam-style mech in a dynamic pose  "; SubmitRequest;
      Input "something else"; AspectRatioChange R1_1;
      SubmitResume "Gundam-style mech in a dynamic pose" (Some "AAAA")
        1700000000000 1700000000000 ] in
  answers_follow_requests [] (initial_state unlimited ∅) l /\
  Forall (fun w => trimmed (prompt w))
    (history (steps (initial_state unlimited ∅) l)).
Proof.
  intros l.
  assert (Hl : answers_follow_requests [] (initial_state unlimited ∅) l).
  { split; [|exact I]. apply list_elem_of_here. }
  split; [exact Hl|].
  apply (stored_prompts_are_trimmed l [] (initial_state unlimited ∅) Hl);
    constructor.
Defined.

(** ** The store *)

Lemma assign_parsed_frame saved assign st st' :
  (forall l s, demoPrompts (assign l s) = demoPrompts s /\
               selectedAspectRatio (assign l s) = selectedAspectRatio s /\
               promptInput (assign l s) = promptInput s /\
               localStorage (assign l s) = localStorage s /\
               calls (assign l s) = calls s /\
               dataTheme (assign l s) = dataTheme s /\
               quota (assign l s) = quota s) ->
  assign_parsed saved assign st = Returned st' ->
  demoPrompts st' = demoPrompts st /\
  selectedAspectRatio st' = selectedAspectRatio st /\
  promptInput st' = promptInput st /\
  localStorage st' = localStorage st /\
  calls st' = calls st /\
  dataTheme st' = dataTheme st /\
  quota st' = quota st.
Proof.
  intros Hassign [->|[l ->]]%assign_parsed_Returned; [done|apply Hassign].
Qed.

Lemma assign_parsed_Threw saved assign st st' :
  assign_parsed saved assign st = Threw st' -> st' = st.
Proof.
  unfold assign_parsed. destruct saved as [text|]; [|done].
  destruct (String.eqb text ""); [done|].
  destruct (JSON.parse text) as [v| |]; try done.
  - by destruct (Wallpapers_ofJSON v).
  - by intros [= <-].
Qed.

Lemma loadData_frame st st' :
  loadData st = Returned st' \/ loadData st = Threw st' ->
  localStorage st' = localStorage st /\
  calls st' = calls st /\
  demoPrompts st' = demoPrompts st /\
  selectedAspectRatio st' = selectedAspectRatio st /\
  promptInput st' = promptInput st /\
  dataTheme st' = dataTheme st /\
  quota st' = quota st.
Proof.
  unfold loadData.
  set (s1 := localStorage st !! "userHistory").
  set (s2 := localStorage st !! "demoHistory").
  set (s3 := localStorage st !! "allGenerations").
  intros H.
  destruct (assign_parsed s1 set_history st) as [st1| |] eqn:H1;
    cbn [and_then] in H.
  - apply assign_parsed_frame in H1 as (E1 & E2 & E3 & E4 & E5 & E6 & E7); [|done].
    destruct (assign_parsed s2 set_demoHistory st1) as [st2| |] eqn:H2;
      cbn [and_then] in H.
    + apply assign_parsed_frame in H2 as (F1 & F2 & F3 & F4 & F5 & F6 & F7); [|done].
      destruct H as [H|H].
      * apply assign_parsed_frame in H as (G1 & G2 & G3 & G4 & G5 & G6 & G7); [|done].
        repeat split; congruence.
      * apply assign_parsed_Threw in H as ->. repeat split; congruence.
    + apply assign_parsed_Threw in H2 as ->.
      destruct H as [H|H]; [done|]. injection H as <-. done.
    + by destruct H.
  - apply assign_parsed_Threw in H1 as ->.
    destruct H as [H|H]; [done|]. by injection H as <-.
  - by destruct H.
Qed.

(** X9: [loadData] only ever assigns the three lists: whether it returns
    or throws, the store, the log of outbound calls, the demo prompts,
    the selected ratio, the prompt input and the theme are as before; it
    writes nothing and requests nothing. *)
Theorem loadData_only_assigns_lists st st' :
  loadData st = Returned st' \/ loadData st = Threw st' ->
  localStorage st' = localStorage st /\
  calls st' = calls st /\
  demoPrompts st' = demoPrompts st /\
  selectedAspectRatio st' = selectedAspectRatio st /\
  promptInput st' = promptInput st /\
  dataTheme st' = dataTheme st /\
  quota st' = quota st.
Proof. apply loadData_frame. Qed.

Lemma loadData_only_assigns_lists_witness :
  let st := request_image "Epic anime warrior under the moonlight" R1_1
              (initial_state unlimited (<["userHistory" := "[]"]> ∅)) in
  calls st <> [] /\ loadData st = Returned st.
Proof.
  intros st.
  assert (Hload : loadData st = Returned st) by (vm_compute; reflexivity).
  split; [discriminate|].
  destruct (loadData_only_assigns_lists st st (or_introl Hload)) as (_ & _).
  exact Hload.
Defined.

Lemma saveData_other_keys st st' key :
  saveData st = Returned st' \/ saveData st = Threw st' ->
  key <> "userHistory" -> key <> "demoHistory" -> key <> "allGenerations" ->
  localStorage st' !! key = localStorage st !! key.
Proof.
  intros Hend H1 H2 H3.
  assert (Hset : forall k v s s',
            localStorage_setItem k v s = Returned s' \/
            localStorage_setItem k v s = Threw s' ->
            key <> k -> localStorage s' !! key = localStorage s !! key).
  { intros k v s s' Hs Hk. unfold localStorage_setItem in Hs.
    destruct (quota s (localStorage s) k v);
      destruct Hs as [[= <-]|[= <-]]; cbn [localStorage set_localStorage log_call];
      [by rewrite lookup_insert_ne|done]. }
  revert Hend. Local Transparent saveData. unfold saveData. Local Opaque saveData.
  destruct (localStorage_setItem "userHistory" _ st) as [st1|st1|] eqn:E1;
    cbn [and_then]; [|intros [[=]|[= <-]]; eapply Hset; [right|]; done|
                     intros [[=]|[=]]].
  destruct (localStorage_setItem "demoHistory" _ st1) as [st2|st2|] eqn:E2;
    cbn [and_then]; [|intros [[=]|[= <-]]|intros [[=]|[=]]].
  - intros Hend. rewrite (Hset _ _ _ _ Hend) by done.
    rewrite (Hset _ _ _ _ (or_introl E2)) by done.
    by rewrite (Hset _ _ _ _ (or_introl E1)).
  - rewrite (Hset _ _ _ _ (or_intror E2)) by done.
    by rewrite (Hset _ _ _ _ (or_introl E1)).
Qed.

(** X10: [saveData] writes the three gallery keys and no other: however
    it ends, every other key of the store (the theme, say) keeps its
    value and the lists in memory are untouched.  When it returns, the
    store has the three keys beside those it had, and saving again
    leaves the store as it is. *)
Theorem saveData_writes_three_keys st st' :
  saveData st = Returned st' \/ saveData st = Threw st' ->
  (forall key, key <> "userHistory" -> key <> "demoHistory" ->
               key <> "allGenerations" ->
               localStorage st' !! key = localStorage st !! key) /\
  history st' = history st /\
  demoHistory st' = demoHistory st /\
  allGenerations st' = allGenerations st /\
  (saveData st = Returned st' ->
   dom (localStorage st') =
     {["userHistory"; "demoHistory"; "allGenerations"]} ∪ dom (localStorage st) /\
   forall st'', saveData st' = Returned st'' ->
                localStorage st'' = localStorage st').
Proof.
  intros Hend.
  split; [intros key; by apply saveData_other_keys|].
  destruct (saveData_ends st) as (st0 & Hend0 & V & _).
  assert (st0 = st') as ->
    by (destruct Hend as [H|H], Hend0 as [H'|H']; congruence).
  destruct V as (Vh & Vd & Va & _).
  do 3 (split; [done|]).
  intros Hret. apply saveData_Returned in Hret as (_ & Hs & _).
  split.
  - rewrite Hs. unfold saved_store. rewrite !dom_insert_L.
    apply set_eq. intros key.
    rewrite !elem_of_union, !elem_of_singleton. tauto.
  - intros st'' Hret'. apply saveData_Returned in Hret' as (_ & Hs' & _).
    rewrite Hs'. unfold saved_store. rewrite Vh, Vd, Va.
    destruct (saved_lookups st) as (Hu & Hd & Ha). rewrite <- Hs in Hu, Hd, Ha.
    rewrite (insert_id _ "userHistory") by done.
    rewrite (insert_id _ "demoHistory") by done.
    by rewrite (insert_id _ "allGenerations").
Qed.

Lemma saveData_writes_three_keys_witness :
  let st := initial_state unlimited (<["theme" := "light"]> ∅) in
  exists st',
    saveData st = Returned st' /\
    localStorage st' !! "theme" = Some "light" /\
    localStorage st' !! "userHistory" = Some "[]".
Proof.
  intros st.
  destruct (saveData_returns st) as (st' & Hret); [done|].
  exists st'. split; [exact Hret|].
  destruct (saveData_writes_three_keys st st' (or_introl Hret)) as (Hkeys & _).
  split; [by rewrite Hkeys|].
  apply saveData_Returned in Hret as (_ & -> & _). reflexivity.
Defined.

Lemma restorable_saveData st st' : saveData st = Returned st' -> restorable st'.
Proof.
  intros (V & Hs & _)%saveData_Returned.
  destruct V as (Vh & Vd & Va & _).
  unfold restorable, initial_state. rewrite Hs, loadData_saved_store.
  eexists. split; [reflexivity|]. by rewrite Vh, Vd, Va.
Qed.

Lemma restorable_same st st' :
  localStorage st' = localStorage st -> quota st' = quota st ->
  history st' = history st ->
  demoHistory st' = demoHistory st -> allGenerations st' = allGenerations st ->
  restorable st -> restorable st'.
Proof. unfold restorable. by intros -> -> -> -> ->. Qed.

Lemma step_restorable st a :
  restorable st -> returned (handle st a) = true -> restorable (step st a).
Proof.
  intros Hst Hret. unfold step.
  destruct a as [text|ratio| |p r n1 n2|shuffled|prompts evs];
    cbn [handle] in *.
  - by apply (restorable_same st).
  - by apply (restorable_same st).
  - unfold handleFormSubmit_request.
    destruct (String.eqb _ _); by apply (restorable_same st).
  - destruct r as [bytes|]; [|done].
    rewrite handleFormSubmit_resume_success in *.
    destruct (saveData _) as [st3|st3|] eqn:Hs; [|done..].
    cbn [and_then state_after].
    eapply restorable_same; [| | | | |by eapply restorable_saveData];
      reflexivity.
  - destruct (foldl_request_image (take demoCount shuffled) st)
      as (Hh & Hd & Ha & _ & _ & _ & Hs & _).
    cbn [state_after generateLiveDemos_request snd].
    apply (restorable_same st); try done.
    apply foldl_request_image_frame.
  - destruct (Promise_all prompts evs) as [values|]; [|done].
    unfold generateLiveDemos_resume in *.
    destruct (omap (fun v => v) values) as [|w results]; [done|].
    cbn [length Nat.ltb Nat.leb] in *.
    destruct (saveData _) as [st3|st3|] eqn:Hs; [|done..].
    by eapply restorable_saveData.
Qed.

Lemma step_quota st a : quota (step st a) = quota st.
Proof.
  unfold step.
  destruct a as [text|ratio| |p r n1 n2|shuffled|prompts evs]; cbn [handle].
  - done.
  - done.
  - unfold handleFormSubmit_request. by destruct (String.eqb _ _).
  - destruct r as [bytes|]; [|done].
    destruct (handleFormSubmit_resume_ends p bytes n1 n2 st)
      as (st' & Hend & _ & _ & _ & _ & _ & _ & Hq & _).
    by destruct Hend as [(-> & _)|(-> & _)].
  - cbn [state_after generateLiveDemos_request snd].
    apply foldl_request_image_frame.
  - destruct (Promise_all prompts evs) as [values|]; [|done].
    destruct (generateLiveDemos_resume_ends values st)
      as (st' & Hend & _ & _ & _ & _ & _ & _ & _ & Hq & _).
    by destruct Hend as [-> | ->].
Qed.

Lemma steps_quota l : forall st, quota (steps st l) = quota st.
Proof.
  induction l as [|a l IH]; intros st; [done|].
  cbn [steps foldl]. unfold steps in IH. by rewrite IH, step_quota.
Qed.

(** X11: as long as the browser accepts the writes, the store holds
    what a new session needs.  Once [loadData] has returned at startup,
    after any steps none of which ended with an exception (submits and
    demo batches, succeeding or failing, in any interleaving) a
    [loadData] on the store as it then is, run from the empty lists of a
    new session, returns and yields the three lists of the current
    state. *)
Theorem new_session_restores_lists quota store st0 l :
  loadData (initial_state quota store) = Returned st0 ->
  steps_return st0 l = true ->
  exists st',
    loadData (initial_state quota (localStorage (steps st0 l))) = Returned st' /\
    history st' = history (steps st0 l) /\
    demoHistory st' = demoHistory (steps st0 l) /\
    allGenerations st' = allGenerations (steps st0 l).
Proof.
  intros Hload Hret.
  destruct (loadData_frame _ _ (or_introl Hload))
    as (Hs & _ & _ & _ & _ & _ & Hq).
  cbn in Hs, Hq.
  assert (H0 : restorable st0).
  { exists st0. by rewrite Hs, Hq. }
  assert (Hall : restorable (steps st0 l)).
  { clear Hload Hs Hq. revert st0 H0 Hret.
    induction l as [|a l IH]; intros st0 H0 Hret; [exact H0|].
    cbn [steps foldl steps_return] in *.
    apply andb_prop in Hret as [Ha Hl].
    apply IH; [by apply step_restorable|done]. }
  unfold restorable in Hall. by rewrite steps_quota, Hq in Hall.
Qed.

Lemma new_session_witness :
  let l :=
    [ Input "Fantasy knight with a glowing sword"; SubmitRequest;
      DemosRequest PROMPT_POOL;
      SubmitResume "Fantasy knight with a glowing sword" (Some "AAAA")
        1700000000000 1700000000000 ] in
  let st0 := initial_state unlimited ∅ in
  let st := steps st0 l in
  loadData st0 = Returned st0 /\
  steps_return st0 l = true /\
  exists st', loadData (initial_state unlimited (localStorage st)) = Returned st' /\
              history st' = history st.
Proof.
  intros l st0 st.
  assert (H0 : loadData st0 = Returned st0) by reflexivity.
  assert (Hret : steps_return st0 l = true) by (vm_compute; reflexivity).
  split; [exact H0|]. split; [exact Hret|].
  destruct (new_session_restores_lists unlimited ∅ st0 l H0 Hret)
    as (st' & Hl & Hh & _).
  exists st'. by split.
Defined.

(** When the browser refuses a write, store and lists part.  Here the
    origin has room for 250 code units: the first two writes of
    [saveData] go through, the third, of [allGenerations], is refused.
    The handler ends with the exception, the entity in both lists; a new
    session finds it in [history] and not in [allGenerations]. *)
Example refused_write_splits_the_lists :
  let l :=
    [ Input "Fantasy knight with a glowing sword"; SubmitRequest;
      SubmitResume "Fantasy knight with a glowing sword" (Some "AAAA")
        1700000000000 1700000000000 ] in
  let st := steps (initial_state (capacity 250) ∅) l in
  steps_return (initial_state (capacity 250) ∅) l = false /\
  length (history st) = 1 /\ length (allGenerations st) = 1 /\
  writes st = 3 /\
  promptInput st = "Fantasy knight with a glowing sword" /\
  exists st',
    loadData (initial_state (capacity 250) (localStorage st)) = Returned st' /\
    length (history st') = 1 /\ length (allGenerations st') = 0.
Proof.
  intros l st. repeat split; try (vm_compute; reflexivity).
  eexists. split; [vm_compute; reflexivity|]. split; reflexivity.
Qed.

(** ** Rotation keeps the set in order *)

Lemma replaced_is_gone (l : list string) i x y :
  NoDup l -> l !! i = Some x -> y ∉ l -> x ∉ <[i := y]> l.
Proof.
  intros Hnd Hi Hy Hin.
  apply list_elem_of_lookup_1 in Hin as (j & Hj).
  destruct (decide (i = j)) as [<-|Hne].
  - rewrite list_lookup_insert_eq in Hj by (by eapply lookup_lt_Some).
    injection Hj as ->. apply Hy. by eapply list_elem_of_lookup_2.
  - rewrite list_lookup_insert_ne in Hj by done.
    by pose proof (NoDup_lookup _ _ _ _ Hnd Hi Hj).
Qed.

Lemma insert_subseteq (l pool : list string) i y :
  l ⊆ pool -> y ∈ pool -> <[i := y]> l ⊆ pool.
Proof.
  intros Hl Hy x Hx. apply list_elem_of_lookup_1 in Hx as (j & Hj).
  destruct (decide (i = j)) as [<-|Hne].
  - destruct (decide (i < length l)) as [Hlt|Hge].
    + rewrite list_lookup_insert_eq in Hj by done. by injection Hj as <-.
    + rewrite list_insert_ge in Hj by lia. apply Hl.
      by eapply list_elem_of_lookup_2.
  - rewrite list_lookup_insert_ne in Hj by done.
    apply Hl. by eapply list_elem_of_lookup_2.
Qed.

Lemma refreshDemoPrompt_in_Some pool usedPrompt random fuel st st' :
  pool <> [] ->
  NoDup (demoPrompts st) ->
  demoPrompts st ⊆ pool ->
  usedPrompt ∈ demoPrompts st ->
  refreshDemoPrompt_in pool usedPrompt random fuel st = Some st' ->
  NoDup (demoPrompts st') /\
  demoPrompts st' ⊆ pool /\
  length (demoPrompts st') = length (demoPrompts st) /\
  (usedPrompt ∉ demoPrompts st') /\
  (exists i newPrompt,
     demoPrompts st !! i = Some usedPrompt /\
     demoPrompts st' !! i = Some newPrompt /\
     (newPrompt ∉ demoPrompts st) /\
     forall j, j <> i -> demoPrompts st' !! j = demoPrompts st !! j) /\
  st' = set_demoPrompts (demoPrompts st') st.
Proof.
  intros Hne Hnd Hsub Hin. unfold refreshDemoPrompt_in.
  destruct (indexOf_elem_of _ _ Hin) as (i & -> & Hi).
  destruct (resample pool (demoPrompts st) random 0 fuel) as [p|] eqn:Hp; [|done].
  intros [= <-]. cbn [demoPrompts set_demoPrompts].
  apply resample_result in Hp as [Hfresh Hpool]; [|done].
  split; [by apply NoDup_replace|]. split; [by apply insert_subseteq|].
  split; [apply length_insert|]. split; [by apply replaced_is_gone|].
  split; [|done].
  exists i, p. split; [done|]. split.
  - apply list_lookup_insert_eq. by eapply lookup_lt_Some.
  - split; [done|]. intros j Hj. by apply list_lookup_insert_ne.
Qed.

(** X12: a rotation that returns keeps the rotating set in order: the
    set has the same size, is still duplicate-free and still drawn from
    the pool; the used prompt has left the set, its slot holds a prompt
    of the pool that was not shown, the other slots are as before, and
    nothing else of the state has changed. *)
Theorem rotation_keeps_the_set pool usedPrompt random fuel st st' :
  pool <> [] ->
  NoDup (demoPrompts st) ->
  demoPrompts st ⊆ pool ->
  usedPrompt ∈ demoPrompts st ->
  refreshDemoPrompt_in pool usedPrompt random fuel st = Some st' ->
  NoDup (demoPrompts st') /\
  demoPrompts st' ⊆ pool /\
  length (demoPrompts st') = length (demoPrompts st) /\
  (usedPrompt ∉ demoPrompts st') /\
  (exists i newPrompt,
     demoPrompts st !! i = Some usedPrompt /\
     demoPrompts st' !! i = Some newPrompt /\
     (newPrompt ∉ demoPrompts st) /\
     forall j, j <> i -> demoPrompts st' !! j = demoPrompts st !! j) /\
  st' = set_demoPrompts (demoPrompts st') st.
Proof. apply refreshDemoPrompt_in_Some. Qed.

Lemma rotation_keeps_the_set_witness :
  let st := set_demoPrompts (take 3 PROMPT_POOL) (initial_state unlimited ∅) in
  let random := fun k : nat => match k with 0 => 2 | _ => 9 end in
  demoPrompts <$> refreshDemoPrompt "Epic anime warrior under the moonlight"
                    random 2 st =
  Some [ "A ninja moving silently through the shadows";
         "Cute anime girl with cherry blossoms";
         "A futuristic cityscape in anime style" ].
Proof.
  intros st random.
  destruct (refreshDemoPrompt "Epic anime warrior under the moonlight" random 2 st)
    as [st'|] eqn:Hr; [|vm_compute in Hr; discriminate].
  destruct (rotation_keeps_the_set PROMPT_POOL
              "Epic anime warrior under the moonlight" random 2 st st')
    as (_ & _ & _ & _ & _ & Hst); try done.
  - apply (bool_decide_unpack _). vm_compute. exact I.
  - apply subseteq_take.
  - apply (bool_decide_unpack _). vm_compute. exact I.
  - vm_compute in Hr. injection Hr as <-. reflexivity.
Defined.

(** X13: [refreshDemoPrompt] for a prompt that is not in the rotating
    set returns at once, without a single draw, and changes nothing. *)
Theorem rotation_of_absent_prompt_is_noop pool usedPrompt random fuel st :
  usedPrompt ∉ demoPrompts st ->
  refreshDemoPrompt_in pool usedPrompt random fuel st = Some st /\
  refreshDemoPrompt_in pool usedPrompt random 0 st = Some st.
Proof.
  intros Hnotin. unfold refreshDemoPrompt_in.
  by rewrite (indexOf_not_elem_of _ _ Hnotin).
Qed.

Lemma rotation_of_absent_prompt_witness :
  refreshDemoPrompt "Fantasy knight with a glowing sword" (fun k => k) 0
    (set_demoPrompts (take 3 PROMPT_POOL) (initial_state unlimited ∅)) =
  Some (set_demoPrompts (take 3 PROMPT_POOL) (initial_state unlimited ∅)).
Proof.
  assert (Habsent : "Fantasy knight with a glowing sword"
                      ∉ demoPrompts (set_demoPrompts (take 3 PROMPT_POOL)
                                       (initial_state unlimited ∅)))
    by (apply (bool_decide_unpack _); vm_compute; exact I).
  destruct (rotation_of_absent_prompt_is_noop PROMPT_POOL
              "Fantasy knight with a glowing sword" (fun k => k) 0 _ Habsent)
    as [H _].
  exact H.
Defined.

(** ** Startup *)

Lemma NoDup_PROMPT_POOL : NoDup PROMPT_POOL.
Proof. apply (bool_decide_unpack _). vm_compute. exact I. Qed.

Lemma pool_prompts_are_trimmed :
  Forall (fun p => trim p = p /\ p <> "") PROMPT_POOL.
Proof. repeat constructor; discriminate. Qed.

Lemma take_Permutation_pool (shuffled : list string) n :
  shuffled ≡ₚ PROMPT_POOL ->
  NoDup (take n shuffled) /\ take n shuffled ⊆ PROMPT_POOL /\
  length (take n shuffled) = min n 12.
Proof.
  intros Hp. split; [|split].
  - eapply sublist_NoDup; [|apply sublist_take].
    rewrite Hp. apply NoDup_PROMPT_POOL.
  - intros x Hx. rewrite <- Hp. by apply (subseteq_take n shuffled).
  - rewrite length_take. by rewrite (Permutation_length Hp).
Qed.

Lemma applyTheme_ends theme st :
  (quota st (localStorage st) "theme" theme = true /\
   applyTheme theme st = Returned (themed theme st))
  \/
  (quota st (localStorage st) "theme" theme = false /\
   applyTheme theme st =
     Threw (log_call (setItem "theme" theme) (set_dataTheme (Some theme) st))).
Proof.
  unfold applyTheme, localStorage_setItem.
  cbn [quota localStorage set_dataTheme].
  destruct (quota st (localStorage st) "theme" theme); [left|right]; done.
Qed.

Lemma assign_parsed_themed theme saved assign st :
  (forall l s, assign l (themed theme s) = themed theme (assign l s)) ->
  assign_parsed saved assign (themed theme st) =
  on_state (themed theme) (assign_parsed saved assign st).
Proof.
  intros Hcomm. unfold assign_parsed. destruct saved as [text|]; [|done].
  destruct (String.eqb text ""); [done|].
  destruct (JSON.parse text) as [v| |]; try done.
  destruct (Wallpapers_ofJSON v) as [l|]; [|done].
  cbn. by rewrite Hcomm.
Qed.

(** Loading after the theme write ends as loading before it. *)
Lemma loadData_themed theme st :
  loadData (themed theme st) = on_state (themed theme) (loadData st).
Proof.
  unfold loadData. cbn [localStorage themed set_localStorage].
  rewrite !lookup_insert_ne by done.
  set (s1 := localStorage st !! "userHistory").
  set (s2 := localStorage st !! "demoHistory").
  set (s3 := localStorage st !! "allGenerations").
  fold (themed theme st).
  rewrite assign_parsed_themed by done.
  destruct (assign_parsed s1 set_history st) as [st1| |]; try done.
  cbn [on_state and_then].
  rewrite assign_parsed_themed by done.
  destruct (assign_parsed s2 set_demoHistory st1) as [st2| |]; try done.
  cbn [on_state and_then].
  by rewrite assign_parsed_themed.
Qed.

(** X14: startup applies the saved theme, or dark when none is saved,
    and, when the browser accepts that write and [loadData] returns,
    hands over a rotating set that meets what the rotation needs: with
    the pool shuffled, the three demo prompts are distinct prompts of the
    pool, which has more distinct entries than the set; four requests
    have been sent, for four distinct prompts of the pool, each with the
    ratio 9:16; the lists are the loaded ones, and the theme is the only
    thing written to the store. *)
Theorem startup_sets_up_rotation_and_demos shuffledPrompts shuffledDemos st st1 :
  shuffledPrompts ≡ₚ PROMPT_POOL ->
  shuffledDemos ≡ₚ PROMPT_POOL ->
  let savedTheme := or_else (localStorage st !! "theme") "dark" in
  quota st (localStorage st) "theme" savedTheme = true ->
  loadData st = Returned st1 ->
  exists st2,
    initializeApp shuffledPrompts shuffledDemos st = Returned st2 /\
    dataTheme st2 = Some savedTheme /\
    demoPrompts st2 = take 3 shuffledPrompts /\
    length (demoPrompts st2) = 3 /\
    NoDup (demoPrompts st2) /\
    demoPrompts st2 ⊆ PROMPT_POOL /\
    length (demoPrompts st2) + 1 <= length (remove_dups PROMPT_POOL) /\
    calls st2 =
      calls st ++
      setItem "theme" savedTheme :: map demo_request (take demoCount shuffledDemos) /\
    length (take demoCount shuffledDemos) = 4 /\
    NoDup (take demoCount shuffledDemos) /\
    take demoCount shuffledDemos ⊆ PROMPT_POOL /\
    history st2 = history st1 /\
    demoHistory st2 = demoHistory st1 /\
    allGenerations st2 = allGenerations st1 /\
    localStorage st2 = <["theme" := savedTheme]> (localStorage st).
Proof.
  intros Hp Hd savedTheme Hq Hload.
  unfold initializeApp. fold savedTheme.
  destruct (applyTheme_ends savedTheme st) as [(_ & ->)|(Hq' & _)];
    [|congruence].
  cbn [and_then]. rewrite loadData_themed, Hload. cbn [on_state and_then].
  eexists. split; [reflexivity|].
  destruct (loadData_frame _ _ (or_introl Hload)) as (Hs & Hc & _).
  destruct (foldl_request_image (take demoCount shuffledDemos)
              (set_demoPrompts (take 3 shuffledPrompts) (themed savedTheme st1)))
    as (Eh & Ed & Ea & Ep & _ & _ & Es & Ec).
  destruct (foldl_request_image_frame (take demoCount shuffledDemos)
              (set_demoPrompts (take 3 shuffledPrompts) (themed savedTheme st1)))
    as (Et & _).
  cbn [generateLiveDemos_request snd].
  destruct (take_Permutation_pool shuffledPrompts 3 Hp) as (N1 & N2 & N3).
  destruct (take_Permutation_pool shuffledDemos demoCount Hd) as (M1 & M2 & M3).
  rewrite Et, Ep, Eh, Ed, Ea, Es, Ec. cbn [demoPrompts set_demoPrompts calls
    history demoHistory allGenerations localStorage themed set_localStorage
    log_call set_dataTheme].
  rewrite N3, Hc, Hs. rewrite <- app_assoc. cbn [List.app].
  repeat split; try done.
  vm_compute. lia.
Qed.

Lemma startup_witness :
  exists st2,
    initializeApp (rev PROMPT_POOL) PROMPT_POOL (initial_state unlimited ∅) =
      Returned st2 /\
    dataTheme st2 = Some "dark" /\
    demoPrompts st2 =
      [ "Cyberpunk hacker in a high-tech hideout";
        "Fantasy knight with a glowing sword";
        "A ninja moving silently through the shadows" ] /\
    localStorage st2 = {[ "theme" := "dark" ]}.
Proof.
  destruct (startup_sets_up_rotation_and_demos (rev PROMPT_POOL) PROMPT_POOL
              (initial_state unlimited ∅) (initial_state unlimited ∅))
    as (st2 & Hi & Ht & Hp & Hrest).
  - symmetry. apply Permutation_rev.
  - reflexivity.
  - reflexivity.
  - reflexivity.
  - exists st2. split; [exact Hi|]. split; [exact Ht|].
    split; [rewrite Hp; reflexivity|].
    destruct Hrest as (_ & _ & _ & _ & _ & _ & _ & _ & _ & _ & _ & Hs).
    rewrite Hs. reflexivity.
Defined.

(** When the browser refuses the theme write (storage switched off, or
    no room left), startup ends there, with the exception: the theme
    attribute is set, but nothing is loaded, no demo prompt is drawn and
    no request is sent. *)
Lemma startup_stops_at_a_refused_theme_write shuffledPrompts shuffledDemos st :
  let savedTheme := or_else (localStorage st !! "theme") "dark" in
  quota st (localStorage st) "theme" savedTheme = false ->
  initializeApp shuffledPrompts shuffledDemos st =
    Threw (log_call (setItem "theme" savedTheme)
             (set_dataTheme (Some savedTheme) st)).
Proof.
  intros savedTheme Hq. unfold initializeApp. fold savedTheme.
  destruct (applyTheme_ends savedTheme st) as [(Hq' & _)|(_ & ->)];
    [congruence|done].
Qed.

(** ** Clicking a demo prompt *)

(** X15: a click on one of the demo prompts shown (distinct prompts of
    the pool, fewer than the pool holds) puts the prompt into the prompt
    input and sends exactly one request, for that prompt and the selected
    ratio; then the rotation runs, and with a random source in which
    every index of the pool comes up at some point it returns: from some
    number of draws on the click has ended, always in the same state.
    The prompt is then no longer among the demo prompts, which are again
    distinct prompts of the pool, as many as before.  No list and no
    store entry changes at the click. *)
Theorem demo_click_requests_and_rotates prompt random st :
  NoDup (demoPrompts st) ->
  demoPrompts st ⊆ PROMPT_POOL ->
  length (demoPrompts st) < length PROMPT_POOL ->
  prompt ∈ demoPrompts st ->
  (forall i, i < length PROMPT_POOL ->
             exists k, random k mod length PROMPT_POOL = i) ->
  exists draws st',
    (forall fuel, draws <= fuel ->
       handleDemoPromptClick prompt random fuel st = Some (Some prompt, st')) /\
    calls st' =
      calls st ++ [generateImages (styled prompt) (selectedAspectRatio st)] /\
    promptInput st' = prompt /\
    (prompt ∉ demoPrompts st') /\
    NoDup (demoPrompts st') /\
    demoPrompts st' ⊆ PROMPT_POOL /\
    length (demoPrompts st') = length (demoPrompts st) /\
    history st' = history st /\
    demoHistory st' = demoHistory st /\
    allGenerations st' = allGenerations st /\
    localStorage st' = localStorage st.
Proof.
  intros Hnd Hsub Hlen Hin Hfair. unfold handleDemoPromptClick.
  assert (Htrim : trim prompt = prompt /\ prompt <> "").
  { apply (proj1 (Forall_forall _ _) pool_prompts_are_trimmed). by apply Hsub. }
  destruct Htrim as [Htrim Hne].
  rewrite handleFormSubmit_request_nonempty
    by (cbn [promptInput set_promptInput]; congruence).
  cbn [promptInput set_promptInput selectedAspectRatio]. rewrite Htrim.
  set (st2 := request_image prompt (selectedAspectRatio st)
                (set_promptInput prompt st)).
  destruct (fresh_entry_exists PROMPT_POOL (demoPrompts st2)) as (j & Hj & Hfresh).
  { assert (length (remove_dups PROMPT_POOL) = 12) as ->
      by (vm_compute; reflexivity).
    change (length PROMPT_POOL) with 12 in Hlen.
    change (demoPrompts st2) with (demoPrompts st). lia. }
  destruct (Hfair j Hj) as (k & Hk).
  assert (Hdrawn : drawn PROMPT_POOL random k ∉ demoPrompts st2)
    by (unfold drawn; by rewrite Hk).
  destruct (rotation_returns PROMPT_POOL prompt random st2 k ltac:(done) Hin
              Hdrawn) as (i & p & Hi & Hpool & Hpfresh & Hr).
  exists (S k), (set_demoPrompts (<[i := p]> (demoPrompts st2)) st2).
  split.
  { intros fuel Hfuel. unfold refreshDemoPrompt. by rewrite (Hr fuel Hfuel). }
  destruct (refreshDemoPrompt_in_Some PROMPT_POOL prompt random (S k) st2 _
              ltac:(done) Hnd Hsub Hin (Hr (S k) (le_n _)))
    as (R1 & R2 & R3 & R4 & _ & _).
  done.
Qed.

Lemma demo_click_witness :
  let st := set_demoPrompts (take 3 PROMPT_POOL) (initial_state unlimited ∅) in
  let random := fun k : nat => k in
  exists fuel st',
    handleDemoPromptClick "A futuristic cityscape in anime style" random fuel st =
      Some (Some "A futuristic cityscape in anime style", st') /\
    promptInput st' = "A futuristic cityscape in anime style".
Proof.
  intros st random.
  destruct (demo_click_requests_and_rotates
              "A futuristic cityscape in anime style" random st)
    as (draws & st' & Hc & _ & Hp & _).
  - apply (bool_decide_unpack _). vm_compute. exact I.
  - apply subseteq_take.
  - vm_compute. lia.
  - apply (bool_decide_unpack _). vm_compute. exact I.
  - intros i Hi. exists i. by apply Nat.mod_small.
  - exists draws, st'. split; [by apply Hc|exact Hp].
Defined.

(** ** File names *)

Lemma string_length_append (a b : string) :
  String.length (a +:+ b) = String.length a + String.length b.
Proof. induction a as [|x a IH]; cbn; [done|by rewrite IH]. Qed.

Lemma chars_append (a b : string) :
  list_ascii_of_string (a +:+ b) =
  list_ascii_of_string a ++ list_ascii_of_string b.
Proof. induction a as [|x a IH]; cbn; [done|by rewrite IH]. Qed.

Lemma length_slice0 n s : String.length (slice0 n s) = min n (String.length s).
Proof.
  revert s. induction n as [|n IH]; intros [|c s]; cbn; try done.
  by rewrite IH.
Qed.

Lemma length_replace_whitespace s :
  String.length (replace_whitespace s) = String.length s.
Proof. induction s as [|c s IH]; cbn; [done|by rewrite IH]. Qed.

Lemma replace_whitespace_visible s :
  Forall (fun c => isWhiteSpace c = false)
    (list_ascii_of_string (replace_whitespace s)).
Proof.
  induction s as [|c s IH]; cbn; [constructor|].
  constructor; [|exact IH]. by destruct (isWhiteSpace c) eqn:Hc.
Qed.

Lemma replace_whitespace_id s :
  Forall (fun c => isWhiteSpace c = false) (list_ascii_of_string s) ->
  replace_whitespace s = s.
Proof.
  induction s as [|c s IH]; cbn; [done|].
  intros [Hc Hs]%Forall_cons. by rewrite Hc, IH.
Qed.

(** X16: the file name of a download is made of the first twenty
    characters of the prompt, each white space replaced by an underscore,
    and the extension: it has at most twenty-five characters, none of
    them white space, and two prompts that agree on their first twenty
    characters get the same name.  The name used for sharing keeps the
    white space: the two names are equal when those characters hold
    none. *)
Theorem download_name_is_short_and_solid w :
  String.length (download_name w) = min 20 (String.length (prompt w)) + 5 /\
  String.length (download_name w) <= 25 /\
  Forall (fun c => isWhiteSpace c = false)
    (list_ascii_of_string (download_name w)) /\
  (forall w', slice0 20 (prompt w') = slice0 20 (prompt w) ->
              download_name w' = download_name w) /\
  String.length (share_name w) = String.length (download_name w) /\
  (Forall (fun c => isWhiteSpace c = false)
     (list_ascii_of_string (slice0 20 (prompt w))) ->
   share_name w = download_name w).
Proof.
  unfold download_name, share_name.
  rewrite !string_length_append, length_replace_whitespace, length_slice0.
  split; [reflexivity|]. split; [cbn [String.length]; lia|].
  split; [|split; [|split]].
  - rewrite chars_append. apply Forall_app. split.
    + apply replace_whitespace_visible.
    + repeat constructor.
  - by intros w' ->.
  - reflexivity.
  - intros H. by rewrite (replace_whitespace_id _ H).
Qed.

Example download_name_example :
  let w := mkWallpaper "1700000000000" "Cute anime girl with cherry blossoms"
             "data:image/jpeg;base64,AAAA" R1_1 1700000000000 user in
  download_name w = "Cute_anime_girl_with.jpeg" /\
  share_name w = "Cute anime girl with.jpeg".
Proof. split; reflexivity. Qed.

(** ** The theme *)

Lemma toggleTheme_dataTheme st :
  dataTheme (state_after st (toggleTheme st)) =
  Some (if String.eqb (or_else (dataTheme st) "light") "light"
        then "dark" else "light").
Proof.
  unfold toggleTheme. cbv zeta.
  set (newTheme := if String.eqb _ _ then _ else _).
  by destruct (applyTheme_ends newTheme st) as [[_ ->]|[_ ->]].
Qed.

Lemma toggleTheme_localStorage st :
  let st' := state_after st (toggleTheme st) in
  (returned (toggleTheme st) = true ->
   localStorage st' !! "theme" = dataTheme st') /\
  (returned (toggleTheme st) = false -> localStorage st' = localStorage st).
Proof.
  unfold toggleTheme. cbv zeta.
  set (newTheme := if String.eqb _ _ then _ else _).
  destruct (applyTheme_ends newTheme st) as [[_ ->]|[_ ->]];
    cbn [returned state_after]; (split; [|done]).
  - intros _. unfold themed. cbn [localStorage dataTheme set_localStorage
      log_call set_dataTheme]. apply lookup_insert_eq.
  - done.
Qed.

(** X17: [toggleTheme] switches between light and dark: a page that
    shows light (or has no theme attribute yet) goes to dark, a page that
    shows anything else, dark or a theme name found in the store, goes to
    light, whether the browser accepts the write that follows or not.
    When the write returned, the theme in the store is the one the page
    shows; when it was refused, the store is as before.  Two more
    toggles bring the same theme back. *)
Theorem toggleTheme_alternates st :
  let st' := state_after st (toggleTheme st) in
  let st'' := state_after st' (toggleTheme st') in
  (or_else (dataTheme st) "light" = "light" -> dataTheme st' = Some "dark") /\
  (or_else (dataTheme st) "light" <> "light" -> dataTheme st' = Some "light") /\
  (dataTheme st' = Some "light" \/ dataTheme st' = Some "dark") /\
  (returned (toggleTheme st) = true ->
   localStorage st' !! "theme" = dataTheme st') /\
  (returned (toggleTheme st) = false -> localStorage st' = localStorage st) /\
  dataTheme (state_after st'' (toggleTheme st'')) = dataTheme st' /\
  (dataTheme st = Some "light" \/ dataTheme st = Some "dark" ->
   dataTheme st'' = dataTheme st).
Proof.
  intros st' st''. subst st''.
  destruct (toggleTheme_localStorage st) as [Hret Hthrew]. fold st' in Hret, Hthrew.
  rewrite !toggleTheme_dataTheme.
  assert (H' : dataTheme st' =
          Some (if String.eqb (or_else (dataTheme st) "light") "light"
                then "dark" else "light")) by apply toggleTheme_dataTheme.
  rewrite H' in Hret |- *. clear H'.
  destruct (String.eqb_spec (or_else (dataTheme st) "light") "light") as [He|Hne].
  - split; [done|]. split; [done|]. split; [by right|].
    split; [exact Hret|]. split; [exact Hthrew|]. split; [reflexivity|].
    intros [H|H]; [by rewrite H|]. rewrite H in He. done.
  - split; [done|]. split; [done|]. split; [by left|].
    split; [exact Hret|]. split; [exact Hthrew|]. split; [reflexivity|].
    intros [H|H]; [|by rewrite H]. rewrite H in Hne. done.
Qed.

Lemma toggleTheme_witness :
  let st0 := initial_state unlimited (<["theme" := "sepia"]> ∅) in
  let st := state_after st0 (applyTheme "sepia" st0) in
  let st' := state_after st (toggleTheme st) in
  dataTheme st = Some "sepia" /\
  dataTheme st' = Some "light" /\
  dataTheme (state_after st' (toggleTheme st')) = Some "dark".
Proof.
  intros st0 st st'. split; [reflexivity|].
  destruct (toggleTheme_alternates st) as (_ & Hother & _).
  split; [apply Hother; discriminate|].
  destruct (toggleTheme_alternates st') as (Hlight & _).
  apply Hlight. reflexivity.
Defined.

(** A theme toggled while the store is full: the page changes, the store
    does not, so the next visit starts in the old theme. *)
Example refused_theme_write :
  let st0 := initial_state (capacity 9) (<["theme" := "dark"]> ∅) in
  let st := state_after st0 (applyTheme "dark" st0) in
  let st' := state_after st (toggleTheme st) in
  returned (applyTheme "dark" st0) = true /\
  returned (toggleTheme st) = false /\
  dataTheme st' = Some "light" /\
  localStorage st' !! "theme" = Some "dark".
Proof. vm_compute. done. Qed.

(** X18: the theme and the gallery do not meet in the store.  Applying a
    theme writes the key [theme] only: the lists in memory stay, whether
    the write is accepted or refused, and after an accepted write
    [loadData] ends as it would have without the write, with the same
    lists loaded or the same exception.  In the other direction
    [saveData] leaves the key [theme] as it is, however it ends. *)
Theorem theme_and_gallery_are_independent theme st :
  let st' := state_after st (applyTheme theme st) in
  (applyTheme theme st = Returned (themed theme st) \/
   applyTheme theme st = Threw st' /\ localStorage st' = localStorage st) /\
  loadData (themed theme st) = on_state (themed theme) (loadData st) /\
  history st' = history st /\
  demoHistory st' = demoHistory st /\
  allGenerations st' = allGenerations st /\
  (forall key, key <> "theme" ->
     localStorage st' !! key = localStorage st !! key) /\
  (forall s s', saveData s = Returned s' \/ saveData s = Threw s' ->
     localStorage s' !! "theme" = localStorage s !! "theme").
Proof.
  intros st'. subst st'.
  split; [|split; [apply loadData_themed|]].
  - destruct (applyTheme_ends theme st) as [[_ ->]|[_ ->]]; [by left|by right].
  - destruct (applyTheme_ends theme st) as [[_ ->]|[_ ->]];
      cbn [state_after]; (do 3 (split; [done|])); (split; [|]).
    + intros key Hkey. unfold themed. cbn. by rewrite lookup_insert_ne.
    + intros s s' Hend. by apply (saveData_other_keys s s').
    + done.
    + intros s s' Hend. by apply (saveData_other_keys s s').
Qed.

(** ** The history grid *)

Lemma filter_remove_element e grid :
  filter is_picture (remove_element e grid) = filter is_picture grid.
Proof.
  unfold remove_element. induction grid as [|c grid IH]; [done|].
  destruct c as [e' w|w tag].
  - rewrite (filter_cons_False is_picture) by (cbn; tauto).
    destruct (Nat.eqb_spec e' e) as [->|Hne].
    + rewrite filter_cons_False by (cbn; rewrite Nat.eqb_refl; done).
      exact IH.
    + rewrite filter_cons_True
        by (cbn; by destruct (Nat.eqb_spec e' e)).
      by rewrite (filter_cons_False is_picture) by (cbn; tauto).
  - rewrite filter_cons_True by done.
    rewrite !(filter_cons_True is_picture) by done. by rewrite IH.
Qed.

Lemma filter_pictures (l : list Wallpaper) :
  filter is_picture (map (fun w => PictureCard w false) l) =
  map (fun w => PictureCard w false) l.
Proof.
  induction l as [|w l IH]; [done|]. cbn [map].
  rewrite filter_cons_True by done. by rewrite IH.
Qed.

Lemma renderHistory_shows st v : grid_shows_history (st, renderHistory st v).
Proof.
  unfold grid_shows_history, renderHistory. cbn [fst snd].
  destruct (history st) as [|w h] eqn:Hh; cbn [length Nat.ltb Nat.leb].
  - done.
  - cbn [historyGrid historyPlaceholder]. rewrite filter_pictures.
    split; [done|]. by destruct (historyPlaceholder v).
Qed.

(** The steps of the page with the document are the steps of the page. *)
Lemma view_step_forget sv a : (view_step sv a).1 = step sv.1 (forget a).
Proof.
  destruct sv as [st v].
  destruct a as [text|ratio| |p card r n1 n2]; cbn [view_step forget fst snd].
  - done.
  - done.
  - unfold submit_request, step, handle. cbn [state_after].
    by destruct (handleFormSubmit_request st) as [[prompt|] st1].
  - unfold submit_resume, step, handle. cbv zeta.
    by destruct (handleFormSubmit_resume _ _ _ _ _).
Qed.

Lemma view_steps_forget l : forall sv,
  (view_steps sv l).1 = steps sv.1 (map forget l).
Proof.
  induction l as [|a l IH]; intros sv; [done|].
  cbn [view_steps steps foldl map]. fold (view_steps (view_step sv a) l).
  rewrite IH, view_step_forget. done.
Qed.

Lemma handleFormSubmit_request_history st :
  history (handleFormSubmit_request st).2 = history st.
Proof.
  unfold handleFormSubmit_request. by destruct (String.eqb _ _).
Qed.

(** What the grid shows is a history of the past: every step keeps the
    picture cards those of a prefix of [history]. *)
Lemma view_step_prefix sv a :
  (exists h, h `prefix_of` history sv.1 /\ grid_shows h sv.2) ->
  exists h, h `prefix_of` history (view_step sv a).1 /\
            grid_shows h (view_step sv a).2.
Proof.
  destruct sv as [st v]. cbn [fst snd]. intros (h & Hpre & Hgrid).
  destruct a as [text|ratio| |p card r n1 n2]; cbn [view_step fst snd].
  - by exists h.
  - by exists h.
  - exists h. unfold submit_request.
    pose proof (handleFormSubmit_request_history st) as Hh.
    destruct (handleFormSubmit_request st) as [[prompt|] st1];
      cbn [fst snd] in *; rewrite Hh; (split; [done|]).
    + unfold grid_shows. cbn [historyGrid].
      by rewrite filter_cons_False by (cbn; tauto).
    + done.
  - unfold submit_resume. cbv zeta. destruct r as [bytes|].
    + change (truthy (generateWallpaper_result (Some bytes))) with true.
      destruct (handleFormSubmit_resume_ends p bytes n1 n2 st)
        as (st' & [(-> & _)|(-> & _)] & Hh & _); cbn [fst snd].
      * exists (history st'). split; [done|].
        unfold grid_shows, renderHistory. rewrite Hh.
        rewrite length_app, Nat.add_comm. cbn [length Nat.add Nat.ltb Nat.leb].
        cbn [historyGrid]. by rewrite filter_pictures.
      * exists h. split.
        -- rewrite Hh. by apply prefix_app_r.
        -- unfold grid_shows. cbn [historyGrid].
           by rewrite filter_remove_element.
    + change (truthy (generateWallpaper_result None)) with false.
      rewrite handleFormSubmit_resume_failure. cbn [fst snd].
      exists h. split; [done|].
      unfold grid_shows. cbn [historyGrid]. by rewrite filter_remove_element.
Qed.

Lemma view_step_shows sv a :
  returned (handle sv.1 (forget a)) = true ->
  grid_shows_history sv -> grid_shows_history (view_step sv a).
Proof.
  destruct sv as [st v]. unfold grid_shows_history. cbn [fst snd].
  intros Hret [Hgrid Hph].
  destruct a as [text|ratio| |p card r n1 n2]; cbn [view_step fst snd].
  - done.
  - done.
  - unfold submit_request, handleFormSubmit_request.
    destruct (String.eqb _ _); [done|]. cbn [snd fst].
    split.
    + cbn [historyGrid]. by rewrite filter_cons_False by (cbn; tauto).
    + cbn [historyPlaceholder]. by destruct (historyPlaceholder v).
  - unfold submit_resume. cbv zeta. cbn [forget handle] in Hret.
    destruct r as [bytes|].
    + change (truthy (generateWallpaper_result (Some bytes))) with true.
      destruct (handleFormSubmit_resume _ _ _ _ _) as [st'|st'|]; [|done..].
      apply (renderHistory_shows _ _).
    + change (truthy (generateWallpaper_result None)) with false.
      rewrite handleFormSubmit_resume_failure.
      split; cbn [fst snd historyGrid historyPlaceholder].
      * by rewrite filter_remove_element.
      * intros H. destruct (Hph H) as [-> ->]. done.
Qed.

Lemma view_steps_prefix l : forall sv,
  (exists h, h `prefix_of` history sv.1 /\ grid_shows h sv.2) ->
  exists h, h `prefix_of` history (view_steps sv l).1 /\
            grid_shows h (view_steps sv l).2.
Proof.
  induction l as [|a l IH]; intros sv H0; [exact H0|].
  cbn [view_steps foldl]. apply IH. by apply view_step_prefix.
Qed.

Lemma view_steps_shows l : forall sv,
  steps_return sv.1 (map forget l) = true ->
  grid_shows_history sv -> grid_shows_history (view_steps sv l).
Proof.
  induction l as [|a l IH]; intros sv Hret H0; [exact H0|].
  cbn [map steps_return] in Hret. apply andb_prop in Hret as [Ha Hl].
  cbn [view_steps foldl]. apply IH.
  - by rewrite view_step_forget.
  - by apply view_step_shows.
Qed.

(** X19: once the history has been rendered, as startup does, the
    history grid shows the history or an earlier stage of it through
    typing, ratio selections, submits and their answers, in any
    interleaving: its picture cards are the entities of a prefix of
    [history], latest first, whatever spinner cards stand between them.
    The prefix is the whole history as long as no continuation of a
    submit ended with the exception of a refused write, which skips
    [renderHistory]; then the placeholder paragraph is on display only
    while the history and the grid are empty. *)
Theorem history_grid_shows_history st v l :
  let sv := view_steps (st, renderHistory st v) l in
  sv.1 = steps st (map forget l) /\
  (exists h, h `prefix_of` history sv.1 /\ grid_shows h sv.2) /\
  (steps_return st (map forget l) = true -> grid_shows_history sv).
Proof.
  intros sv. subst sv.
  pose proof (renderHistory_shows st v) as H0.
  split; [apply (view_steps_forget l (st, renderHistory st v))|]. split.
  - apply view_steps_prefix. exists (history st). split; [done|]. apply H0.
  - intros Hret. by apply view_steps_shows.
Qed.

Lemma history_grid_witness :
  let p := "Samurai standing on a cliff at sunset" in
  let l := [ VInput p; VSubmitRequest;
             VSubmitResume p 0 (Some "AAAA") 1700000000000 1700000000000 ] in
  let roomy := initial_state unlimited ∅ in
  let full := initial_state (capacity 250) ∅ in
  let v := mkView [] (Some false) 0 in
  grid_shows_history (view_steps (roomy, renderHistory roomy v) l) /\
  length (historyGrid (view_steps (roomy, renderHistory roomy v) l).2) = 1 /\
  steps_return full (map forget l) = false /\
  length (history (view_steps (full, renderHistory full v) l).1) = 1 /\
  historyGrid (view_steps (full, renderHistory full v) l).2 = [].
Proof.
  intros p l roomy full v.
  split; [|by vm_compute].
  destruct (history_grid_shows_history roomy v l) as (_ & _ & H).
  apply H. vm_compute. reflexivity.
Defined.

(** X20: a submit that fails leaves nothing to see when the history is
    empty: the spinner card is gone and the grid is empty, but the
    placeholder paragraph, hidden when the request went out, stays
    hidden, since only a success renders the history again. *)
Theorem failed_first_submit_leaves_an_empty_grid st v n1 n2 :
  trim (promptInput st) <> "" ->
  history st = [] ->
  historyGrid v = [] ->
  historyPlaceholder v = Some true ->
  let sv := view_steps (st, v) [VSubmitRequest] in
  let sv' :=
    submit_resume (trim (promptInput st)) (nextElement v) None n1 n2 sv in
  (submit_request (st, v)).1 = Some (trim (promptInput st), nextElement v) /\
  historyPlaceholder sv.2 = Some false /\
  (exists w, historyGrid sv.2 = [LoadingCard (nextElement v) w]) /\
  historyGrid sv'.2 = [] /\
  historyPlaceholder sv'.2 = Some false /\
  history sv'.1 = [].
Proof.
  intros Hne Hh Hg Hp sv sv'. subst sv' sv.
  cbn [view_steps foldl view_step]. unfold submit_request.
  rewrite (handleFormSubmit_request_nonempty st Hne). cbn [fst snd].
  unfold submit_resume.
  change (truthy (generateWallpaper_result None)) with false. cbv iota.
  rewrite handleFormSubmit_resume_failure.
  cbn [fst snd historyGrid historyPlaceholder].
  change (history (request_image (trim (promptInput st))
                     (selectedAspectRatio st) st)) with (history st).
  rewrite Hg, Hp, Hh. cbn [hidden]. split; [done|]. split; [done|].
  split; [eauto|]. split; [|done].
  unfold remove_element. rewrite filter_cons_False; [done|].
  cbn. rewrite Nat.eqb_refl. done.
Qed.

Lemma failed_first_submit_witness :
  let st := set_promptInput "Magical girl casting a powerful spell"
              (initial_state unlimited ∅) in
  let v := renderHistory st (mkView [] (Some false) 0) in
  let sv' :=
    view_steps (st, v)
      [ VSubmitRequest;
        VSubmitResume "Magical girl casting a powerful spell" 0 None
          1700000000000 1700000000000 ] in
  historyPlaceholder v = Some true /\
  historyGrid sv'.2 = [] /\ historyPlaceholder sv'.2 = Some false.
Proof.
  intros st v sv'. split; [reflexivity|].
  destruct (failed_first_submit_leaves_an_empty_grid st v
              1700000000000 1700000000000) as (_ & _ & _ & Hg & Hp & _);
    try reflexivity.
  - vm_compute. discriminate.
  - split; [exact Hg|exact Hp].
Defined.

(** X21: the answer of a successful submit, when the save that follows
    returned, renders the history grid anew: the grid then holds the
    picture cards of the history, the new entity first, and no spinner
    card at all, so the spinner cards of other submits that are still
    waiting for their answer are gone from the page too.  When the save
    threw, the entity is in the history but the grid is the old one less
    the spinner card of this submit. *)
Theorem commit_removes_every_spinner prompt placeholderCard bytes n1 n2 st v st' :
  handleFormSubmit_resume prompt (generateWallpaper_result (Some bytes)) n1 n2 st
    = Returned st' \/
  handleFormSubmit_resume prompt (generateWallpaper_result (Some bytes)) n1 n2 st
    = Threw st' ->
  let sv' := submit_resume prompt placeholderCard (Some bytes) n1 n2 (st, v) in
  exists w,
    sv'.1 = st' /\
    history st' = history st ++ [w] /\
    (handleFormSubmit_resume prompt (generateWallpaper_result (Some bytes))
       n1 n2 st = Returned st' ->
     historyGrid sv'.2 =
       PictureCard w false ::
       map (fun wallpaper => PictureCard wallpaper false) (rev (history st)) /\
     Forall is_picture (historyGrid sv'.2) /\
     historyPlaceholder sv'.2 = hidden (historyPlaceholder v)) /\
    (handleFormSubmit_resume prompt (generateWallpaper_result (Some bytes))
       n1 n2 st = Threw st' ->
     historyGrid sv'.2 = remove_element placeholderCard (historyGrid v) /\
     historyPlaceholder sv'.2 = historyPlaceholder v).
Proof.
  intros Hend sv'. subst sv'. unfold submit_resume. cbv zeta.
  change (truthy (generateWallpaper_result (Some bytes))) with true.
  destruct (handleFormSubmit_resume_ends prompt bytes n1 n2 st)
    as (st3 & Hend3 & Hh & _).
  eexists. 
  assert (st3 = st') as ->.
  { destruct Hend3 as [(H3 & _)|(H3 & _)]; destruct Hend as [H|H];
      rewrite H3 in H; congruence. }
  destruct Hend as [H|H]; rewrite H; cbn [fst snd].
  - split; [done|]. split; [exact Hh|]. split; [|done].
    intros _. unfold renderHistory. rewrite Hh.
    rewrite length_app, Nat.add_comm. cbn [length Nat.add Nat.ltb Nat.leb].
    cbn [historyGrid historyPlaceholder].
    rewrite rev_unit. cbn [map]. split; [reflexivity|]. split; [|reflexivity].
    constructor; [done|]. apply Forall_map. by apply Forall_true.
  - split; [done|]. split; [exact Hh|]. split; [done|]. done.
Qed.

Lemma commit_removes_every_spinner_witness :
  let st := (view_steps (initial_state unlimited ∅, mkView [] (Some true) 0)
      [ VInput "Samurai standing on a cliff at sunset"; VSubmitRequest;
        VInput "Floating islands in a vibrant sky"; VSubmitRequest ]) in
  let sv' :=
    submit_resume "Samurai standing on a cliff at sunset" 0 (Some "AAAA")
      1700000000000 1700000000000 st in
  length (historyGrid st.2) = 2 /\
  length (history sv'.1) = 1 /\
  length (historyGrid sv'.2) = 1 /\
  Forall is_picture (historyGrid sv'.2).
Proof.
  intros st sv'. split; [reflexivity|].
  destruct (commit_removes_every_spinner
              "Samurai standing on a cliff at sunset" 0 "AAAA"
              1700000000000 1700000000000 st.1 st.2 sv'.1)
    as (w & _ & Hh & Hret & _).
  - left. vm_compute. reflexivity.
  - assert (Hr : handleFormSubmit_resume
                   "Samurai standing on a cliff at sunset"
                   (generateWallpaper_result (Some "AAAA"))
                   1700000000000 1700000000000 st.1 = Returned sv'.1)
      by (vm_compute; reflexivity).
    destruct (Hret Hr) as (Hg & Hp & _).
    split; [by vm_compute|]. split; [by vm_compute|]. exact Hp.
Defined.

Example second_spinner_is_wiped :
  let st := initial_state unlimited ∅ in
  let v := renderHistory st (mkView [] (Some false) 0) in
  let sv' :=
    view_steps (st, v)
      [ VInput "Samurai standing on a cliff at sunset"; VSubmitRequest;
        VInput "Floating islands in a vibrant sky"; VSubmitRequest;
        VSubmitResume "Samurai standing on a cliff at sunset" 0 (Some "AAAA")
          1700000000000 1700000000000 ] in
  filter is_generateImages (calls sv'.1) =
    [ generateImages (styled "Samurai standing on a cliff at sunset") R9_16;
      generateImages (styled "Floating islands in a vibrant sky") R9_16 ] /\
  length (history sv'.1) = 1 /\
  length (historyGrid sv'.2) = 1 /\
  Forall is_picture (historyGrid sv'.2).
Proof. vm_compute. repeat split. repeat constructor. Qed.

(** The same answer in a browser whose store is full: the save throws,
    [renderHistory] is not reached, and the spinner card of the other
    submit stays while the new entity is in no card. *)
Example refused_save_leaves_the_grid :
  let st := initial_state (capacity 250) ∅ in
  let v := renderHistory st (mkView [] (Some false) 0) in
  let sv' :=
    view_steps (st, v)
      [ VInput "Samurai standing on a cliff at sunset"; VSubmitRequest;
        VInput "Floating islands in a vibrant sky"; VSubmitRequest;
        VSubmitResume "Samurai standing on a cliff at sunset" 0 (Some "AAAA")
          1700000000000 1700000000000 ] in
  length (history sv'.1) = 1 /\
  length (historyGrid sv'.2) = 1 /\
  filter is_picture (historyGrid sv'.2) = [] /\
  promptInput sv'.1 = "Floating islands in a vibrant sky".
Proof. vm_compute. done. Qed.
